(** * hydrus/core/HydrusThreading.py: thread registry, workers, job scheduler

    A shallow embedding of the threading core: the global thread registry,
    the periodic DAEMONWorker, the queue-draining THREADCallToThread, the
    SchedulableJob family, the JobScheduler that orders them by due time and
    its thread, and SubprocessCommunicate.

    Conventions.
    - Python objects that are shared and mutated (jobs) live in a store and
      are named by references; the scheduler's list holds references.
    - Everything the module reads from outside (the clock, [random.random],
      the controller, the callables it is handed, events set by other
      threads) is an oracle indexed by a reading counter, so that a run is a
      function of what the outside answered.
    - Times are exact rationals; the source computes them in binary64.
    - Unbounded [while] loops take fuel and say so when it runs out. *)

From Stdlib Require Import QArith Lqa ZArith Lia Bool List Sorting.Sorted.
From stdpp Require Import gmap sorting.
Import ListNotations.

Local Open Scope nat_scope.

(** ** Python control flow *)

(** The exceptions the [except] clauses of the module tell apart:
    [HydrusExceptions.ShutdownException] and any other instance of
    [Exception], told apart by a tag. What derives from [BaseException]
    only (the system-exiting [SystemExit], [KeyboardInterrupt],
    [GeneratorExit]), which no clause of the module names, is outside the
    model. *)
Inductive exn : Type :=
| ShutdownException
| OtherException (tag : nat).

(** What a call of an opaque callable does. *)
Inductive outcome : Type :=
| Returns
| Raises (e : exn).

(** Result of running a piece of code: a value, an exception on its way up,
    or still running when the fuel ran out. *)
Inductive res (A : Type) : Type :=
| Ok (a : A)
| Raise (e : exn)
| OutOfFuel.
Arguments Ok {A} a.
Arguments Raise {A} e.
Arguments OutOfFuel {A}.

Definition M (S A : Type) : Type := S -> res A * S.

Definition ret {S A : Type} (a : A) : M S A := fun s => (Ok a, s).

Definition raise {S A : Type} (e : exn) : M S A := fun s => (Raise e, s).

Definition bind {S A B : Type} (c : M S A) (k : A -> M S B) : M S B :=
  fun s =>
    match c s with
    | (Ok a, s') => k a s'
    | (Raise e, s') => (Raise e, s')
    | (OutOfFuel, s') => (OutOfFuel, s')
    end.

Declare Scope py_scope.
Delimit Scope py_scope with py.
Notation "x <- c ;; k" := (bind c (fun x => k))
  (at level 62, c at next level, right associativity) : py_scope.
Notation "c ;;; k" := (bind c (fun _ => k))
  (at level 62, right associativity) : py_scope.

Definition get {S : Type} : M S S := fun s => (Ok s, s).
Definition modify {S : Type} (f : S -> S) : M S unit := fun s => (Ok tt, f s).

(** [try: c  except <h>: ...]: [h e] is the handler of the first clause that
    matches [e], if one does. An exception raised by a handler goes up. *)
Definition try_except {S A : Type} (c : M S A) (h : exn -> option (M S A)) : M S A :=
  fun s =>
    match c s with
    | (Raise e, s') =>
        match h e with
        | Some k => k s'
        | None => (Raise e, s')
        end
    | r => r
    end.

(** [try: c  finally: f]: [f] runs whether [c] returned or raised, and what
    [c] did stands unless [f] itself raises. *)
Definition try_finally {S A : Type} (c : M S A) (f : M S unit) : M S A :=
  fun s =>
    match c s with
    | (OutOfFuel, s') => (OutOfFuel, s')
    | (r, s') =>
        match f s' with
        | (Ok _, s'') => (r, s'')
        | (Raise e, s'') => (Raise e, s'')
        | (OutOfFuel, s'') => (OutOfFuel, s'')
        end
    end.

(** ** What the module takes from [HydrusData] *)

Module HydrusData.

(** Modelled from the spec: [HydrusData.TimeHasPassed] is not among the
    sources. The spec has the registry's sweep run "if 600s have elapsed
    since the last sweep", that is once the clock has reached the recorded
    time. *)
Definition TimeHasPassed (now timestamp : Z) : bool := (timestamp <=? now)%Z.

(** Modelled from the spec: [HydrusData.TimeHasPassedFloat] is not among the
    sources. The spec's due time is "the timestamp at or after which a job
    becomes eligible for dispatch". *)
Definition TimeHasPassedFloat (now timestamp : Q) : bool := Qle_bool timestamp now.

(** Modelled from the spec: [HydrusData.GetTimeDeltaUntilTimeFloat] is not
    among the sources. The spec's wait budget is "min(1.0s, time until the
    earliest job's due time)". *)
Definition GetTimeDeltaUntilTimeFloat (now timestamp : Q) : Q := (timestamp - now)%Q.

End HydrusData.

(** ** The thread registry (module globals and functions, lines 15-105) *)

Module Registry.

(** Thread objects are dictionary keys; only their identity matters. *)
Definition Thread : Type := nat.

(** [thread_info = {}; thread_info[ 'shutting_down' ] = False] *)
Record ThreadInfo : Type := { shutting_down : bool }.

(** The module globals [THREADS_TO_THREAD_INFO] and [NEXT_THREAD_CLEAROUT]. *)
Record Globals : Type := {
  THREADS_TO_THREAD_INFO : gmap Thread ThreadInfo;
  NEXT_THREAD_CLEAROUT : Z
}.

(** At import time: [NEXT_THREAD_CLEAROUT = 0], [THREADS_TO_THREAD_INFO = {}]. *)
Definition initial : Globals :=
  {| THREADS_TO_THREAD_INFO := ∅; NEXT_THREAD_CLEAROUT := 0 |}.

(** [ClearOutDeadThreads]: walks a snapshot of the keys and deletes every
    thread for which [thread.is_alive()] is false. [is_alive] is what the
    threads answer during this sweep. *)
Definition ClearOutDeadThreads (is_alive : Thread -> bool) (g : Globals) : Globals :=
  {| THREADS_TO_THREAD_INFO :=
       filter (fun kv : Thread * ThreadInfo => Is_true (is_alive kv.1))
              (THREADS_TO_THREAD_INFO g);
     NEXT_THREAD_CLEAROUT := NEXT_THREAD_CLEAROUT g |}.

(** [GetThreadInfo( thread )]. The caller passes the thread it asks about
    ([threading.current_thread()] when the source's argument is [None]).
    Returns the info stored for the thread, creating it if absent. *)
Definition GetThreadInfo (now : Z) (is_alive : Thread -> bool) (thread : Thread)
    (g : Globals) : ThreadInfo * Globals :=
  let g1 :=
    if HydrusData.TimeHasPassed now (NEXT_THREAD_CLEAROUT g) then
      {| THREADS_TO_THREAD_INFO := THREADS_TO_THREAD_INFO (ClearOutDeadThreads is_alive g);
         NEXT_THREAD_CLEAROUT := (now + 600)%Z |}
    else g in
  match THREADS_TO_THREAD_INFO g1 !! thread with
  | Some thread_info => (thread_info, g1)
  | None =>
      let thread_info := {| shutting_down := false |} in
      (thread_info,
       {| THREADS_TO_THREAD_INFO := <[thread := thread_info]> (THREADS_TO_THREAD_INFO g1);
          NEXT_THREAD_CLEAROUT := NEXT_THREAD_CLEAROUT g1 |})
  end.

(** [ShutdownThread( thread )]: the dictionary returned by [GetThreadInfo]
    is the one stored in the registry, so the assignment updates the
    registry's entry. *)
Definition ShutdownThread (now : Z) (is_alive : Thread -> bool) (thread : Thread)
    (g : Globals) : Globals :=
  let '(_, g1) := GetThreadInfo now is_alive thread g in
  {| THREADS_TO_THREAD_INFO :=
       <[thread := {| shutting_down := true |}]> (THREADS_TO_THREAD_INFO g1);
     NEXT_THREAD_CLEAROUT := NEXT_THREAD_CLEAROUT g1 |}.

(** [IsThreadShuttingDown()], for the current thread [me]. The controller's
    [DoingFastExit()], the two global flags and whether [me] is a [DAEMON]
    are passed in. *)
Definition IsThreadShuttingDown (DoingFastExit me_is_DAEMON view_shutdown model_shutdown : bool)
    (now : Z) (is_alive : Thread -> bool) (me : Thread) (g : Globals) : bool * Globals :=
  if DoingFastExit then (true, g)
  else if me_is_DAEMON && view_shutdown then (true, g)
  else if negb me_is_DAEMON && model_shutdown then (true, g)
  else
    let '(thread_info, g1) := GetThreadInfo now is_alive me g in
    (shutting_down thread_info, g1).

(** Registry operations, each with what the clock and the threads answer
    while it runs. *)
Inductive op : Type :=
| OpGetThreadInfo (now : Z) (is_alive : Thread -> bool) (thread : Thread)
| OpClearOutDeadThreads (is_alive : Thread -> bool)
| OpShutdownThread (now : Z) (is_alive : Thread -> bool) (thread : Thread).

Definition run_op (o : op) (g : Globals) : Globals :=
  match o with
  | OpGetThreadInfo now is_alive thread => (GetThreadInfo now is_alive thread g).2
  | OpClearOutDeadThreads is_alive => ClearOutDeadThreads is_alive g
  | OpShutdownThread now is_alive thread => ShutdownThread now is_alive thread g
  end.

Definition run_ops (ops : list op) (g : Globals) : Globals :=
  fold_left (fun g o => run_op o g) ops g.

(** The thread [t] answers [is_alive() = True] whenever operation [o]
    asks. *)
Definition alive_during (t : Thread) (o : op) : Prop :=
  match o with
  | OpGetThreadInfo _ is_alive _ => is_alive t = true
  | OpClearOutDeadThreads is_alive => is_alive t = true
  | OpShutdownThread _ is_alive _ => is_alive t = true
  end.

(** What a lookup of [t]'s info observes. *)
Definition observed_shutting_down (now : Z) (is_alive : Thread -> bool) (t : Thread)
    (g : Globals) : bool :=
  shutting_down (GetThreadInfo now is_alive t g).1.

(** The info of a thread told to shut down. *)
Definition info_true : ThreadInfo := {| shutting_down := true |}.

(** The registry holds [t] with its flag set. *)
Definition flagged (t : Thread) (g : Globals) : Prop :=
  THREADS_TO_THREAD_INFO g !! t = Some info_true.

(** Operation [o] is not [ShutdownThread( t )]. *)
Definition not_shutdown_of (t : Thread) (o : op) : Prop :=
  match o with
  | OpShutdownThread _ _ thread => thread <> t
  | _ => True
  end.

(** The registry does not hold [t] with its flag set. *)
Definition unflagged (t : Thread) (g : Globals) : Prop :=
  forall thread_info,
    THREADS_TO_THREAD_INFO g !! t = Some thread_info -> shutting_down thread_info = false.

(** What the registry holds for [t], read without a lookup's side effects. *)
Definition stored_flag (t : Thread) (g : Globals) : bool :=
  match THREADS_TO_THREAD_INFO g !! t with
  | Some thread_info => shutting_down thread_info
  | None => false
  end.

End Registry.

(** ** Jobs and the job scheduler (classes SchedulableJob, JobScheduler,
       SingleJob, RepeatingJob, lines 449-952) *)

Module Scheduling.

(** Job objects are shared between their creator, the scheduler's list and
    the worker pool: they are named by reference. *)
Definition JobRef : Type := nat.

(** The identifier passed to [AcquireThreadSlot] / [ReleaseThreadSlot]. *)
Definition SlotType : Type := nat.

(** The three job classes with the attributes each adds in [__init__]. *)
Inductive JobClass : Type :=
| SchedulableJobClass
| SingleJobClass (_work_complete : bool)
| RepeatingJobClass (_period : Q) (_stop_repeating : bool).

(** The attributes [SchedulableJob.__init__] sets. The controller and the
    scheduler are the single ones of the world below; the work callable is
    answered by the environment; the work lock is not modelled, one
    operation running at a time. *)
Record Job : Type := {
  _should_delay_on_wakeup : bool;
  _next_work_time : Q;
  _thread_slot_type : option SlotType;
  _currently_working : bool;
  _is_cancelled : bool;
  job_class : JobClass
}.

Definition with_should_delay_on_wakeup (v : bool) (j : Job) : Job :=
  {| _should_delay_on_wakeup := v; _next_work_time := _next_work_time j;
     _thread_slot_type := _thread_slot_type j; _currently_working := _currently_working j;
     _is_cancelled := _is_cancelled j; job_class := job_class j |}.

Definition with_next_work_time (v : Q) (j : Job) : Job :=
  {| _should_delay_on_wakeup := _should_delay_on_wakeup j; _next_work_time := v;
     _thread_slot_type := _thread_slot_type j; _currently_working := _currently_working j;
     _is_cancelled := _is_cancelled j; job_class := job_class j |}.

Definition with_thread_slot_type (v : option SlotType) (j : Job) : Job :=
  {| _should_delay_on_wakeup := _should_delay_on_wakeup j; _next_work_time := _next_work_time j;
     _thread_slot_type := v; _currently_working := _currently_working j;
     _is_cancelled := _is_cancelled j; job_class := job_class j |}.

Definition with_currently_working (v : bool) (j : Job) : Job :=
  {| _should_delay_on_wakeup := _should_delay_on_wakeup j; _next_work_time := _next_work_time j;
     _thread_slot_type := _thread_slot_type j; _currently_working := v;
     _is_cancelled := _is_cancelled j; job_class := job_class j |}.

Definition with_is_cancelled (v : bool) (j : Job) : Job :=
  {| _should_delay_on_wakeup := _should_delay_on_wakeup j; _next_work_time := _next_work_time j;
     _thread_slot_type := _thread_slot_type j; _currently_working := _currently_working j;
     _is_cancelled := v; job_class := job_class j |}.

Definition with_job_class (v : JobClass) (j : Job) : Job :=
  {| _should_delay_on_wakeup := _should_delay_on_wakeup j; _next_work_time := _next_work_time j;
     _thread_slot_type := _thread_slot_type j; _currently_working := _currently_working j;
     _is_cancelled := _is_cancelled j; job_class := v |}.

(** [SchedulableJob.__init__], [now] being what [HydrusData.GetNowFloat()]
    answers. *)
Definition SchedulableJob__init__ (now initial_delay : Q) : Job :=
  {| _should_delay_on_wakeup := false; _next_work_time := (now + initial_delay)%Q;
     _thread_slot_type := None; _currently_working := false;
     _is_cancelled := false; job_class := SchedulableJobClass |}.

(** [SingleJob.__init__]: a fresh [threading.Event] is unset. *)
Definition SingleJob__init__ (now initial_delay : Q) : Job :=
  with_job_class (SingleJobClass false) (SchedulableJob__init__ now initial_delay).

(** [RepeatingJob.__init__]. *)
Definition RepeatingJob__init__ (now initial_delay period : Q) : Job :=
  with_job_class (RepeatingJobClass period false) (SchedulableJob__init__ now initial_delay).

(** [SingleJob.IsWorkComplete]; the attribute exists on a SingleJob only. *)
Definition IsWorkComplete (j : Job) : bool :=
  match job_class j with
  | SingleJobClass work_complete => work_complete
  | _ => false
  end.

(** [RepeatingJob.IsRepeatingWorkFinished]. *)
Definition IsRepeatingWorkFinished (j : Job) : bool :=
  match job_class j with
  | RepeatingJobClass _ stop_repeating => stop_repeating
  | _ => false
  end.

(** The object store. *)
Definition Store : Type := JobRef -> Job.

Definition store_set (h : Store) (r : JobRef) (j : Job) : Store :=
  fun r' => if Nat.eqb r' r then j else h r'.

(** The scheduler ([_waiting] and its three events), what the controller
    has been handed ([pool]: the jobs whose [Work] went to [CallToThread],
    oldest first; [released]: the [ReleaseThreadSlot] calls), the work
    callables invoked so far, and the number of readings taken from the
    environment. *)
Record World : Type := {
  jobs : Store;
  _waiting : list JobRef;
  _new_job_arrived : bool;
  _cancel_filter_needed : bool;
  _sort_needed : bool;
  pool : list JobRef;
  released : list SlotType;
  invoked : list JobRef;
  tick : nat
}.

Definition set_jobs (v : Store) (w : World) : World :=
  {| jobs := v; _waiting := _waiting w; _new_job_arrived := _new_job_arrived w;
     _cancel_filter_needed := _cancel_filter_needed w; _sort_needed := _sort_needed w;
     pool := pool w; released := released w; invoked := invoked w; tick := tick w |}.

Definition set_waiting (v : list JobRef) (w : World) : World :=
  {| jobs := jobs w; _waiting := v; _new_job_arrived := _new_job_arrived w;
     _cancel_filter_needed := _cancel_filter_needed w; _sort_needed := _sort_needed w;
     pool := pool w; released := released w; invoked := invoked w; tick := tick w |}.

Definition set_new_job_arrived (v : bool) (w : World) : World :=
  {| jobs := jobs w; _waiting := _waiting w; _new_job_arrived := v;
     _cancel_filter_needed := _cancel_filter_needed w; _sort_needed := _sort_needed w;
     pool := pool w; released := released w; invoked := invoked w; tick := tick w |}.

Definition set_cancel_filter_needed (v : bool) (w : World) : World :=
  {| jobs := jobs w; _waiting := _waiting w; _new_job_arrived := _new_job_arrived w;
     _cancel_filter_needed := v; _sort_needed := _sort_needed w;
     pool := pool w; released := released w; invoked := invoked w; tick := tick w |}.

Definition set_sort_needed (v : bool) (w : World) : World :=
  {| jobs := jobs w; _waiting := _waiting w; _new_job_arrived := _new_job_arrived w;
     _cancel_filter_needed := _cancel_filter_needed w; _sort_needed := v;
     pool := pool w; released := released w; invoked := invoked w; tick := tick w |}.

Definition set_pool (v : list JobRef) (w : World) : World :=
  {| jobs := jobs w; _waiting := _waiting w; _new_job_arrived := _new_job_arrived w;
     _cancel_filter_needed := _cancel_filter_needed w; _sort_needed := _sort_needed w;
     pool := v; released := released w; invoked := invoked w; tick := tick w |}.

Definition set_released (v : list SlotType) (w : World) : World :=
  {| jobs := jobs w; _waiting := _waiting w; _new_job_arrived := _new_job_arrived w;
     _cancel_filter_needed := _cancel_filter_needed w; _sort_needed := _sort_needed w;
     pool := pool w; released := v; invoked := invoked w; tick := tick w |}.

Definition set_invoked (v : list JobRef) (w : World) : World :=
  {| jobs := jobs w; _waiting := _waiting w; _new_job_arrived := _new_job_arrived w;
     _cancel_filter_needed := _cancel_filter_needed w; _sort_needed := _sort_needed w;
     pool := pool w; released := released w; invoked := v; tick := tick w |}.

(** One more reading taken from the environment. *)
Definition tick_up (w : World) : World :=
  {| jobs := jobs w; _waiting := _waiting w; _new_job_arrived := _new_job_arrived w;
     _cancel_filter_needed := _cancel_filter_needed w; _sort_needed := _sort_needed w;
     pool := pool w; released := released w; invoked := invoked w; tick := S (tick w) |}.

Definition set_tick (v : nat) (w : World) : World :=
  {| jobs := jobs w; _waiting := _waiting w; _new_job_arrived := _new_job_arrived w;
     _cancel_filter_needed := _cancel_filter_needed w; _sort_needed := _sort_needed w;
     pool := pool w; released := released w; invoked := invoked w; tick := v |}.

(** Update one job object in place. *)
Definition update_job (r : JobRef) (f : Job -> Job) (w : World) : World :=
  set_jobs (store_set (jobs w) r (f (jobs w r))) w.

(** [JobScheduler.__init__]: nothing waiting, no event set. *)
Definition JobScheduler__init__ (h : Store) : World :=
  {| jobs := h; _waiting := []; _new_job_arrived := false;
     _cancel_filter_needed := false; _sort_needed := false;
     pool := []; released := []; invoked := []; tick := 0 |}.

(** What the outside answers at each reading: the clock
    ([HydrusData.GetNowFloat]), [random.random], the controller
    ([AcquireThreadSlot], [JustWokeFromSleep]), the registry's
    [IsThreadShuttingDown] for the thread that asks, and what a job's work
    callable does when called. *)
Record Env : Type := {
  GetNowFloat : nat -> Q;
  random : nat -> Q;
  AcquireThreadSlot : nat -> SlotType -> bool;
  JustWokeFromSleep : nat -> bool;
  IsThreadShuttingDown : nat -> bool;
  work_callable : nat -> JobRef -> outcome
}.

Definition Qlt_bool (x y : Q) : bool := negb (Qle_bool y x).

(** [SchedulableJob.__lt__]. *)
Definition __lt__ (h : Store) (self other : JobRef) : bool :=
  Qlt_bool (_next_work_time (h self)) (_next_work_time (h other)).

(** *** The list primitives the scheduler uses *)

(** [bisect.bisect_right( a, x )]: the binary search of the standard
    library, comparing with [x < a[mid]] only. The interval shrinks at every
    turn, so [length a] turns are enough. *)
Fixpoint bisect_right_loop {A : Type} (lt : A -> A -> bool) (a : list A) (x : A)
    (fuel lo hi : nat) : nat :=
  match fuel with
  | O => lo
  | S fuel' =>
      if lo <? hi then
        let mid := (lo + hi) / 2 in
        match a !! mid with
        | Some y =>
            if lt x y then bisect_right_loop lt a x fuel' lo mid
            else bisect_right_loop lt a x fuel' (mid + 1) hi
        | None => lo
        end
      else lo
  end.

Definition bisect_right {A : Type} (lt : A -> A -> bool) (a : list A) (x : A) : nat :=
  bisect_right_loop lt a x (length a) 0 (length a).

(** [a.insert( i, x )]. *)
Definition list_insert_at {A : Type} (i : nat) (x : A) (a : list A) : list A :=
  take i a ++ x :: drop i a.

(** [bisect.insort( a, x )]. *)
Definition insort {A : Type} (lt : A -> A -> bool) (a : list A) (x : A) : list A :=
  list_insert_at (bisect_right lt a x) x a.

(** [list.sort()], a built-in: a stable sort that compares with [<] only,
    modelled as the stable insertion sort. *)
Fixpoint sort_insert {A : Type} (lt : A -> A -> bool) (x : A) (l : list A) : list A :=
  match l with
  | [] => [x]
  | y :: l' => if lt y x then y :: sort_insert lt x l' else x :: l
  end.

Fixpoint list_sort {A : Type} (lt : A -> A -> bool) (l : list A) : list A :=
  match l with
  | [] => []
  | x :: l' => sort_insert lt x (list_sort lt l')
  end.

(** *** Methods *)

Section Methods.

Variable E : Env.

Local Open Scope py_scope.

(** [JobScheduler.JobCancelled] *)
Definition JobCancelled (w : World) : World := set_cancel_filter_needed true w.

(** [JobScheduler.WorkTimesHaveChanged] *)
Definition WorkTimesHaveChanged (w : World) : World := set_sort_needed true w.

(** [JobScheduler.AddJob] *)
Definition AddJob (job : JobRef) (w : World) : World :=
  set_new_job_arrived true
    (set_waiting (insort (__lt__ (jobs w)) (_waiting w) job) w).

(** [SchedulableJob.Cancel] *)
Definition SchedulableJob_Cancel (self : JobRef) (w : World) : World :=
  JobCancelled (update_job self (with_is_cancelled true) w).

Definition set_stop_repeating (j : Job) : Job :=
  match job_class j with
  | RepeatingJobClass period _ => with_job_class (RepeatingJobClass period true) j
  | _ => j
  end.

(** [RepeatingJob.Cancel] *)
Definition RepeatingJob_Cancel (self : JobRef) (w : World) : World :=
  update_job self set_stop_repeating (SchedulableJob_Cancel self w).

(** [job.Cancel()], by the class of the object. *)
Definition Cancel (self : JobRef) (w : World) : World :=
  match job_class (jobs w self) with
  | RepeatingJobClass _ _ => RepeatingJob_Cancel self w
  | _ => SchedulableJob_Cancel self w
  end.

(** [SchedulableJob.IsCancelled] *)
Definition IsCancelled (self : JobRef) (w : World) : bool :=
  _is_cancelled (jobs w self).

(** [SchedulableJob.CurrentlyWorking] *)
Definition CurrentlyWorking (self : JobRef) (w : World) : bool :=
  _currently_working (jobs w self).

(** [SchedulableJob.IsDead] *)
Definition IsDead (self : JobRef) (w : World) : bool := false.

(** [SchedulableJob.IsDue]: one reading of the clock. *)
Definition IsDue (self : JobRef) (w : World) : bool * World :=
  (HydrusData.TimeHasPassedFloat (GetNowFloat E (tick w)) (_next_work_time (jobs w self)), tick_up w).

(** [SchedulableJob.SetThreadSlotType] *)
Definition SetThreadSlotType (self : JobRef) (thread_type : SlotType) (w : World) : World :=
  update_job self (with_thread_slot_type (Some thread_type)) w.

(** [SchedulableJob.ShouldDelayOnWakeup] *)
Definition ShouldDelayOnWakeup (self : JobRef) (value : bool) (w : World) : World :=
  update_job self (with_should_delay_on_wakeup value) w.

(** [SchedulableJob.SlotOK]: asks the controller, then on refusal reads the
    clock and [random.random()], in that order. *)
Definition SlotOK (self : JobRef) (w : World) : bool * World :=
  match _thread_slot_type (jobs w self) with
  | Some thread_slot_type =>
      let acquired := AcquireThreadSlot E (tick w) thread_slot_type in
      let w1 := tick_up w in
      if acquired then (true, w1)
      else
        let now := GetNowFloat E (tick w1) in
        let w2 := tick_up w1 in
        let jitter := random E (tick w2) in
        let w3 := tick_up w2 in
        (false, update_job self (with_next_work_time (now + 10 + jitter)%Q) w3)
  | None => (true, w)
  end.

(** [SchedulableJob._BootWorker]: [self._controller.CallToThread( self.Work )]. *)
Definition _BootWorker (self : JobRef) (w : World) : World :=
  set_pool (pool w ++ [self]) w.

(** [SchedulableJob.StartWork] *)
Definition SchedulableJob_StartWork (self : JobRef) (w : World) : World :=
  if _is_cancelled (jobs w self) then w
  else _BootWorker self (update_job self (with_currently_working true) w).

(** [RepeatingJob.StartWork] *)
Definition RepeatingJob_StartWork (self : JobRef) (w : World) : World :=
  if IsRepeatingWorkFinished (jobs w self) then w
  else SchedulableJob_StartWork self w.

(** [job.StartWork()], by the class of the object. *)
Definition StartWork (self : JobRef) (w : World) : World :=
  match job_class (jobs w self) with
  | RepeatingJobClass _ _ => RepeatingJob_StartWork self w
  | _ => SchedulableJob_StartWork self w
  end.

(** [SchedulableJob.Wake( next_work_time = None )] *)
Definition Wake (self : JobRef) (next_work_time : option Q) (w : World) : World :=
  match next_work_time with
  | None =>
      let now := GetNowFloat E (tick w) in
      WorkTimesHaveChanged (update_job self (with_next_work_time now) (tick_up w))
  | Some t => WorkTimesHaveChanged (update_job self (with_next_work_time t) w)
  end.

(** [RepeatingJob.Delay]; the other classes have no such method. *)
Definition Delay (self : JobRef) (delay : Q) (w : World) : World :=
  match job_class (jobs w self) with
  | RepeatingJobClass _ _ =>
      let now := GetNowFloat E (tick w) in
      WorkTimesHaveChanged
        (update_job self (with_next_work_time (now + delay)%Q) (tick_up w))
  | _ => w
  end.

(** [RepeatingJob.SetPeriod] *)
Definition SetPeriod (self : JobRef) (period : Q) (w : World) : World :=
  match job_class (jobs w self) with
  | RepeatingJobClass _ stop_repeating =>
      if Qlt_bool 10 period then
        let jitter := random E (tick w) in
        update_job self (with_job_class (RepeatingJobClass (period + jitter)%Q stop_repeating))
                   (tick_up w)
      else update_job self (with_job_class (RepeatingJobClass period stop_repeating)) w
  | _ => w
  end.

(** [if self._thread_slot_type is not None:
    HG.controller.ReleaseThreadSlot( self._thread_slot_type )] *)
Definition release_slot (self : JobRef) (w : World) : World :=
  match _thread_slot_type (jobs w self) with
  | Some thread_slot_type => set_released (released w ++ [thread_slot_type]) w
  | None => w
  end.

(** The [finally] block of [SchedulableJob.Work]. *)
Definition SchedulableJob_Work_finally (self : JobRef) : M World unit :=
  fun w => (Ok tt, update_job self (with_currently_working false) (release_slot self w)).

(** How the wait after a wake from sleep ends. *)
Inductive poll : Type :=
| Proceed
| ShutdownSeen.

(** [while HG.controller.JustWokeFromSleep(): if IsThreadShuttingDown():
    return; time.sleep( 1 )] *)
Fixpoint wake_delay (fuel : nat) : M World poll :=
  fun w =>
    match fuel with
    | O => (OutOfFuel, w)
    | S fuel' =>
        if JustWokeFromSleep E (tick w) then
          let w1 := tick_up w in
          if IsThreadShuttingDown E (tick w1) then (Ok ShutdownSeen, tick_up w1)
          else wake_delay fuel' (tick_up w1)
        else (Ok Proceed, tick_up w)
    end.

(** [with self._work_lock: self._work_callable()] *)
Definition call_work_callable (self : JobRef) : M World unit :=
  fun w =>
    let w1 := set_invoked (invoked w ++ [self]) (tick_up w) in
    match work_callable E (tick w) self with
    | Returns => (Ok tt, w1)
    | Raises e => (Raise e, w1)
    end.

(** [SchedulableJob.Work]: a [try] / [finally] with no [except]. *)
Definition SchedulableJob_Work (fuel : nat) (self : JobRef) : M World unit :=
  try_finally
    (w <- get ;;
     p <- (if _should_delay_on_wakeup (jobs w self) then wake_delay fuel else ret Proceed) ;;
     match p with
     | ShutdownSeen => ret tt
     | Proceed => call_work_callable self
     end)
    (SchedulableJob_Work_finally self).

Definition set_work_complete (j : Job) : Job :=
  match job_class j with
  | SingleJobClass _ => with_job_class (SingleJobClass true) j
  | _ => j
  end.

(** [SingleJob.Work] *)
Definition SingleJob_Work (fuel : nat) (self : JobRef) : M World unit :=
  SchedulableJob_Work fuel self ;;;
  modify (update_job self set_work_complete).

(** [RepeatingJob.Work] *)
Definition RepeatingJob_Work (fuel : nat) (self : JobRef) : M World unit :=
  SchedulableJob_Work fuel self ;;;
  modify (fun w =>
    match job_class (jobs w self) with
    | RepeatingJobClass period false =>
        let now := GetNowFloat E (tick w) in
        AddJob self (update_job self (with_next_work_time (now + period)%Q) (tick_up w))
    | _ => w
    end).

(** [job.Work()], by the class of the object. *)
Definition Work (fuel : nat) (self : JobRef) : M World unit :=
  fun w =>
    match job_class (jobs w self) with
    | SchedulableJobClass => SchedulableJob_Work fuel self w
    | SingleJobClass _ => SingleJob_Work fuel self w
    | RepeatingJobClass _ _ => RepeatingJob_Work fuel self w
    end.

(** [JobScheduler._FilterCancelled] *)
Definition _FilterCancelled (w : World) : World :=
  set_waiting (List.filter (fun job => negb (IsCancelled job w)) (_waiting w)) w.

(** [JobScheduler.ClearOutDead] *)
Definition ClearOutDead (w : World) : World :=
  set_waiting (List.filter (fun job => negb (IsDead job w)) (_waiting w)) w.

(** [JobScheduler._SortWaiting] *)
Definition _SortWaiting (w : World) : World :=
  set_waiting (list_sort (__lt__ (jobs w)) (_waiting w)) w.

(** [JobScheduler._NoWorkToStart] *)
Definition _NoWorkToStart (w : World) : bool * World :=
  match _waiting w with
  | [] => (true, w)
  | next_job :: _ =>
      let '(due, w1) := IsDue next_job w in
      (negb due, w1)
  end.

(** How one turn of a [while True] loop ends. *)
Inductive ctl : Type :=
| Break
| Continue.

(** One turn of the loop of [JobScheduler._StartWork], with the counter
    [jobs_started]. *)
Definition _StartWork_body (w : World) (jobs_started : nat) : ctl * World * nat :=
  match _waiting w with
  | [] => (Break, w, jobs_started)
  | next_job :: rest =>
      if 10 <=? jobs_started then (Break, w, jobs_started)
      else
        let '(due, w1) := IsDue next_job w in
        if due then
          let w2 := set_waiting rest w1 in
          if IsCancelled next_job w2 then (Continue, w2, jobs_started)
          else
            let '(slot_ok, w3) := SlotOK next_job w2 in
            if slot_ok then (Continue, StartWork next_job w3, jobs_started + 1)
            else
              (Continue,
               set_waiting (insort (__lt__ (jobs w3)) (_waiting w3) next_job) w3,
               jobs_started)
        else (Break, w1, jobs_started)
  end.

(** The loop of [_StartWork]: the world and the counter after at most
    [fuel] turns, and whether the loop has ended. *)
Fixpoint _StartWork_loop (fuel : nat) (w : World) (jobs_started : nat)
    : bool * World * nat :=
  match fuel with
  | O => (false, w, jobs_started)
  | S fuel' =>
      match _StartWork_body w jobs_started with
      | (Break, w', n) => (true, w', n)
      | (Continue, w', n) => _StartWork_loop fuel' w' n
      end
  end.

(** [JobScheduler._StartWork]: [jobs_started = 0], then the loop. *)
Definition _StartWork (fuel : nat) (w : World) : bool * World * nat :=
  _StartWork_loop fuel w 0.

(** The turns of the loop of [_StartWork], case by case: nothing pending,
    the cap reached, the first job not due, a cancelled job dropped, a job
    started, a refused job put back. *)
Inductive body_step (w : World) (n : nat) : ctl -> World -> nat -> Prop :=
| step_empty :
    _waiting w = [] -> body_step w n Break w n
| step_cap next_job rest :
    _waiting w = next_job :: rest -> 10 <= n -> body_step w n Break w n
| step_not_due next_job rest :
    _waiting w = next_job :: rest -> n < 10 ->
    (IsDue next_job w).1 = false ->
    body_step w n Break (tick_up w) n
| step_dropped next_job rest :
    _waiting w = next_job :: rest -> n < 10 ->
    (IsDue next_job w).1 = true ->
    _is_cancelled (jobs w next_job) = true ->
    body_step w n Continue (set_waiting rest (tick_up w)) n
| step_started next_job rest :
    _waiting w = next_job :: rest -> n < 10 ->
    (IsDue next_job w).1 = true ->
    _is_cancelled (jobs w next_job) = false ->
    (SlotOK next_job (set_waiting rest (tick_up w))).1 = true ->
    body_step w n Continue
      (StartWork next_job (SlotOK next_job (set_waiting rest (tick_up w))).2)
      (n + 1)
| step_reinserted next_job rest w3 :
    _waiting w = next_job :: rest -> n < 10 ->
    (IsDue next_job w).1 = true ->
    _is_cancelled (jobs w next_job) = false ->
    (SlotOK next_job (set_waiting rest (tick_up w))).1 = false ->
    w3 = (SlotOK next_job (set_waiting rest (tick_up w))).2 ->
    body_step w n Continue
      (set_waiting (insort (__lt__ (jobs w3)) (_waiting w3) next_job) w3) n.

(** The lazy maintenance of [JobScheduler.run], done while no work is due:
    [if self._cancel_filter_needed.is_set(): ...] *)
Definition run_cancel_filter (w : World) : World :=
  if _cancel_filter_needed w then set_cancel_filter_needed false (_FilterCancelled w)
  else w.

(** [if self._sort_needed.is_set(): self._SortWaiting(); self._sort_needed.clear()] *)
Definition run_sort (w : World) : World :=
  if _sort_needed w then set_sort_needed false (_SortWaiting w)
  else w.

(** *** Runs: operations on the scheduler and its jobs, one at a time *)

Inductive op : Type :=
| OpAddJob (job : JobRef)
| OpCancel (job : JobRef)
| OpWake (job : JobRef) (next_work_time : option Q)
| OpDelay (job : JobRef) (delay : Q)
| OpSetThreadSlotType (job : JobRef) (thread_type : SlotType)
| OpShouldDelayOnWakeup (job : JobRef) (value : bool)
| OpFilterCancelled
| OpSortWaiting
| OpStartWork (fuel : nat)
| OpWork (fuel : nat) (job : JobRef).

Definition run_op (o : op) (w : World) : World :=
  match o with
  | OpAddJob job => AddJob job w
  | OpCancel job => Cancel job w
  | OpWake job t => Wake job t w
  | OpDelay job d => Delay job d w
  | OpSetThreadSlotType job ty => SetThreadSlotType job ty w
  | OpShouldDelayOnWakeup job v => ShouldDelayOnWakeup job v w
  | OpFilterCancelled => run_cancel_filter w
  | OpSortWaiting => run_sort w
  | OpStartWork fuel => (_StartWork fuel w).1.2
  | OpWork fuel job => (Work fuel job w).2
  end.

Definition run_ops (ops : list op) (w : World) : World :=
  fold_left (fun w o => run_op o w) ops w.

(** The worlds a run goes through, the first one included. *)
Fixpoint worlds_of (ops : list op) (w : World) : list World :=
  match ops with
  | [] => [w]
  | o :: ops' => w :: worlds_of ops' (run_op o w)
  end.

(** *** The scheduler's thread *)

(** [SchedulableJob.GetTimeDeltaUntilDue]: one reading of the clock. *)
Definition GetTimeDeltaUntilDue (self : JobRef) (w : World) : Q * World :=
  (HydrusData.GetTimeDeltaUntilTimeFloat (GetNowFloat E (tick w))
     (_next_work_time (jobs w self)),
   tick_up w).

(** [JobScheduler._GetLoopWaitTime]; [min( 1.0, x )] is [x] when [x < 1.0]
    and [1.0] otherwise. *)
Definition _GetLoopWaitTime (w : World) : Q * World :=
  match _waiting w with
  | [] => ((2 # 10)%Q, w)
  | next_job :: _ =>
      let '(time_delta_until_due, w1) := GetTimeDeltaUntilDue next_job w in
      (if Qlt_bool time_delta_until_due 1 then time_delta_until_due else 1%Q, w1)
  end.

(** How the wait for work of [JobScheduler.run] ends: work is due and the
    [while] falls through, or the thread is found shutting down and [run]
    returns. *)
Inductive idle_end : Type :=
| WorkIsDue
| ShutdownFound.

(** [while self._NoWorkToStart(): ...] in [JobScheduler.run], lines 817-848,
    the thread alone at work: the wait on [_new_job_arrived] comes back
    after its time, and the event is cleared. *)
Fixpoint run_idle (fuel : nat) : M World idle_end :=
  fun w =>
    match fuel with
    | O => (OutOfFuel, w)
    | S fuel' =>
        let '(no_work, w1) := _NoWorkToStart w in
        if no_work then
          if IsThreadShuttingDown E (tick w1) then (Ok ShutdownFound, tick_up w1)
          else
            let w2 := run_cancel_filter (tick_up w1) in
            if _sort_needed w2 then run_idle fuel' (run_sort w2)
            else
              let '(wait_time, w3) := _GetLoopWaitTime w2 in
              run_idle fuel' (set_new_job_arrived false w3)
        else (Ok WorkIsDue, w1)
    end.

(** How one turn of the [while True] of [JobScheduler.run] ends. *)
Inductive run_end : Type :=
| ReturnFromRun
| NextTurn.

(** [self._StartWork()] as a statement: it has returned once its loop has
    ended. *)
Definition call_StartWork (fuel : nat) : M World unit :=
  fun w =>
    let '(ended, w1, _) := _StartWork fuel w in
    if ended then (Ok tt, w1) else (OutOfFuel, w1).

(** The [try] statement of [JobScheduler.run], lines 815-862. The handler
    of [Exception] prints and shows the exception, which leaves the
    scheduler as it is. *)
Definition run_try (fuel : nat) : M World run_end :=
  try_except
    (e <- run_idle fuel ;;
     match e with
     | ShutdownFound => ret ReturnFromRun
     | WorkIsDue => call_StartWork fuel ;;; ret NextTurn
     end)
    (fun e =>
       match e with
       | ShutdownException => Some (ret ReturnFromRun)
       | OtherException _ => Some (ret NextTurn)
       end).

(** [JobScheduler.run] *)
Fixpoint run (fuel : nat) : M World unit :=
  match fuel with
  | O => fun w => (OutOfFuel, w)
  | S fuel' =>
      t <- run_try fuel' ;;
      match t with
      | ReturnFromRun => ret tt
      | NextTurn => run fuel'
      end
  end.

End Methods.

(** *** Order of the pending collection *)

(** [l] is ascending by [_next_work_time]: no element is [<] its predecessor. *)
Fixpoint sorted_from (h : Store) (t : Q) (l : list JobRef) : bool :=
  match l with
  | [] => true
  | j :: l' => Qle_bool t (_next_work_time (h j)) && sorted_from h (_next_work_time (h j)) l'
  end.

Definition is_sorted (h : Store) (l : list JobRef) : bool :=
  match l with
  | [] => true
  | j :: l' => sorted_from h (_next_work_time (h j)) l'
  end.

Definition waiting_sorted (w : World) : bool := is_sorted (jobs w) (_waiting w).

(** [a] is due no later than [b]. *)
Definition due_le (h : Store) (a b : JobRef) : Prop :=
  (_next_work_time (h a) <= _next_work_time (h b))%Q.

(** The attributes of a job no step of the dispatch loop writes. *)
Definition same_static (j j' : Job) : Prop :=
  _is_cancelled j' = _is_cancelled j
  /\ _thread_slot_type j' = _thread_slot_type j
  /\ job_class j' = job_class j
  /\ _should_delay_on_wakeup j' = _should_delay_on_wakeup j.

(** The invariant of the pending collection. *)
Definition sorted_unless_pending (w : World) : Prop :=
  _sort_needed w = false -> waiting_sorted w = true.

(** [RepeatingJob.Cancel] is the one place that sets [_stop_repeating], and
    it sets [_is_cancelled] first: a job told to stop is a cancelled job. *)
Definition stopped_only_if_cancelled (h : Store) : Prop :=
  forall r, IsRepeatingWorkFinished (h r) = true -> _is_cancelled (h r) = true.

(** What [job.StartWork()] does not start: a cancelled job, a RepeatingJob
    told to stop. *)
Definition not_startable (j : Job) : bool :=
  _is_cancelled j || IsRepeatingWorkFinished j.

(** A job is fit to start between two readings: it is not cancelled, its
    due time had passed at a reading in between, and if it has a slot type
    the controller granted a slot of that type at a reading in between. *)
Definition fit_to_start (E : Env) (h : Store) (first last : nat) (j : JobRef) : Prop :=
  _is_cancelled (h j) = false
  /\ (exists t, first <= t < last
                /\ HydrusData.TimeHasPassedFloat (GetNowFloat E t) (_next_work_time (h j)) = true)
  /\ (forall ty, _thread_slot_type (h j) = Some ty ->
        exists t, first <= t < last /\ AcquireThreadSlot E t ty = true).

(** *** Measures *)

(** How many entries of [l] satisfy [f]. *)
Fixpoint count_if (f : JobRef -> bool) (l : list JobRef) : nat :=
  match l with
  | [] => 0
  | j :: l' => (if f j then 1 else 0) + count_if f l'
  end.

(** How many pending entries are due before [bound]. *)
Definition pending_before (bound : Q) (w : World) : nat :=
  count_if (fun j => Qlt_bool (_next_work_time (jobs w j)) bound) (_waiting w).

(** *** Sample environments and worlds *)

(** A clock that starts at 1 and ticks once per reading, a jitter of one
    half, a controller that refuses every slot. *)
Definition refusing_env : Env :=
  {| GetNowFloat := fun n => inject_Z (Z.of_nat (S n));
     random := fun _ => (1 # 2)%Q;
     AcquireThreadSlot := fun _ _ => false;
     JustWokeFromSleep := fun _ => false;
     IsThreadShuttingDown := fun _ => false;
     work_callable := fun _ _ => Returns |}.

(** The same with a clock that advances by a hundredth of a second per
    reading. *)
Definition steady_env : Env :=
  {| GetNowFloat := fun n => (Z.of_nat (S n) # 100)%Q;
     random := fun _ => (1 # 2)%Q;
     AcquireThreadSlot := fun _ _ => false;
     JustWokeFromSleep := fun _ => false;
     IsThreadShuttingDown := fun _ => false;
     work_callable := fun _ _ => Returns |}.

(** Job 0 is due at 0, job 1 at 5, every other job at 1; none has a slot
    type. *)
Definition three_jobs : Store :=
  fun r =>
    match r with
    | O => SchedulableJob__init__ 0 0
    | S O => SchedulableJob__init__ 0 5
    | _ => SchedulableJob__init__ 0 1
    end.

(** Every job is a fresh RepeatingJob of period 3, due at 0. *)
Definition repeating_jobs : Store := fun _ => RepeatingJob__init__ 0 0 3.

(** Job 1 is due at 5, every other job at 100; none has a slot type. *)
Definition late_jobs : Store :=
  fun r =>
    match r with
    | S O => SchedulableJob__init__ 0 5
    | _ => SchedulableJob__init__ 0 100
    end.

(** Job 0 has slot type 7; every other job has none. All are due at 0. *)
Definition sample_jobs : Store :=
  fun r =>
    match r with
    | O => with_thread_slot_type (Some 7) (SchedulableJob__init__ 0 0)
    | _ => SchedulableJob__init__ 0 0
    end.

(** Jobs 0 and 1 pending, in this order. *)
Definition two_pending : World :=
  set_waiting [0; 1] (JobScheduler__init__ sample_jobs).

(** Jobs 1 to 12 pending, in this order: none has a slot type, all are due
    at 0. *)
Definition twelve_pending : World :=
  set_waiting (seq 1 12) (JobScheduler__init__ sample_jobs).

(** Every pending job of [w] can be started at any reading from now on: it
    is neither cancelled nor told to stop, it has no slot type, and its due
    time has passed. *)
Definition all_ready (E : Env) (w : World) : Prop :=
  forall j, j ∈ _waiting w ->
    not_startable (jobs w j) = false
    /\ _thread_slot_type (jobs w j) = None
    /\ forall t, tick w <= t ->
         HydrusData.TimeHasPassedFloat (GetNowFloat E t) (_next_work_time (jobs w j)) = true.

(** The work callable of every job raises an exception that is not the
    shutdown signal; the machine is awake and nothing shuts down. *)
Definition raising_env : Env :=
  {| GetNowFloat := fun n => inject_Z (Z.of_nat (S n));
     random := fun _ => (1 # 2)%Q;
     AcquireThreadSlot := fun _ _ => true;
     JustWokeFromSleep := fun _ => false;
     IsThreadShuttingDown := fun _ => false;
     work_callable := fun _ _ => Raises (OtherException 0) |}.

(** The three jobs of [three_jobs] added in the order 0, 1, 2, at a time
    when all are due. *)
Definition three_pending : World :=
  run_ops raising_env [OpAddJob 0; OpAddJob 1; OpAddJob 2]
    (set_tick 6 (JobScheduler__init__ three_jobs)).

(** The machine has just woken from sleep and stays so; the thread is found
    shutting down from the fourth reading on. The work callable would
    return. *)
Definition waking_env : Env :=
  {| GetNowFloat := fun n => inject_Z (Z.of_nat (S n));
     random := fun _ => (1 # 2)%Q;
     AcquireThreadSlot := fun _ _ => true;
     JustWokeFromSleep := fun _ => true;
     IsThreadShuttingDown := fun n => 3 <=? n;
     work_callable := fun _ _ => Returns |}.

(** Every job is a fresh SingleJob due at 0, with slot type 7, set to wait
    after a wake from sleep. *)
Definition single_jobs : Store :=
  fun _ =>
    with_should_delay_on_wakeup true
      (with_thread_slot_type (Some 7) (SingleJob__init__ 0 0)).

(** Every job is a fresh SingleJob due at 0. *)
Definition plain_single_jobs : Store := fun _ => SingleJob__init__ 0 0.

(** A SingleJob has been added and dispatched: its [Work] is in the pool. *)
Definition single_dispatched : World :=
  run_ops raising_env [OpAddJob 0; OpStartWork 5] (JobScheduler__init__ plain_single_jobs).

End Scheduling.

(** ** The periodic worker (class DAEMONWorker, lines 188-330) *)

Module DAEMONWorker.

(** What the thread reads from outside, by reading number: the clock
    ([HydrusData.GetNow], whole seconds), whether [self._event.wait( 1.0 )]
    found the event set, the registry's [IsThreadShuttingDown], the answer
    of [_ControllerIsOKWithIt] (always true in the base class, the
    controller's in the two subclasses), and what the work callable does. *)
Record Env : Type := {
  GetNow : nat -> Z;
  event_wait : nat -> bool;
  IsThreadShuttingDown : nat -> bool;
  _ControllerIsOKWithIt : nat -> bool;
  callable : nat -> outcome
}.

(** The constructor's arguments and [HG.daemon_report_mode]. *)
Record Config : Type := {
  _period : Z;
  _init_wait : Z;
  _pre_call_wait : Z;
  daemon_report_mode : bool
}.

(** What the thread does that others can see. *)
Inductive event : Type :=
| Called (o : outcome)
| ShowText_doing_a_job
| ShowText_encountered_an_exception
| ShowException (e : exn)
| ShutdownChecked.

Record State : Type := {
  tick : nat;
  log : list event
}.

Definition tick_up (s : State) : State := {| tick := S (tick s); log := log s |}.

Definition emit (ev : event) : M State unit :=
  fun s => (Ok tt, {| tick := tick s; log := log s ++ [ev] |}).

Section Run.

Variable E : Env.
Variable cfg : Config.

Local Open Scope py_scope.

(** [CheckIfThreadShuttingDown] *)
Definition CheckIfThreadShuttingDown : M State unit :=
  fun s =>
    if IsThreadShuttingDown E (tick s)
    then (Raise ShutdownException,
          {| tick := S (tick s); log := log s ++ [ShutdownChecked] |})
    else (Ok tt, tick_up s).

(** The [while] loop of [_DoAWait]. *)
Fixpoint _DoAWait_loop (fuel : nat) (time_to_start : Z) (event_can_wake : bool)
    : M State unit :=
  fun s =>
    match fuel with
    | O => (OutOfFuel, s)
    | S fuel' =>
        if HydrusData.TimeHasPassed (GetNow E (tick s)) time_to_start then (Ok tt, tick_up s)
        else
          let s1 := tick_up s in
          if event_can_wake then
            if event_wait E (tick s1) then (Ok tt, tick_up s1)
            else
              (CheckIfThreadShuttingDown ;;;
               _DoAWait_loop fuel' time_to_start event_can_wake) (tick_up s1)
          else
            (CheckIfThreadShuttingDown ;;;
             _DoAWait_loop fuel' time_to_start event_can_wake) s1
    end.

(** [_DoAWait( wait_time, event_can_wake = True )] *)
Definition _DoAWait (fuel : nat) (wait_time : Z) (event_can_wake : bool) : M State unit :=
  fun s =>
    let time_to_start := (GetNow E (tick s) + wait_time)%Z in
    _DoAWait_loop fuel time_to_start event_can_wake (tick_up s).

(** [_CanStart] *)
Definition _CanStart : M State bool :=
  fun s => (Ok (_ControllerIsOKWithIt E (tick s)), tick_up s).

(** [_WaitUntilCanStart] *)
Fixpoint _WaitUntilCanStart (fuel : nat) : M State unit :=
  match fuel with
  | O => fun s => (OutOfFuel, s)
  | S fuel' =>
      can_start <- _CanStart ;;
      if can_start then ret tt
      else CheckIfThreadShuttingDown ;;; _WaitUntilCanStart fuel'
  end.

(** [DAEMON._DoPreCall] *)
Definition _DoPreCall : M State unit :=
  if daemon_report_mode cfg then emit ShowText_doing_a_job else ret tt.

(** [self._callable( self._controller )] *)
Definition call_callable : M State unit :=
  fun s =>
    let o := callable E (tick s) in
    let s1 := {| tick := S (tick s); log := log s ++ [Called o] |} in
    match o with
    | Returns => (Ok tt, s1)
    | Raises e => (Raise e, s1)
    end.

(** How one turn of the [while True] of [run] ends: by [return], or by
    reaching the bottom of the loop. *)
Inductive turn : Type :=
| Return
| Next.

(** The inner [try] statement of [run]: the call and its two handlers. *)
Definition call_and_handle : M State turn :=
  try_except (call_callable ;;; ret Next)
    (fun e =>
       match e with
       | ShutdownException => Some (ret Return)
       | OtherException _ =>
           Some (emit ShowText_encountered_an_exception ;;;
                 emit (ShowException e) ;;;
                 ret Next)
       end).

(** The statements of the loop before the call. *)
Definition before_call (fuel : nat) : M State unit :=
  CheckIfThreadShuttingDown ;;;
  _DoAWait fuel (_pre_call_wait cfg) false ;;;
  CheckIfThreadShuttingDown ;;;
  _WaitUntilCanStart fuel ;;;
  CheckIfThreadShuttingDown ;;;
  _DoPreCall.

(** The [while True] loop of [run]. *)
Fixpoint run_loop (fuel : nat) : M State unit :=
  match fuel with
  | O => fun s => (OutOfFuel, s)
  | S fuel' =>
      before_call fuel' ;;;
      t <- call_and_handle ;;
      match t with
      | Return => ret tt
      | Next => _DoAWait fuel' (_period cfg) true ;;; run_loop fuel'
      end
  end.

(** [DAEMONWorker.run]: the outer [try] with its one handler. *)
Definition run (fuel : nat) : M State unit :=
  try_except (_DoAWait fuel (_init_wait cfg) true ;;; run_loop fuel)
    (fun e =>
       match e with
       | ShutdownException => Some (ret tt)
       | OtherException _ => None
       end).

End Run.

(** A shutdown signal was the last thing that happened: a checkpoint found
    the thread shutting down, or the work callable raised the signal. *)
Definition ended_by_shutdown (s : State) : Prop :=
  exists l, log s = l ++ [ShutdownChecked]
         \/ log s = l ++ [Called (Raises ShutdownException)].

(** A computation that raises nothing but the shutdown signal, and then
    with the signal as the last thing logged. *)
Definition raises_shutdown_only {A : Type} (c : M State A) : Prop :=
  forall s,
    match (c s).1 with
    | Raise e => e = ShutdownException /\ ended_by_shutdown (c s).2
    | _ => True
    end.

(** The same, and if it returns, a shutdown signal is what ended it. *)
Definition returns_on_shutdown_only (c : M State unit) : Prop :=
  forall s,
    match (c s).1 with
    | Raise e => e = ShutdownException /\ ended_by_shutdown (c s).2
    | Ok _ => ended_by_shutdown (c s).2
    | OutOfFuel => True
    end.

(** How many times the work callable has been called. *)
Definition calls (s : State) : nat :=
  length (List.filter (fun ev => match ev with Called _ => true | _ => false end) (log s)).

(** *** A sample environment *)

(** The work callable raises at every call; the clock ticks once per
    reading; nobody sets the event; the controller agrees; the thread is
    found shutting down from the thirtieth reading on. *)
Definition failing_env : Env :=
  {| GetNow := fun n => Z.of_nat n;
     event_wait := fun _ => false;
     IsThreadShuttingDown := fun n => 30 <=? n;
     _ControllerIsOKWithIt := fun _ => true;
     callable := fun _ => Raises (OtherException 1) |}.

Definition short_period : Config :=
  {| _period := 2; _init_wait := 0; _pre_call_wait := 0; daemon_report_mode := false |}.

End DAEMONWorker.

(** ** The queue worker (class THREADCallToThread, lines 348-447) *)

Module THREADCallToThread.

(** A queued unit [( callable, args, kwargs )], named by a tag. *)
Definition Item : Type := nat.

(** What [queue.Queue.get] does. *)
Inductive get_result : Type :=
| Got (item : Item) (rest : list Item)
| RaisesEmpty
| WaitsForItem.

(** Python's truth value of a float. *)
Definition truthy (x : Q) : bool := negb (Qeq_bool x 0).

(** [queue.Queue.get( block = True, timeout = None )] of the standard
    library, on a queue nobody else touches during the call: an item if
    there is one; otherwise [queue.Empty] at once when [block] is false,
    [queue.Empty] after [timeout] seconds when a timeout is given, and a
    wait for an item, however long, when none is. *)
Definition Queue_get (block : bool) (timeout : option Q) (q : list Item) : get_result :=
  match q with
  | item :: rest => Got item rest
  | [] =>
      if block then
        match timeout with
        | None => WaitsForItem
        | Some _ => RaisesEmpty
        end
      else RaisesEmpty
  end.

(** The call of the source, [self._queue.get( 1.0 )]: the one positional
    argument is [block]. *)
Definition source_get (q : list Item) : get_result := Queue_get (truthy 1) None q.

(** The call with the one-second timeout: [self._queue.get( timeout = 1.0 )]. *)
Definition timeout_get (q : list Item) : get_result := Queue_get true (Some 1%Q) q.

(** Where the thread is. *)
Inductive status : Type :=
| Alive
| Waiting_in_get
| Exited
| Died (e : exn).

Inductive event : Type :=
| ShowText_doing_a_job
| Called (item : Item) (o : outcome)
| Printed_traceback
| ShowException (e : exn).

(** The attributes of the object, the thread's status, and what it has done. *)
Record State : Type := {
  _callable : option Item;
  _queue : list Item;
  _currently_working : bool;
  _event : bool;
  thread : status;
  log : list event;
  tick : nat
}.

(** What the thread reads from outside: the registry's
    [IsThreadShuttingDown], what a queued callable does when called, and
    [HG.daemon_report_mode]. *)
Record Env : Type := {
  IsThreadShuttingDown : nat -> bool;
  call : nat -> Item -> outcome;
  daemon_report_mode : bool
}.

(** [THREADCallToThread.__init__] *)
Definition THREADCallToThread__init__ : State :=
  {| _callable := None; _queue := []; _currently_working := true; _event := false;
     thread := Alive; log := []; tick := 0 |}.

(** [THREADCallToThread.CurrentlyWorking] *)
Definition CurrentlyWorking (s : State) : bool := _currently_working s.

(** [THREADCallToThread.put] *)
Definition put (item : Item) (s : State) : State :=
  {| _callable := _callable s; _queue := _queue s ++ [item]; _currently_working := true;
     _event := true; thread := thread s; log := log s; tick := tick s |}.

Definition set_currently_working (v : bool) (s : State) : State :=
  {| _callable := _callable s; _queue := _queue s; _currently_working := v;
     _event := _event s; thread := thread s; log := log s; tick := tick s |}.

Definition set_callable (v : option Item) (s : State) : State :=
  {| _callable := v; _queue := _queue s; _currently_working := _currently_working s;
     _event := _event s; thread := thread s; log := log s; tick := tick s |}.

Definition set_queue (v : list Item) (s : State) : State :=
  {| _callable := _callable s; _queue := v; _currently_working := _currently_working s;
     _event := _event s; thread := thread s; log := log s; tick := tick s |}.

Definition set_event (v : bool) (s : State) : State :=
  {| _callable := _callable s; _queue := _queue s; _currently_working := _currently_working s;
     _event := v; thread := thread s; log := log s; tick := tick s |}.

Definition set_thread (v : status) (s : State) : State :=
  {| _callable := _callable s; _queue := _queue s; _currently_working := _currently_working s;
     _event := _event s; thread := v; log := log s; tick := tick s |}.

Definition emit (ev : event) : M State unit :=
  fun s => (Ok tt,
            {| _callable := _callable s; _queue := _queue s;
               _currently_working := _currently_working s; _event := _event s;
               thread := thread s; log := log s ++ [ev]; tick := tick s |}).

Definition tick_up (s : State) : State :=
  {| _callable := _callable s; _queue := _queue s; _currently_working := _currently_working s;
     _event := _event s; thread := thread s; log := log s; tick := S (tick s) |}.

Section Run.

Variable E : Env.

Local Open Scope py_scope.

(** [CheckIfThreadShuttingDown] *)
Definition CheckIfThreadShuttingDown : M State unit :=
  fun s =>
    if IsThreadShuttingDown E (tick s) then (Raise ShutdownException, tick_up s)
    else (Ok tt, tick_up s).

(** [DAEMON._DoPreCall] *)
Definition _DoPreCall : M State unit :=
  if daemon_report_mode E then emit ShowText_doing_a_job else ret tt.

(** [callable( *args, **kwargs )] *)
Definition call_item (item : Item) : M State unit :=
  fun s =>
    let o := call E (tick s) item in
    match emit (Called item o) (tick_up s) with
    | (_, s1) =>
        match o with
        | Returns => (Ok tt, s1)
        | Raises e => (Raise e, s1)
        end
    end.

(** How the [try] statement of the loop is left. *)
Inductive leave : Type :=
| FallThrough
| ContinueLoop
| ReturnFromRun
| StuckInGet.

(** The [try] / [except] / [finally] statement of [run], lines 402-440,
    with the dequeue [get] left open. The inner [try] is the dequeue;
    [except queue.Empty: continue] leaves the statement through the
    [finally] block. *)
Definition dequeue_and_call_with (get : list Item -> get_result) : M State leave :=
  fun s =>
    match get (_queue s) with
    | WaitsForItem => (Ok StuckInGet, s)
    | RaisesEmpty =>
        (Ok ContinueLoop, set_currently_working false s)
    | Got item rest =>
        try_finally
          (try_except
             (_DoPreCall ;;;
              modify (set_callable (Some item)) ;;;
              call_item item ;;;
              modify (set_callable None) ;;;
              ret FallThrough)
             (fun e =>
                match e with
                | ShutdownException => Some (ret ReturnFromRun)
                | OtherException _ =>
                    Some (emit Printed_traceback ;;; emit (ShowException e) ;;;
                          ret FallThrough)
                end))
          (modify (set_currently_working false))
          (set_queue rest s)
    end.

(** The statement as the source has it, with [self._queue.get( 1.0 )]. *)
Definition dequeue_and_call : M State leave := dequeue_and_call_with source_get.

(** Where the thread stands once the [try] statement is left; the outer
    [try] of [run] turns a shutdown signal into [return], and any other
    exception would end the thread. *)
Definition after_try (r : res leave * State) : State :=
  match r with
  | (Ok FallThrough, s1) => s1
  | (Ok ContinueLoop, s1) => s1
  | (Ok ReturnFromRun, s1) => set_thread Exited s1
  | (Ok StuckInGet, s1) => set_thread Waiting_in_get s1
  | (Raise ShutdownException, s1) => set_thread Exited s1
  | (Raise e, s1) => set_thread (Died e) s1
  | (OutOfFuel, s1) => s1
  end.

(** One turn of the thread: one turn of the wait [while
    self._queue.empty()] while the queue is empty, else the rest of one turn
    of the outer loop. A thread that sits in [get] goes on once the queue
    holds an item; a thread that has ended does nothing. *)
Definition run_turn (s : State) : State :=
  match thread s with
  | Exited => s
  | Died _ => s
  | Waiting_in_get =>
      match _queue s with
      | [] => s
      | _ :: _ => after_try (dequeue_and_call (set_thread Alive s))
      end
  | Alive =>
      match _queue s with
      | [] =>
          match CheckIfThreadShuttingDown s with
          | (Ok _, s1) => set_event false s1
          | (Raise ShutdownException, s1) => set_thread Exited s1
          | (Raise e, s1) => set_thread (Died e) s1
          | (OutOfFuel, s1) => s1
          end
      | _ :: _ => after_try ((CheckIfThreadShuttingDown ;;; dequeue_and_call) s)
      end
  end.

(** What happens to the worker: its own thread takes a turn, or a producer
    submits an item. *)
Inductive op : Type :=
| OpTurn
| OpPut (item : Item).

Definition run_op (o : op) (s : State) : State :=
  match o with
  | OpTurn => run_turn s
  | OpPut item => put item s
  end.

Definition run_ops (ops : list op) (s : State) : State :=
  fold_left (fun s o => run_op o s) ops s.

End Run.

(** The items whose callable the thread has called. *)
Definition called (s : State) : list Item :=
  map (fun ev => match ev with Called item _ => item | _ => 0 end)
      (List.filter (fun ev => match ev with Called _ _ => true | _ => false end) (log s)).

(** The items a run of operations submits, in the order of the [put]s. *)
Definition submitted (ops : list op) : list Item :=
  flat_map (fun o => match o with OpPut item => [item] | OpTurn => [] end) ops.

(** A shutdown signal reached the thread: a reading of [IsThreadShuttingDown]
    it has taken answered true, or a callable it called raised the signal. *)
Definition shutdown_signalled (E : Env) (s : State) : Prop :=
  (exists n, n < tick s /\ IsThreadShuttingDown E n = true)
  \/ (exists item, In (Called item (Raises ShutdownException)) (log s)).

(** The thread is alive, or it has returned from [run] after a shutdown
    signal; and every call it has logged is a call the environment
    answered. *)
Definition alive_or_shut_down (E : Env) (s : State) : Prop :=
  (thread s = Alive \/ (thread s = Exited /\ shutdown_signalled E s))
  /\ (forall item o, In (Called item o) (log s) -> exists n, o = call E n item).

(** *** A sample environment *)

(** Every callable raises an exception that is not the shutdown signal;
    nothing shuts down. *)
Definition raising_calls : Env :=
  {| IsThreadShuttingDown := fun _ => false;
     call := fun _ _ => Raises (OtherException 2);
     daemon_report_mode := false |}.

(** Every callable returns; the thread is found shutting down from its
    second reading on. *)
Definition stopping_calls : Env :=
  {| IsThreadShuttingDown := fun n => 1 <=? n;
     call := fun _ _ => Returns;
     daemon_report_mode := false |}.

End THREADCallToThread.

(** ** Waiting for a subprocess ([SubprocessCommunicate], lines 106-138) *)

Module SubprocessCommunicate.

(** What [process.communicate( timeout = 10 )] does: it returns the
    process's output (named by a tag), raises [subprocess.TimeoutExpired]
    after its ten seconds, or raises something else. *)
Inductive communicate_result : Type :=
| Output (stdout_stderr : nat)
| TimeoutExpired
| CommunicateRaises (e : exn).

(** What the function reads from outside, by reading number:
    [HG.model_shutdown], what [process.kill()] does and what
    [process.communicate] does. *)
Record Env : Type := {
  model_shutdown : nat -> bool;
  kill : nat -> outcome;
  communicate : nat -> communicate_result
}.

(** What is done to the process. *)
Inductive event : Type :=
| KillCalled
| CommunicateCalled.

Record State : Type := {
  tick : nat;
  log : list event
}.

Definition tick_up (s : State) : State := {| tick := S (tick s); log := log s |}.

Section Run.

Variable E : Env.

Local Open Scope py_scope.

(** [process.kill()] *)
Definition call_kill : M State unit :=
  fun s =>
    let s1 := {| tick := S (tick s); log := log s ++ [KillCalled] |} in
    match kill E (tick s) with
    | Returns => (Ok tt, s1)
    | Raises e => (Raise e, s1)
    end.

(** The inner function [do_test]; the bare [except: pass] swallows
    whatever [process.kill()] raises. *)
Definition do_test : M State unit :=
  fun s =>
    if model_shutdown E (tick s) then
      (try_except call_kill (fun _ => Some (ret tt)) ;;;
       raise ShutdownException) (tick_up s)
    else (Ok tt, tick_up s).

(** The [while True] loop: [return process.communicate( timeout = 10 )],
    and [do_test()] in the handler of [subprocess.TimeoutExpired]. An
    exception that [do_test] raises in the handler, or any other that
    [communicate] raises, leaves the loop. *)
Fixpoint communicate_loop (fuel : nat) : M State nat :=
  match fuel with
  | O => fun s => (OutOfFuel, s)
  | S fuel' =>
      fun s =>
        let s1 := {| tick := S (tick s); log := log s ++ [CommunicateCalled] |} in
        match communicate E (tick s) with
        | Output stdout_stderr => (Ok stdout_stderr, s1)
        | TimeoutExpired => (do_test ;;; communicate_loop fuel') s1
        | CommunicateRaises e => (Raise e, s1)
        end
  end.

(** [SubprocessCommunicate( process )] *)
Definition SubprocessCommunicate (fuel : nat) : M State nat :=
  do_test ;;; communicate_loop fuel.

End Run.

(** How many times the process was killed. *)
Definition kills (s : State) : nat :=
  length (List.filter (fun ev => match ev with KillCalled => true | _ => false end) (log s)).

(** *** A sample environment *)

(** The process times out twice and then answers 7; the application is
    found shutting down from the sixth reading on; [kill] fails. *)
Definition slow_process : Env :=
  {| model_shutdown := fun n => 6 <=? n;
     kill := fun _ => Raises (OtherException 3);
     communicate := fun n => if n <? 5 then TimeoutExpired else Output 7 |}.

End SubprocessCommunicate.

(** * Properties *)

(** ** Sequencing *)

Lemma bind_Ok {S A B : Type} (c : M S A) (k : A -> M S B) (s s' : S) (a : A) :
  c s = (Ok a, s') -> bind c k s = k a s'.
Proof. intros H. unfold bind. rewrite H. reflexivity. Qed.

Lemma bind_Raise {S A B : Type} (c : M S A) (k : A -> M S B) (s s' : S) (e : exn) :
  c s = (Raise e, s') -> bind c k s = (Raise e, s').
Proof. intros H. unfold bind. rewrite H. reflexivity. Qed.

Lemma bind_OutOfFuel {S A B : Type} (c : M S A) (k : A -> M S B) (s s' : S) :
  c s = (OutOfFuel, s') -> bind c k s = (OutOfFuel, s').
Proof. intros H. unfold bind. rewrite H. reflexivity. Qed.

(** ** The thread registry *)

Module RegistryProofs.

Import Registry.

Lemma ClearOutDeadThreads_keeps_alive is_alive t g :
  is_alive t = true ->
  THREADS_TO_THREAD_INFO (ClearOutDeadThreads is_alive g) !! t
  = THREADS_TO_THREAD_INFO g !! t.
Proof.
  intros Ha. unfold ClearOutDeadThreads. simpl.
  destruct (THREADS_TO_THREAD_INFO g !! t) as [i|] eqn:Hl.
  - apply map_lookup_filter_Some. split; [exact Hl|]. simpl. rewrite Ha. exact I.
  - apply map_lookup_filter_None. left. exact Hl.
Qed.

Lemma ClearOutDeadThreads_drops_dead is_alive t g :
  is_alive t = false ->
  THREADS_TO_THREAD_INFO (ClearOutDeadThreads is_alive g) !! t = None.
Proof.
  intros Ha. unfold ClearOutDeadThreads. simpl.
  apply map_lookup_filter_None. right. intros i _. simpl. rewrite Ha. intros [].
Qed.

Lemma GetThreadInfo_keeps_flagged now is_alive thread t g :
  is_alive t = true -> flagged t g -> flagged t (GetThreadInfo now is_alive thread g).2.
Proof.
  unfold flagged, GetThreadInfo. intros Ha Hf.
  set (g1 := if HydrusData.TimeHasPassed now (NEXT_THREAD_CLEAROUT g) then _ else g).
  assert (Hg1 : THREADS_TO_THREAD_INFO g1 !! t = Some info_true).
  { subst g1. destruct (HydrusData.TimeHasPassed now (NEXT_THREAD_CLEAROUT g)).
    - exact (eq_trans (ClearOutDeadThreads_keeps_alive is_alive t g Ha) Hf).
    - exact Hf. }
  destruct (THREADS_TO_THREAD_INFO g1 !! thread) as [i|] eqn:Hl; simpl.
  - exact Hg1.
  - destruct (decide (thread = t)) as [->|Hne].
    + congruence.
    + rewrite lookup_insert_ne; assumption.
Qed.

Lemma GetThreadInfo_returns_flagged now is_alive t g :
  is_alive t = true -> flagged t g -> (GetThreadInfo now is_alive t g).1 = info_true.
Proof.
  unfold flagged, GetThreadInfo. intros Ha Hf.
  set (g1 := if HydrusData.TimeHasPassed now (NEXT_THREAD_CLEAROUT g) then _ else g).
  assert (Hg1 : THREADS_TO_THREAD_INFO g1 !! t = Some info_true).
  { subst g1. destruct (HydrusData.TimeHasPassed now (NEXT_THREAD_CLEAROUT g)).
    - exact (eq_trans (ClearOutDeadThreads_keeps_alive is_alive t g Ha) Hf).
    - exact Hf. }
  rewrite Hg1. reflexivity.
Qed.

Lemma ShutdownThread_flags now is_alive t g : flagged t (ShutdownThread now is_alive t g).
Proof.
  unfold flagged, ShutdownThread.
  destruct (GetThreadInfo now is_alive t g) as [i g1]. simpl.
  apply lookup_insert_eq.
Qed.

Lemma ShutdownThread_keeps_flagged now is_alive thread t g :
  is_alive t = true -> flagged t g -> flagged t (ShutdownThread now is_alive thread g).
Proof.
  intros Ha Hf. destruct (decide (thread = t)) as [->|Hne].
  - apply ShutdownThread_flags.
  - pose proof (GetThreadInfo_keeps_flagged now is_alive thread t g Ha Hf) as H.
    unfold flagged, ShutdownThread in *.
    destruct (GetThreadInfo now is_alive thread g) as [i g1]. simpl in *.
    rewrite lookup_insert_ne; assumption.
Qed.

Lemma run_op_keeps_flagged o t g :
  alive_during t o -> flagged t g -> flagged t (run_op o g).
Proof.
  destruct o as [now is_alive thread | is_alive | now is_alive thread]; simpl; intros Ha Hf.
  - apply GetThreadInfo_keeps_flagged; assumption.
  - unfold flagged. rewrite ClearOutDeadThreads_keeps_alive; assumption.
  - apply ShutdownThread_keeps_flagged; assumption.
Qed.

Lemma run_ops_keeps_flagged ops t g :
  Forall (alive_during t) ops -> flagged t g -> flagged t (run_ops ops g).
Proof.
  intros Hall. revert g. induction Hall as [|o ops Ho _ IH]; intros g Hf.
  - exact Hf.
  - simpl. apply IH. apply run_op_keeps_flagged; assumption.
Qed.

(** C8, as amended. Once [ShutdownThread] has set a thread's flag, every
    later lookup of that thread's info observes [shutting_down = True], over
    any sequence of lookups, sweeps and further [ShutdownThread] calls,
    provided the thread is alive whenever a sweep may run. *)
Theorem shutting_down_flag_persists_while_alive
    (t : Thread) (now0 : Z) (alive0 : Thread -> bool) (g : Globals)
    (ops : list op) (now : Z) (is_alive : Thread -> bool) :
  Forall (alive_during t) ops ->
  is_alive t = true ->
  observed_shutting_down now is_alive t
    (run_ops ops (ShutdownThread now0 alive0 t g)) = true.
Proof.
  intros Hall Ha. unfold observed_shutting_down.
  rewrite GetThreadInfo_returns_flagged; [reflexivity | exact Ha |].
  apply run_ops_keeps_flagged; [exact Hall|]. apply ShutdownThread_flags.
Qed.

(** The theorem at work: thread 1 is shut down, thread 2 is looked up at a
    time when a sweep is due, a sweep finds only thread 1 alive, thread 2 is
    shut down; thread 1 is still seen shutting down. *)
Lemma shutting_down_flag_persists_witness :
  Forall (alive_during 1)
    [OpGetThreadInfo 700 (fun _ => true) 2;
     OpClearOutDeadThreads (fun t => Nat.eqb t 1);
     OpShutdownThread 701 (fun _ => true) 2]
  /\ (fun _ : Thread => true) 1 = true
  /\ observed_shutting_down 2000 (fun _ => true) 1
       (run_ops
          [OpGetThreadInfo 700 (fun _ => true) 2;
           OpClearOutDeadThreads (fun t => Nat.eqb t 1);
           OpShutdownThread 701 (fun _ => true) 2]
          (ShutdownThread 0 (fun _ => false) 1 initial)) = true.
Proof.
  split; [|split].
  - repeat constructor.
  - reflexivity.
  - apply (shutting_down_flag_persists_while_alive 1 0 (fun _ => false) initial
             [OpGetThreadInfo 700 (fun _ => true) 2;
              OpClearOutDeadThreads (fun t => Nat.eqb t 1);
              OpShutdownThread 701 (fun _ => true) 2]
             2000 (fun _ => true)).
    + repeat constructor.
    + reflexivity.
Defined.

(** C8 as stated fails: [ShutdownThread] on a thread that is not alive (it
    has ended, or was never started) sets the flag; the next sweep deletes
    the entry, and the lookup after it creates a fresh one, whose flag is
    [False]. *)
Lemma shutting_down_flag_lost_after_sweep_of_dead_thread :
  THREADS_TO_THREAD_INFO (ShutdownThread 0 (fun _ => false) 1 initial) !! 1
    = Some {| shutting_down := true |}
  /\ observed_shutting_down 1 (fun _ => false) 1
       (run_ops [OpClearOutDeadThreads (fun _ => false)]
          (ShutdownThread 0 (fun _ => false) 1 initial)) = false.
Proof. split_and!; vm_compute; reflexivity. Qed.

(** The same through lookups alone: the sweep that a lookup triggers once
    600 seconds have passed is enough. *)
Lemma shutting_down_flag_lost_by_lookup_alone :
  observed_shutting_down 700 (fun _ => false) 1
    (ShutdownThread 0 (fun _ => false) 1 initial) = false.
Proof. vm_compute. reflexivity. Qed.

(** *** What a lookup observes *)

(** The registry before the lookup's own insertion: swept if a sweep was
    due, else as it was. *)
Lemma GetThreadInfo_lookup now is_alive thread t g :
  THREADS_TO_THREAD_INFO (GetThreadInfo now is_alive thread g).2 !! t
  = if decide (t = thread) then Some (GetThreadInfo now is_alive thread g).1
    else if HydrusData.TimeHasPassed now (NEXT_THREAD_CLEAROUT g)
         then THREADS_TO_THREAD_INFO (ClearOutDeadThreads is_alive g) !! t
         else THREADS_TO_THREAD_INFO g !! t.
Proof.
  unfold GetThreadInfo.
  set (g1 := if HydrusData.TimeHasPassed now (NEXT_THREAD_CLEAROUT g) then _ else g).
  assert (Hg1 : THREADS_TO_THREAD_INFO g1
                = if HydrusData.TimeHasPassed now (NEXT_THREAD_CLEAROUT g)
                  then THREADS_TO_THREAD_INFO (ClearOutDeadThreads is_alive g)
                  else THREADS_TO_THREAD_INFO g).
  { subst g1. destruct (HydrusData.TimeHasPassed now (NEXT_THREAD_CLEAROUT g)); reflexivity. }
  destruct (THREADS_TO_THREAD_INFO g1 !! thread) as [i|] eqn:Hl; simpl.
  - destruct (decide (t = thread)) as [-> | Hne]; [exact Hl|].
    rewrite Hg1. destruct (HydrusData.TimeHasPassed now (NEXT_THREAD_CLEAROUT g)); reflexivity.
  - destruct (decide (t = thread)) as [-> | Hne].
    + apply lookup_insert_eq.
    + rewrite lookup_insert_ne by auto. rewrite Hg1.
      destruct (HydrusData.TimeHasPassed now (NEXT_THREAD_CLEAROUT g)); reflexivity.
Qed.

(** What the lookup returns: what the registry held for the thread, if it
    held something that the sweep, if one ran, left; else a fresh info. *)
Lemma GetThreadInfo_returns now is_alive t g :
  shutting_down (GetThreadInfo now is_alive t g).1
  = if HydrusData.TimeHasPassed now (NEXT_THREAD_CLEAROUT g)
    then stored_flag t (ClearOutDeadThreads is_alive g)
    else stored_flag t g.
Proof.
  unfold GetThreadInfo, stored_flag.
  destruct (HydrusData.TimeHasPassed now (NEXT_THREAD_CLEAROUT g)); cbn [THREADS_TO_THREAD_INFO];
    match goal with |- context [?m !! t] => destruct (m !! t) end; reflexivity.
Qed.

(** For a living thread the lookup observes what the registry holds. *)
Lemma observed_stored now is_alive t g :
  is_alive t = true -> observed_shutting_down now is_alive t g = stored_flag t g.
Proof.
  intros Ha. unfold observed_shutting_down. rewrite GetThreadInfo_returns.
  destruct (HydrusData.TimeHasPassed now (NEXT_THREAD_CLEAROUT g)); [|reflexivity].
  unfold stored_flag. rewrite ClearOutDeadThreads_keeps_alive by exact Ha. reflexivity.
Qed.

Lemma ClearOutDeadThreads_unflagged is_alive t g :
  unflagged t g -> unflagged t (ClearOutDeadThreads is_alive g).
Proof.
  intros Hu i Hl. unfold ClearOutDeadThreads in Hl. simpl in Hl.
  apply map_lookup_filter_Some in Hl. destruct Hl as (Hl & _). exact (Hu i Hl).
Qed.

Lemma GetThreadInfo_unflagged now is_alive thread t g :
  unflagged t g ->
  unflagged t (GetThreadInfo now is_alive thread g).2
  /\ (thread = t -> shutting_down (GetThreadInfo now is_alive thread g).1 = false).
Proof.
  intros Hu.
  assert (Hret : thread = t -> shutting_down (GetThreadInfo now is_alive thread g).1 = false).
  { intros ->. rewrite GetThreadInfo_returns. unfold stored_flag.
    destruct (HydrusData.TimeHasPassed now (NEXT_THREAD_CLEAROUT g)).
    - pose proof (ClearOutDeadThreads_unflagged is_alive t g Hu) as Hu'.
      destruct (THREADS_TO_THREAD_INFO (ClearOutDeadThreads is_alive g) !! t) eqn:Hl;
        [apply Hu'; exact Hl | reflexivity].
    - destruct (THREADS_TO_THREAD_INFO g !! t) eqn:Hl; [apply Hu; exact Hl | reflexivity]. }
  split; [|exact Hret].
  intros i Hl. rewrite GetThreadInfo_lookup in Hl.
  destruct (decide (t = thread)) as [-> | Hne].
  - inversion Hl; subst. apply Hret. reflexivity.
  - destruct (HydrusData.TimeHasPassed now (NEXT_THREAD_CLEAROUT g)).
    + exact (ClearOutDeadThreads_unflagged is_alive t g Hu i Hl).
    + exact (Hu i Hl).
Qed.

Lemma run_op_unflagged o t g :
  not_shutdown_of t o -> unflagged t g -> unflagged t (run_op o g).
Proof.
  destruct o as [now is_alive thread | is_alive | now is_alive thread]; simpl; intros Hn Hu.
  - apply GetThreadInfo_unflagged. exact Hu.
  - apply ClearOutDeadThreads_unflagged. exact Hu.
  - pose proof (proj1 (GetThreadInfo_unflagged now is_alive thread t g Hu)) as H.
    unfold ShutdownThread. destruct (GetThreadInfo now is_alive thread g) as [i g1].
    simpl in *. intros i' Hl. simpl in Hl.
    rewrite lookup_insert_ne in Hl by exact Hn. exact (H i' Hl).
Qed.

Lemma run_ops_unflagged ops t g :
  Forall (not_shutdown_of t) ops -> unflagged t g -> unflagged t (run_ops ops g).
Proof.
  intros Hall. revert g. induction Hall as [|o ops Ho _ IH]; intros g Hu.
  - exact Hu.
  - simpl. apply IH. apply run_op_unflagged; assumption.
Qed.

(** X10. The registry never reports a thread as shutting down that
    [ShutdownThread] was not called on. Over any run of lookups, sweeps and
    [ShutdownThread] calls on other threads, from import time: (1) a lookup
    of the thread's info observes [shutting_down = False]; (2) with no fast
    exit, [IsThreadShuttingDown] answers what the global flag of the
    thread's class says, [HG.view_shutdown] for a DAEMON and
    [HG.model_shutdown] for any other thread, and nothing else: a DAEMON
    does not react to [HG.model_shutdown], nor another thread to
    [HG.view_shutdown]. *)
Theorem thread_not_shut_down_is_not_seen_shutting_down
    (t : Thread) (ops : list op) (now : Z) (is_alive : Thread -> bool) :
  Forall (not_shutdown_of t) ops ->
  observed_shutting_down now is_alive t (run_ops ops initial) = false
  /\ (forall me_is_DAEMON view_shutdown model_shutdown,
        (IsThreadShuttingDown false me_is_DAEMON view_shutdown model_shutdown
           now is_alive t (run_ops ops initial)).1
        = if me_is_DAEMON then view_shutdown else model_shutdown).
Proof.
  intros Hall.
  assert (Hu : unflagged t (run_ops ops initial)).
  { apply run_ops_unflagged; [exact Hall|]. intros i Hl.
    unfold initial in Hl. simpl in Hl. rewrite lookup_empty in Hl. discriminate. }
  assert (Hobs : observed_shutting_down now is_alive t (run_ops ops initial) = false).
  { unfold observed_shutting_down.
    apply (GetThreadInfo_unflagged now is_alive t t _ Hu). reflexivity. }
  split; [exact Hobs|].
  intros d v m. unfold IsThreadShuttingDown, observed_shutting_down in *.
  destruct (GetThreadInfo now is_alive t (run_ops ops initial)) as [i g1]. simpl in Hobs.
  destruct d, v, m; simpl; auto.
Qed.

(** The theorem at work: thread 2 is shut down, a sweep runs, thread 1 is
    looked up; thread 1 is not seen shutting down. *)
Lemma thread_not_shut_down_witness :
  Forall (not_shutdown_of 1)
    [OpShutdownThread 0 (fun _ => true) 2;
     OpClearOutDeadThreads (fun _ => true);
     OpGetThreadInfo 700 (fun _ => true) 1]
  /\ observed_shutting_down 701 (fun _ => true) 1
       (run_ops
          [OpShutdownThread 0 (fun _ => true) 2;
           OpClearOutDeadThreads (fun _ => true);
           OpGetThreadInfo 700 (fun _ => true) 1] initial) = false.
Proof.
  assert (H : Forall (not_shutdown_of 1)
                [OpShutdownThread 0 (fun _ => true) 2;
                 OpClearOutDeadThreads (fun _ => true);
                 OpGetThreadInfo 700 (fun _ => true) 1]).
  { repeat constructor. simpl. lia. }
  split; [exact H|].
  exact (proj1 (thread_not_shut_down_is_not_seen_shutting_down 1 _ 701 (fun _ => true) H)).
Defined.

(** *** [ShutdownThread] and the other threads *)

Lemma ShutdownThread_stored_other now is_alive thread u g :
  u <> thread -> is_alive u = true ->
  stored_flag u (ShutdownThread now is_alive thread g) = stored_flag u g.
Proof.
  intros Hne Ha. unfold stored_flag, ShutdownThread.
  pose proof (GetThreadInfo_lookup now is_alive thread u g) as Hl.
  destruct (GetThreadInfo now is_alive thread g) as [i g1]. simpl in *.
  rewrite lookup_insert_ne by auto. rewrite Hl.
  destruct (decide (u = thread)); [contradiction|].
  destruct (HydrusData.TimeHasPassed now (NEXT_THREAD_CLEAROUT g)); [|reflexivity].
  pose proof (ClearOutDeadThreads_keeps_alive is_alive u g Ha) as Hk.
  unfold ClearOutDeadThreads in Hk. simpl in Hk. rewrite Hk. reflexivity.
Qed.

(** X11. [ShutdownThread( thread )] reaches its thread and no other. (1) A
    lookup by the thread, alive, right after the call observes
    [shutting_down = True], and [IsThreadShuttingDown] answers True for it
    whatever the global flags. (2) For any other thread that is alive
    during the call and when it looks, the lookup observes what it would
    have observed without the call. *)
Theorem ShutdownThread_reaches_its_thread_and_no_other
    (now : Z) (is_alive : Thread -> bool) (thread : Thread) (g : Globals)
    (now' : Z) (is_alive' : Thread -> bool) :
  (is_alive' thread = true ->
   observed_shutting_down now' is_alive' thread (ShutdownThread now is_alive thread g) = true
   /\ forall DoingFastExit me_is_DAEMON view_shutdown model_shutdown,
        (IsThreadShuttingDown DoingFastExit me_is_DAEMON view_shutdown model_shutdown
           now' is_alive' thread (ShutdownThread now is_alive thread g)).1 = true)
  /\ (forall u,
        u <> thread -> is_alive u = true -> is_alive' u = true ->
        observed_shutting_down now' is_alive' u (ShutdownThread now is_alive thread g)
        = observed_shutting_down now' is_alive' u g).
Proof.
  split.
  - intros Ha.
    assert (Hobs : observed_shutting_down now' is_alive' thread
                     (ShutdownThread now is_alive thread g) = true).
    { unfold observed_shutting_down.
      rewrite GetThreadInfo_returns_flagged; [reflexivity | exact Ha |].
      apply ShutdownThread_flags. }
    split; [exact Hobs|].
    intros f d v m. unfold IsThreadShuttingDown, observed_shutting_down in *.
    destruct (GetThreadInfo now' is_alive' thread (ShutdownThread now is_alive thread g))
      as [i g1]. simpl in Hobs.
    destruct f; [reflexivity|]. destruct (d && v); [reflexivity|].
    destruct (negb d && m); [reflexivity|]. exact Hobs.
  - intros u Hne Ha Ha'. rewrite !observed_stored by exact Ha'.
    apply ShutdownThread_stored_other; assumption.
Qed.

(** The theorem at work: thread 1 is shut down at a time when a sweep is
    due; thread 2, registered and alive, observes what it observed before. *)
Lemma ShutdownThread_witness :
  (fun _ : Thread => true) 1 = true
  /\ observed_shutting_down 701 (fun _ => true) 1
       (ShutdownThread 700 (fun _ => true) 1 (GetThreadInfo 0 (fun _ => true) 2 initial).2)
     = true
  /\ observed_shutting_down 701 (fun _ => true) 2
       (ShutdownThread 700 (fun _ => true) 1 (GetThreadInfo 0 (fun _ => true) 2 initial).2)
     = observed_shutting_down 701 (fun _ => true) 2
         (GetThreadInfo 0 (fun _ => true) 2 initial).2.
Proof.
  split; [reflexivity|].
  destruct (ShutdownThread_reaches_its_thread_and_no_other 700 (fun _ => true) 1
              (GetThreadInfo 0 (fun _ => true) 2 initial).2 701 (fun _ => true))
    as (H1 & H2).
  split.
  - exact (proj1 (H1 eq_refl)).
  - apply H2; [lia | reflexivity | reflexivity].
Defined.

(** *** When the registry is swept *)

Lemma GetThreadInfo_NEXT_THREAD_CLEAROUT now is_alive thread g :
  NEXT_THREAD_CLEAROUT (GetThreadInfo now is_alive thread g).2
  = if HydrusData.TimeHasPassed now (NEXT_THREAD_CLEAROUT g) then (now + 600)%Z
    else NEXT_THREAD_CLEAROUT g.
Proof.
  unfold GetThreadInfo.
  destruct (HydrusData.TimeHasPassed now (NEXT_THREAD_CLEAROUT g));
    cbn [THREADS_TO_THREAD_INFO NEXT_THREAD_CLEAROUT];
    match goal with |- context [?m !! thread] => destruct (m !! thread) end; reflexivity.
Qed.

(** A lookup made while no sweep is due keeps every entry. *)
Lemma GetThreadInfo_keeps_entries now is_alive thread g t i :
  HydrusData.TimeHasPassed now (NEXT_THREAD_CLEAROUT g) = false ->
  THREADS_TO_THREAD_INFO g !! t = Some i ->
  THREADS_TO_THREAD_INFO (GetThreadInfo now is_alive thread g).2 !! t = Some i.
Proof.
  intros Hp Hl. rewrite GetThreadInfo_lookup, Hp.
  destruct (decide (t = thread)) as [-> | Hne]; [|exact Hl].
  unfold GetThreadInfo. rewrite Hp, Hl. reflexivity.
Qed.

Lemma run_op_NEXT_THREAD_CLEAROUT o g :
  (NEXT_THREAD_CLEAROUT g <= NEXT_THREAD_CLEAROUT (run_op o g))%Z.
Proof.
  assert (H : forall now is_alive thread,
            (NEXT_THREAD_CLEAROUT g
             <= NEXT_THREAD_CLEAROUT (GetThreadInfo now is_alive thread g).2)%Z).
  { intros now is_alive thread. rewrite GetThreadInfo_NEXT_THREAD_CLEAROUT.
    unfold HydrusData.TimeHasPassed.
    destruct (Z.leb_spec (NEXT_THREAD_CLEAROUT g) now); lia. }
  destruct o as [now is_alive thread | is_alive | now is_alive thread]; simpl.
  - apply H.
  - lia.
  - specialize (H now is_alive thread). unfold ShutdownThread.
    destruct (GetThreadInfo now is_alive thread g) as [i g1]. exact H.
Qed.

(** X12. [GetThreadInfo] sweeps the registry only when a sweep is due, and
    then puts the next one 600 seconds ahead. (1) While
    [HydrusData.TimeHasPassed( NEXT_THREAD_CLEAROUT )] answers false, a
    lookup keeps every entry, of dead threads too, and leaves
    [NEXT_THREAD_CLEAROUT] alone. (2) When it answers true, the lookup
    removes the entry of every dead thread other than the one looked up,
    keeps the entries of the living, and sets [NEXT_THREAD_CLEAROUT] to the
    clock's reading plus 600. (3) So after a lookup that swept at [now],
    no lookup made before [now + 600] removes anything. (4) No operation
    moves [NEXT_THREAD_CLEAROUT] back. *)
Theorem GetThreadInfo_sweeps_only_when_due
    (now : Z) (is_alive : Thread -> bool) (thread : Thread) (g : Globals) :
  (HydrusData.TimeHasPassed now (NEXT_THREAD_CLEAROUT g) = false ->
   NEXT_THREAD_CLEAROUT (GetThreadInfo now is_alive thread g).2 = NEXT_THREAD_CLEAROUT g
   /\ forall t i,
        THREADS_TO_THREAD_INFO g !! t = Some i ->
        THREADS_TO_THREAD_INFO (GetThreadInfo now is_alive thread g).2 !! t = Some i)
  /\ (HydrusData.TimeHasPassed now (NEXT_THREAD_CLEAROUT g) = true ->
      NEXT_THREAD_CLEAROUT (GetThreadInfo now is_alive thread g).2 = (now + 600)%Z
      /\ (forall t, t <> thread -> is_alive t = false ->
            THREADS_TO_THREAD_INFO (GetThreadInfo now is_alive thread g).2 !! t = None)
      /\ (forall t, t <> thread -> is_alive t = true ->
            THREADS_TO_THREAD_INFO (GetThreadInfo now is_alive thread g).2 !! t
            = THREADS_TO_THREAD_INFO g !! t)
      /\ (forall now' is_alive' thread' t i,
            (now' < now + 600)%Z ->
            THREADS_TO_THREAD_INFO (GetThreadInfo now is_alive thread g).2 !! t = Some i ->
            THREADS_TO_THREAD_INFO
              (GetThreadInfo now' is_alive' thread'
                 (GetThreadInfo now is_alive thread g).2).2 !! t = Some i))
  /\ (forall ops, (NEXT_THREAD_CLEAROUT g <= NEXT_THREAD_CLEAROUT (run_ops ops g))%Z).
Proof.
  split_and!.
  - intros Hp. split.
    + rewrite GetThreadInfo_NEXT_THREAD_CLEAROUT, Hp. reflexivity.
    + intros t i. apply GetThreadInfo_keeps_entries. exact Hp.
  - intros Hp.
    assert (Hnext : NEXT_THREAD_CLEAROUT (GetThreadInfo now is_alive thread g).2
                    = (now + 600)%Z)
      by (rewrite GetThreadInfo_NEXT_THREAD_CLEAROUT, Hp; reflexivity).
    split_and!.
    + exact Hnext.
    + intros t Hne Ha. rewrite GetThreadInfo_lookup, Hp.
      destruct (decide (t = thread)); [contradiction|].
      apply ClearOutDeadThreads_drops_dead. exact Ha.
    + intros t Hne Ha. rewrite GetThreadInfo_lookup, Hp.
      destruct (decide (t = thread)); [contradiction|].
      apply ClearOutDeadThreads_keeps_alive. exact Ha.
    + intros now' is_alive' thread' t i Hlt. apply GetThreadInfo_keeps_entries.
      rewrite Hnext. unfold HydrusData.TimeHasPassed. apply Z.leb_gt. exact Hlt.
  - intros ops. revert g. induction ops as [|o ops IH]; intros g; simpl; [lia|].
    pose proof (run_op_NEXT_THREAD_CLEAROUT o g). specialize (IH (run_op o g)). lia.
Qed.

(** Thread 1 is registered at time 1, when the first sweep runs, and then
    ends. A lookup of thread 2 at time 600 keeps its entry; a lookup at
    time 602 removes it. *)
Example dead_thread_entry_is_kept_until_the_next_sweep :
  NEXT_THREAD_CLEAROUT (GetThreadInfo 1 (fun _ => true) 1 initial).2 = 601%Z
  /\ THREADS_TO_THREAD_INFO
       (GetThreadInfo 600 (fun _ => false) 2
          (GetThreadInfo 1 (fun _ => true) 1 initial).2).2 !! 1
     = Some {| shutting_down := false |}
  /\ THREADS_TO_THREAD_INFO
       (GetThreadInfo 602 (fun _ => false) 2
          (GetThreadInfo 1 (fun _ => true) 1 initial).2).2 !! 1
     = None.
Proof. split_and!; vm_compute; reflexivity. Qed.

End RegistryProofs.

(** ** Jobs and the job scheduler *)

Module SchedulingProofs.

Import Scheduling.

(** *** Comparisons *)

Lemma Qlt_bool_true x y : Qlt_bool x y = true <-> (x < y)%Q.
Proof.
  unfold Qlt_bool. rewrite negb_true_iff. split.
  - intros H. apply Qnot_le_lt. intros Hle. apply Qle_bool_iff in Hle. congruence.
  - intros H. destruct (Qle_bool y x) eqn:E; [|reflexivity].
    apply Qle_bool_iff in E. lra.
Qed.

Lemma Qlt_bool_false x y : Qlt_bool x y = false <-> (y <= x)%Q.
Proof.
  unfold Qlt_bool. rewrite negb_false_iff. apply Qle_bool_iff.
Qed.

Lemma lt_true h a b :
  __lt__ h a b = true <-> (_next_work_time (h a) < _next_work_time (h b))%Q.
Proof. apply Qlt_bool_true. Qed.

Lemma lt_false h a b : __lt__ h a b = false <-> due_le h b a.
Proof. apply Qlt_bool_false. Qed.

(** *** Sorted lists of job references *)

Lemma sorted_from_spec h t l :
  sorted_from h t l = true <->
  Forall (fun j => (t <= _next_work_time (h j))%Q) l /\ StronglySorted (due_le h) l.
Proof.
  revert t. induction l as [|j l IH]; intros t; simpl.
  - split; [intros _; split; constructor | reflexivity].
  - rewrite andb_true_iff, Qle_bool_iff, IH. split.
    + intros [Ht [Hall Hs]]. split.
      * constructor; [exact Ht|].
        eapply Forall_impl; [exact Hall|]. simpl. intros k Hk. lra.
      * constructor; assumption.
    + intros [Hall Hs]. inversion Hall; subst. inversion Hs; subst. auto.
Qed.

Lemma is_sorted_spec h l : is_sorted h l = true <-> StronglySorted (due_le h) l.
Proof.
  destruct l as [|j l]; simpl.
  - split; [constructor | reflexivity].
  - rewrite sorted_from_spec. split.
    + intros [Hall Hs]. constructor; assumption.
    + intros Hs. inversion Hs; subst. auto.
Qed.

(** Sortedness looks at the due times of the listed jobs only. *)
Lemma StronglySorted_due_le_ext h h' l :
  (forall j, j ∈ l -> _next_work_time (h' j) = _next_work_time (h j)) ->
  StronglySorted (due_le h) l -> StronglySorted (due_le h') l.
Proof.
  intros Hext Hs. induction Hs as [|j l Hs IH Hall].
  - constructor.
  - constructor.
    + apply IH. intros k Hk. apply Hext. right. exact Hk.
    + rewrite Forall_forall in *. intros k Hk. unfold due_le.
      rewrite (Hext j), (Hext k).
      * apply Hall. exact Hk.
      * right. exact Hk.
      * left.
Qed.

Lemma StronglySorted_lookup h l i k a b :
  StronglySorted (due_le h) l -> i <= k ->
  l !! i = Some a -> l !! k = Some b -> due_le h a b.
Proof.
  intros Hs. revert i k. induction Hs as [|j l Hs IH Hall]; intros i k Hik Ha Hb.
  - discriminate.
  - destruct i as [|i]; destruct k as [|k]; simpl in *.
    + inversion Ha; inversion Hb; subst. unfold due_le. lra.
    + inversion Ha; subst. rewrite Forall_forall in Hall. apply Hall.
      eapply list_elem_of_lookup_2. exact Hb.
    + lia.
    + apply (IH i k); [lia | assumption | assumption].
Qed.

(** *** [bisect.bisect_right] and [bisect.insort] *)

(** The binary search keeps: everything left of [lo] is not above [x],
    everything from [hi] on is above [x]. *)
Lemma bisect_right_loop_spec h a x fuel lo hi :
  StronglySorted (due_le h) a ->
  lo <= hi -> hi <= length a -> hi - lo <= fuel ->
  (forall k y, k < lo -> a !! k = Some y -> due_le h y x) ->
  (forall k y, hi <= k -> a !! k = Some y -> __lt__ h x y = true) ->
  let i := bisect_right_loop (__lt__ h) a x fuel lo hi in
  i <= length a
  /\ (forall k y, k < i -> a !! k = Some y -> due_le h y x)
  /\ (forall k y, i <= k -> a !! k = Some y -> __lt__ h x y = true).
Proof.
  intros Hs. revert lo hi.
  induction fuel as [|fuel IH]; intros lo hi Hle Hhi Hfuel Hlo Hup;
    cbn [bisect_right_loop]; cbv zeta.
  - assert (lo = hi) by lia. subst. repeat split; [lia | exact Hlo | exact Hup].
  - destruct (lo <? hi) eqn:Elt.
    + apply Nat.ltb_lt in Elt.
      assert (Hmid : lo <= (lo + hi) / 2 < hi).
      { split.
        - apply Nat.div_le_lower_bound; lia.
        - apply Nat.Div0.div_lt_upper_bound; lia. }
      destruct (a !! ((lo + hi) / 2)) as [y|] eqn:Ey.
      * destruct (__lt__ h x y) eqn:Exy.
        -- apply IH; [lia | lia | lia | exact Hlo |].
           intros k z Hk Hz. apply lt_true. apply lt_true in Exy.
           pose proof (StronglySorted_lookup h a _ _ _ _ Hs Hk Ey Hz) as Hyz.
           unfold due_le in Hyz. lra.
        -- apply IH; [lia | lia | lia | | exact Hup].
           intros k z Hk Hz. apply lt_false in Exy.
           assert (Hk' : k <= (lo + hi) / 2) by lia.
           pose proof (StronglySorted_lookup h a _ _ _ _ Hs Hk' Hz Ey) as Hzy.
           unfold due_le in *. lra.
      * apply lookup_ge_None_1 in Ey. lia.
    + apply Nat.ltb_ge in Elt. assert (lo = hi) by lia. subst.
      repeat split; [lia | exact Hlo | exact Hup].
Qed.

Lemma bisect_right_spec h a x :
  StronglySorted (due_le h) a ->
  let i := bisect_right (__lt__ h) a x in
  i <= length a
  /\ (forall k y, k < i -> a !! k = Some y -> due_le h y x)
  /\ (forall k y, i <= k -> a !! k = Some y -> __lt__ h x y = true).
Proof.
  intros Hs. unfold bisect_right. apply bisect_right_loop_spec.
  - exact Hs.
  - lia.
  - lia.
  - lia.
  - intros k y Hk. lia.
  - intros k y Hk Hy. apply lookup_lt_Some in Hy. lia.
Qed.

(** [insort] keeps a sorted list sorted. *)
Lemma insort_sorted h a x :
  StronglySorted (due_le h) a -> StronglySorted (due_le h) (insort (__lt__ h) a x).
Proof.
  intros Hs. destruct (bisect_right_spec h a x Hs) as (Hlen & Hleft & Hright).
  unfold insort, list_insert_at.
  set (i := bisect_right (__lt__ h) a x) in *.
  pose proof Hs as Hs'. rewrite <- (take_drop i a) in Hs'.
  apply StronglySorted_app in Hs'. destruct Hs' as (Hcross & Htake & Hdrop).
  assert (Hdropx : Forall (due_le h x) (drop i a)).
  { rewrite Forall_forall. intros y Hy.
    apply list_elem_of_lookup_1 in Hy. destruct Hy as [k Hk].
    rewrite lookup_drop in Hk. unfold due_le.
    assert (Hlt : __lt__ h x y = true) by (apply (Hright (i + k)); [lia | exact Hk]).
    apply lt_true in Hlt. lra. }
  apply StronglySorted_app. split; [|split].
  - intros y z Hy Hz. apply elem_of_take in Hy. destruct Hy as (k & Hk & Hki).
    apply elem_of_cons in Hz. destruct Hz as [-> | Hz].
    + apply (Hleft k); assumption.
    + apply Hcross; [|exact Hz]. apply elem_of_take. eauto.
  - exact Htake.
  - constructor; assumption.
Qed.

(** [insort] adds the element and moves nothing out. *)
Lemma insort_Permutation {A : Type} (lt : A -> A -> bool) (a : list A) (x : A) :
  insort lt a x ≡ₚ x :: a.
Proof.
  unfold insort, list_insert_at.
  rewrite <- Permutation_middle. rewrite take_drop. reflexivity.
Qed.

Lemma insort_length {A : Type} (lt : A -> A -> bool) (a : list A) (x : A) :
  length (insort lt a x) = S (length a).
Proof. rewrite insort_Permutation. reflexivity. Qed.

Lemma elem_of_insort {A : Type} (lt : A -> A -> bool) (a : list A) (x y : A) :
  y ∈ insort lt a x <-> y = x \/ y ∈ a.
Proof. rewrite insort_Permutation. apply elem_of_cons. Qed.

(** *** [list.sort] *)

Lemma sort_insert_Permutation {A : Type} (lt : A -> A -> bool) (x : A) (l : list A) :
  sort_insert lt x l ≡ₚ x :: l.
Proof.
  induction l as [|y l IH]; simpl.
  - reflexivity.
  - destruct (lt y x).
    + rewrite IH. apply Permutation_swap.
    + reflexivity.
Qed.

Lemma list_sort_Permutation {A : Type} (lt : A -> A -> bool) (l : list A) :
  list_sort lt l ≡ₚ l.
Proof.
  induction l as [|x l IH]; simpl.
  - reflexivity.
  - rewrite sort_insert_Permutation, IH. reflexivity.
Qed.

Lemma sort_insert_sorted h x l :
  StronglySorted (due_le h) l -> StronglySorted (due_le h) (sort_insert (__lt__ h) x l).
Proof.
  intros Hs. induction Hs as [|y l Hs IH Hall]; simpl.
  - repeat constructor.
  - destruct (__lt__ h y x) eqn:E.
    + constructor; [exact IH|].
      rewrite Forall_forall. intros z Hz.
      rewrite sort_insert_Permutation in Hz. apply elem_of_cons in Hz.
      destruct Hz as [-> | Hz].
      * apply lt_true in E. unfold due_le. lra.
      * rewrite Forall_forall in Hall. apply Hall. exact Hz.
    + apply lt_false in E. constructor.
      * constructor; assumption.
      * constructor; [exact E|].
        eapply Forall_impl; [exact Hall|]. unfold due_le in *. simpl. intros z Hz. lra.
Qed.

(** The sort pass leaves the list sorted, whatever it was. *)
Lemma list_sort_sorted h l : StronglySorted (due_le h) (list_sort (__lt__ h) l).
Proof.
  induction l as [|x l IH]; simpl.
  - constructor.
  - apply sort_insert_sorted. exact IH.
Qed.

(** Removing elements keeps a sorted list sorted. *)
Lemma filter_sorted h (f : JobRef -> bool) l :
  StronglySorted (due_le h) l -> StronglySorted (due_le h) (List.filter f l).
Proof.
  intros Hs. induction Hs as [|y l Hs IH Hall]; simpl.
  - constructor.
  - destruct (f y).
    + constructor; [exact IH|].
      rewrite Forall_forall in *. intros z Hz. apply Hall.
      apply list_elem_of_In in Hz. apply filter_In in Hz.
      apply list_elem_of_In. tauto.
    + exact IH.
Qed.

(** *** What the methods leave alone *)

Section Frames.

Variable E : Env.

Lemma jobs_update_job r f w r' :
  jobs (update_job r f w) r' = if Nat.eqb r' r then f (jobs w r) else jobs w r'.
Proof. reflexivity. Qed.

Lemma jobs_update_job_same r f w : jobs (update_job r f w) r = f (jobs w r).
Proof. rewrite jobs_update_job, Nat.eqb_refl. reflexivity. Qed.

Lemma jobs_update_job_other r f w r' : r' <> r -> jobs (update_job r f w) r' = jobs w r'.
Proof.
  intros Hne. rewrite jobs_update_job.
  destruct (Nat.eqb_spec r' r); [contradiction | reflexivity].
Qed.

(** The shape of [SlotOK]'s answer. *)
Lemma SlotOK_true self w :
  (SlotOK E self w).1 = true ->
  jobs (SlotOK E self w).2 = jobs w
  /\ _waiting (SlotOK E self w).2 = _waiting w
  /\ pool (SlotOK E self w).2 = pool w
  /\ _sort_needed (SlotOK E self w).2 = _sort_needed w.
Proof.
  unfold SlotOK. destruct (_thread_slot_type (jobs w self)) as [ty|]; simpl.
  - destruct (AcquireThreadSlot E (tick w) ty); simpl; [|discriminate].
    intros _. repeat split.
  - intros _. repeat split.
Qed.

Lemma SlotOK_false self w :
  (SlotOK E self w).1 = false ->
  exists ty,
    _thread_slot_type (jobs w self) = Some ty
    /\ AcquireThreadSlot E (tick w) ty = false
    /\ jobs (SlotOK E self w).2
       = store_set (jobs w) self
           (with_next_work_time
              (GetNowFloat E (S (tick w)) + 10 + random E (S (S (tick w))))%Q
              (jobs w self))
    /\ _waiting (SlotOK E self w).2 = _waiting w
    /\ pool (SlotOK E self w).2 = pool w
    /\ _sort_needed (SlotOK E self w).2 = _sort_needed w.
Proof.
  unfold SlotOK. destruct (_thread_slot_type (jobs w self)) as [ty|]; simpl.
  - destruct (AcquireThreadSlot E (tick w) ty) eqn:Ea; simpl; [discriminate|].
    intros _. exists ty. repeat split. exact Ea.
  - discriminate.
Qed.

(** [StartWork] either does nothing or marks the job working and hands it
    to the pool. *)
Lemma StartWork_cases self w :
  StartWork self w = w
  \/ (_is_cancelled (jobs w self) = false
      /\ StartWork self w
         = _BootWorker self (update_job self (with_currently_working true) w)).
Proof.
  unfold StartWork, RepeatingJob_StartWork, SchedulableJob_StartWork.
  destruct (job_class (jobs w self)) as [| wc | period stop] eqn:Ec;
    unfold IsRepeatingWorkFinished; rewrite ?Ec;
    try destruct stop; destruct (_is_cancelled (jobs w self)); auto.
Qed.

Lemma _StartWork_body_step w n :
  body_step E w n (_StartWork_body E w n).1.1 (_StartWork_body E w n).1.2
                (_StartWork_body E w n).2.
Proof.
  unfold _StartWork_body.
  destruct (_waiting w) as [|next_job rest] eqn:Ew.
  - simpl. apply step_empty. exact Ew.
  - destruct (10 <=? n) eqn:En.
    + simpl. apply Nat.leb_le in En. eapply step_cap; eauto.
    + apply Nat.leb_gt in En.
      destruct (IsDue E next_job w) as [due w1] eqn:Edue.
      assert (Hw1 : w1 = tick_up w) by (unfold IsDue in Edue; congruence).
      subst w1.
      destruct due.
      * unfold IsCancelled. cbn [jobs set_waiting tick_up].
        destruct (_is_cancelled (jobs w next_job)) eqn:Ec.
        -- simpl. eapply step_dropped; eauto. rewrite Edue. reflexivity.
        -- destruct (SlotOK E next_job (set_waiting rest (tick_up w))) as [ok w3] eqn:Es.
           destruct ok; cbn [fst snd].
           ++ replace w3 with (SlotOK E next_job (set_waiting rest (tick_up w))).2
                by (rewrite Es; reflexivity).
              eapply step_started; eauto; [rewrite Edue | rewrite Es]; reflexivity.
           ++ eapply step_reinserted; eauto; [rewrite Edue | rewrite Es | rewrite Es];
                reflexivity.
      * cbn [fst snd]. eapply step_not_due; eauto. rewrite Edue. reflexivity.
Qed.

Lemma same_static_refl j : same_static j j.
Proof. repeat split. Qed.

Lemma same_static_trans j1 j2 j3 :
  same_static j1 j2 -> same_static j2 j3 -> same_static j1 j3.
Proof. unfold same_static. intuition congruence. Qed.

Lemma StartWork_static self w r : same_static (jobs w r) (jobs (StartWork self w) r).
Proof.
  destruct (StartWork_cases self w) as [-> | [_ ->]].
  - apply same_static_refl.
  - simpl. unfold store_set. destruct (Nat.eqb r self) eqn:Er.
    + apply Nat.eqb_eq in Er. subst. repeat split.
    + apply same_static_refl.
Qed.

Lemma StartWork_due_times self w r :
  _next_work_time (jobs (StartWork self w) r) = _next_work_time (jobs w r).
Proof.
  destruct (StartWork_cases self w) as [-> | [_ ->]].
  - reflexivity.
  - simpl. unfold store_set. destruct (Nat.eqb r self) eqn:Er.
    + apply Nat.eqb_eq in Er. subst. reflexivity.
    + reflexivity.
Qed.

Lemma StartWork_waiting self w : _waiting (StartWork self w) = _waiting w.
Proof. destruct (StartWork_cases self w) as [-> | [_ ->]]; reflexivity. Qed.

Lemma StartWork_sort_needed self w : _sort_needed (StartWork self w) = _sort_needed w.
Proof. destruct (StartWork_cases self w) as [-> | [_ ->]]; reflexivity. Qed.

Lemma StartWork_pool self w :
  pool (StartWork self w) = pool w
  \/ (_is_cancelled (jobs w self) = false /\ pool (StartWork self w) = pool w ++ [self]).
Proof.
  destruct (StartWork_cases self w) as [-> | [Hc ->]]; [left | right]; auto.
Qed.

Lemma SlotOK_static self w r : same_static (jobs w r) (jobs (SlotOK E self w).2 r).
Proof.
  destruct (SlotOK E self w).1 eqn:Eok.
  - destruct (SlotOK_true self w Eok) as (-> & _). apply same_static_refl.
  - destruct (SlotOK_false self w Eok) as (ty & _ & _ & -> & _).
    unfold store_set. destruct (Nat.eqb r self) eqn:Er.
    + apply Nat.eqb_eq in Er. subst. repeat split.
    + apply same_static_refl.
Qed.

Lemma SlotOK_waiting self w : _waiting (SlotOK E self w).2 = _waiting w.
Proof.
  destruct (SlotOK E self w).1 eqn:Eok.
  - apply (SlotOK_true self w Eok).
  - destruct (SlotOK_false self w Eok) as (ty & _ & _ & _ & H & _). exact H.
Qed.

Lemma SlotOK_pool self w : pool (SlotOK E self w).2 = pool w.
Proof.
  destruct (SlotOK E self w).1 eqn:Eok.
  - apply (SlotOK_true self w Eok).
  - destruct (SlotOK_false self w Eok) as (ty & _ & _ & _ & _ & H & _). exact H.
Qed.

Lemma SlotOK_sort_needed self w : _sort_needed (SlotOK E self w).2 = _sort_needed w.
Proof.
  destruct (SlotOK E self w).1 eqn:Eok.
  - apply (SlotOK_true self w Eok).
  - destruct (SlotOK_false self w Eok) as (ty & _ & _ & _ & _ & _ & H). exact H.
Qed.

Lemma SlotOK_other self w r : r <> self -> jobs (SlotOK E self w).2 r = jobs w r.
Proof.
  intros Hne. destruct (SlotOK E self w).1 eqn:Eok.
  - destruct (SlotOK_true self w Eok) as (-> & _). reflexivity.
  - destruct (SlotOK_false self w Eok) as (ty & _ & _ & -> & _).
    unfold store_set. destruct (Nat.eqb_spec r self); [contradiction | reflexivity].
Qed.

Lemma body_step_static w n c w' n' r :
  body_step E w n c w' n' -> same_static (jobs w r) (jobs w' r).
Proof.
  intros H. destruct H; try apply same_static_refl.
  - eapply same_static_trans; [|apply StartWork_static].
    apply (SlotOK_static next_job (set_waiting rest (tick_up w)) r).
  - subst w3. apply (SlotOK_static next_job (set_waiting rest (tick_up w)) r).
Qed.

Lemma body_step_sort_needed w n c w' n' :
  body_step E w n c w' n' -> _sort_needed w' = _sort_needed w.
Proof.
  intros H. destruct H; try reflexivity.
  - rewrite StartWork_sort_needed, SlotOK_sort_needed. reflexivity.
  - subst w3. simpl. rewrite SlotOK_sort_needed. reflexivity.
Qed.

(** What a turn does to the pool and to the counter: nothing, or the
    counter goes up by one, below the cap, and at most one job, not
    cancelled, joins the pool. *)
Lemma body_step_pool w n c w' n' :
  body_step E w n c w' n' ->
  (pool w' = pool w /\ n' = n)
  \/ (n < 10 /\ n' = n + 1
      /\ (pool w' = pool w
          \/ exists j, _is_cancelled (jobs w j) = false /\ pool w' = pool w ++ [j])).
Proof.
  intros H. destruct H; auto.
  - right. split; [assumption|]. split; [reflexivity|].
    destruct (StartWork_pool next_job (SlotOK E next_job (set_waiting rest (tick_up w))).2)
      as [Hp | [Hc Hp]]; rewrite Hp, SlotOK_pool; simpl.
    + left. reflexivity.
    + right. exists next_job. split; [assumption | reflexivity].
  - left. subst w3. simpl. rewrite SlotOK_pool. auto.
Qed.

(** Induction over the turns of the dispatch loop. *)
Lemma _StartWork_loop_invariant (P : World -> nat -> Prop) :
  (forall w n c w' n', P w n -> body_step E w n c w' n' -> P w' n') ->
  forall fuel w n, P w n ->
    P (_StartWork_loop E fuel w n).1.2 (_StartWork_loop E fuel w n).2.
Proof.
  intros Hstep. induction fuel as [|fuel IH]; intros w n HP; simpl.
  - exact HP.
  - pose proof (_StartWork_body_step w n) as Hb.
    destruct (_StartWork_body E w n) as [[c w'] n']. simpl in Hb.
    destruct c; simpl.
    + eapply Hstep; eauto.
    + apply IH. eapply Hstep; eauto.
Qed.

(** *** What [Work] does to the world *)

Lemma wake_delay_tick fuel w :
  exists k, (wake_delay E fuel w).2 = set_tick k w.
Proof.
  revert w. induction fuel as [|fuel IH]; intros w; simpl.
  - exists (tick w). destruct w; reflexivity.
  - destruct (JustWokeFromSleep E (tick w)).
    + destruct (IsThreadShuttingDown E (S (tick w))); simpl.
      * exists (S (S (tick w))). reflexivity.
      * destruct (IH (tick_up (tick_up w))) as [k Hk]. exists k. rewrite Hk. reflexivity.
    + exists (S (tick w)). reflexivity.
Qed.

(** The world after [SchedulableJob.Work]: the fuel ran out in the wait
    after a wake from sleep and only readings were taken; or the [finally]
    block has run, after the callable was called once or not at all. *)
Lemma SchedulableJob_Work_shape fuel self w :
  (exists k,
     (SchedulableJob_Work E fuel self w).1 = OutOfFuel
     /\ (SchedulableJob_Work E fuel self w).2 = set_tick k w)
  \/ (exists k w1,
        (SchedulableJob_Work E fuel self w).1 <> OutOfFuel
        /\ (w1 = set_tick k w \/ w1 = set_invoked (invoked w ++ [self]) (set_tick k w))
        /\ (SchedulableJob_Work E fuel self w).2
           = update_job self (with_currently_working false) (release_slot self w1)).
Proof.
  unfold SchedulableJob_Work, try_finally, bind, get, SchedulableJob_Work_finally.
  destruct (_should_delay_on_wakeup (jobs w self)).
  - destruct (wake_delay_tick fuel w) as [k Hk].
    destruct (wake_delay E fuel w) as [[p | e | ] w1]; simpl in Hk; subst w1.
    + destruct p.
      * right. exists (S k), (set_invoked (invoked w ++ [self]) (set_tick (S k) w)).
        unfold call_work_callable. simpl.
        destruct (work_callable E k self); simpl;
          (split; [discriminate|]); (split; [auto|]); reflexivity.
      * right. exists k, (set_tick k w). simpl.
        split; [discriminate|]. split; [auto|]. reflexivity.
    + right. exists k, (set_tick k w). simpl.
      split; [discriminate|]. split; [auto|]. reflexivity.
    + left. exists k. auto.
  - right. exists (S (tick w)), (set_invoked (invoked w ++ [self]) (set_tick (S (tick w)) w)).
    unfold ret, call_work_callable. simpl.
    destruct (work_callable E (tick w) self); simpl;
      (split; [discriminate|]); (split; [auto|]); reflexivity.
Qed.

Lemma release_slot_frame self w :
  jobs (release_slot self w) = jobs w
  /\ _waiting (release_slot self w) = _waiting w
  /\ pool (release_slot self w) = pool w
  /\ _sort_needed (release_slot self w) = _sort_needed w
  /\ invoked (release_slot self w) = invoked w
  /\ tick (release_slot self w) = tick w.
Proof.
  unfold release_slot. destruct (_thread_slot_type (jobs w self)); repeat split.
Qed.

(** [SchedulableJob.Work] writes one attribute of one job, and leaves the
    scheduler and the pool alone. *)
Lemma SchedulableJob_Work_frame fuel self w :
  let w' := (SchedulableJob_Work E fuel self w).2 in
  _waiting w' = _waiting w
  /\ pool w' = pool w
  /\ _sort_needed w' = _sort_needed w
  /\ (forall r, r <> self -> jobs w' r = jobs w r)
  /\ (jobs w' self = jobs w self
      \/ jobs w' self = with_currently_working false (jobs w self)).
Proof.
  cbv zeta.
  destruct (SchedulableJob_Work_shape fuel self w)
    as [(k & _ & ->) | (k & w1 & _ & Hw1 & ->)].
  - repeat split; auto.
  - destruct (release_slot_frame self w1) as (Hj & Hw & Hp & Hs & _).
    assert (Hbase : jobs w1 = jobs w /\ _waiting w1 = _waiting w /\ pool w1 = pool w
                    /\ _sort_needed w1 = _sort_needed w).
    { destruct Hw1 as [-> | ->]; repeat split. }
    destruct Hbase as (Hj1 & Hw1' & Hp1 & Hs1).
    simpl. rewrite Hw, Hp, Hs, Hj, Hj1.
    repeat split; auto.
    + intros r Hne. unfold store_set.
      destruct (Nat.eqb_spec r self); [contradiction | reflexivity].
    + right. unfold store_set. rewrite Nat.eqb_refl. reflexivity.
Qed.

(** What [job.Work()] does to a job other than the one that works: nothing. *)
Lemma Work_other fuel self w r :
  r <> self -> jobs (Work E fuel self w).2 r = jobs w r.
Proof.
  intros Hne.
  destruct (SchedulableJob_Work_frame fuel self w) as (_ & _ & _ & Ho & _).
  unfold Work, SingleJob_Work, RepeatingJob_Work, bind, modify.
  destruct (job_class (jobs w self)) as [| wc | period stop].
  - apply Ho. exact Hne.
  - destruct (SchedulableJob_Work E fuel self w) as [[u | e |] w1]; simpl in *;
      try (apply Ho; exact Hne).
    unfold store_set. destruct (Nat.eqb_spec r self); [contradiction|].
    apply Ho. exact Hne.
  - destruct (SchedulableJob_Work E fuel self w) as [[u | e |] w1]; simpl in *;
      try (apply Ho; exact Hne).
    destruct (job_class (jobs w1 self)) as [| wc | period' [|]]; simpl;
      try (apply Ho; exact Hne).
    unfold store_set. destruct (Nat.eqb_spec r self); [contradiction|].
    apply Ho. exact Hne.
Qed.

(** What [job.Work()] does to the job that works: it clears
    [_currently_working], sets [_work_complete] on a SingleJob, moves the
    due time of a RepeatingJob; nothing else. *)
Lemma Work_self fuel self w :
  let j := jobs w self in
  let j' := jobs (Work E fuel self w).2 self in
  _is_cancelled j' = _is_cancelled j
  /\ _thread_slot_type j' = _thread_slot_type j
  /\ _should_delay_on_wakeup j' = _should_delay_on_wakeup j
  /\ (IsWorkComplete j = true -> IsWorkComplete j' = true)
  /\ IsRepeatingWorkFinished j' = IsRepeatingWorkFinished j
  /\ (match job_class j with
      | RepeatingJobClass _ _ => True
      | _ => _next_work_time j' = _next_work_time j
      end).
Proof.
  cbv zeta.
  destruct (SchedulableJob_Work_frame fuel self w) as (_ & _ & _ & _ & Hs).
  unfold Work, SingleJob_Work, RepeatingJob_Work, bind, modify.
  destruct (job_class (jobs w self)) as [| wc | period stop] eqn:Ec.
  - destruct Hs as [-> | ->]; unfold IsWorkComplete, IsRepeatingWorkFinished;
      simpl; rewrite ?Ec; repeat split; auto.
  - destruct (SchedulableJob_Work E fuel self w) as [[u | e |] w1]; simpl in *.
    + unfold store_set. rewrite Nat.eqb_refl.
      destruct Hs as [-> | ->]; unfold set_work_complete, IsWorkComplete,
        IsRepeatingWorkFinished; simpl; rewrite ?Ec; simpl; repeat split; auto.
    + destruct Hs as [-> | ->]; unfold IsWorkComplete, IsRepeatingWorkFinished;
        simpl; rewrite ?Ec; repeat split; auto.
    + destruct Hs as [-> | ->]; unfold IsWorkComplete, IsRepeatingWorkFinished;
        simpl; rewrite ?Ec; repeat split; auto.
  - destruct (SchedulableJob_Work E fuel self w) as [[u | e |] w1]; simpl in *.
    + assert (Hc1 : job_class (jobs w1 self) = RepeatingJobClass period stop).
      { destruct Hs as [-> | ->]; simpl; exact Ec. }
      rewrite Hc1. destruct stop; simpl.
      * destruct Hs as [-> | ->]; unfold IsWorkComplete, IsRepeatingWorkFinished;
          simpl; rewrite ?Ec; repeat split; auto.
      * unfold store_set. rewrite Nat.eqb_refl.
        destruct Hs as [-> | ->]; unfold IsWorkComplete, IsRepeatingWorkFinished;
          simpl; rewrite ?Ec; repeat split; auto.
    + destruct Hs as [-> | ->]; unfold IsWorkComplete, IsRepeatingWorkFinished;
        simpl; rewrite ?Ec; repeat split; auto.
    + destruct Hs as [-> | ->]; unfold IsWorkComplete, IsRepeatingWorkFinished;
        simpl; rewrite ?Ec; repeat split; auto.
Qed.

Lemma Work_pool fuel self w : pool (Work E fuel self w).2 = pool w.
Proof.
  destruct (SchedulableJob_Work_frame fuel self w) as (_ & Hp & _).
  unfold Work, SingleJob_Work, RepeatingJob_Work, bind, modify.
  destruct (job_class (jobs w self)) as [| wc | period stop]; [exact Hp | |].
  - destruct (SchedulableJob_Work E fuel self w) as [[u | e |] w1]; simpl in *; exact Hp.
  - destruct (SchedulableJob_Work E fuel self w) as [[u | e |] w1]; simpl in *;
      try exact Hp.
    destruct (job_class (jobs w1 self)) as [| wc | period' [|]]; simpl; exact Hp.
Qed.

(** *** Runs *)

Lemma _StartWork_loop_static fuel w n r :
  same_static (jobs w r) (jobs (_StartWork_loop E fuel w n).1.2 r).
Proof.
  apply (_StartWork_loop_invariant (fun w' _ => same_static (jobs w r) (jobs w' r))).
  - intros w1 n1 c w' n' H Hstep.
    eapply same_static_trans; [exact H|]. eapply body_step_static. exact Hstep.
  - apply same_static_refl.
Qed.

(** No operation clears [_is_cancelled]. *)
Lemma run_op_keeps_cancelled o w r :
  _is_cancelled (jobs w r) = true -> _is_cancelled (jobs (run_op E o w) r) = true.
Proof.
  intros Hc. destruct o as [job | job | job t | job d | job ty | job v | | | fuel | fuel job];
    simpl.
  - exact Hc.
  - unfold Cancel, RepeatingJob_Cancel, SchedulableJob_Cancel, set_stop_repeating.
    destruct (job_class (jobs w job)) eqn:Ec; simpl; unfold store_set;
      rewrite ?Nat.eqb_refl; simpl; rewrite ?Ec;
      destruct (Nat.eqb r job) eqn:Er; simpl; auto.
  - destruct t; simpl; unfold store_set; destruct (Nat.eqb_spec r job); subst; auto.
  - unfold Delay. destruct (job_class (jobs w job)); simpl; auto.
    unfold store_set; destruct (Nat.eqb_spec r job); subst; auto.
  - unfold store_set; destruct (Nat.eqb_spec r job); subst; auto.
  - unfold store_set; destruct (Nat.eqb_spec r job); subst; auto.
  - unfold run_cancel_filter. destruct (_cancel_filter_needed w); auto.
  - unfold run_sort. destruct (_sort_needed w); auto.
  - destruct (_StartWork_loop_static fuel w 0 r) as (H & _).
    unfold _StartWork. rewrite H. exact Hc.
  - destruct (Nat.eq_dec r job) as [-> | Hne].
    + destruct (Work_self fuel job w) as (H & _). rewrite H. exact Hc.
    + rewrite Work_other; assumption.
Qed.

(** No pass of the dispatch loop hands a cancelled job to the pool. *)
Lemma _StartWork_loop_pool_cancelled fuel w n j :
  _is_cancelled (jobs w j) = true ->
  count_occ Nat.eq_dec (pool (_StartWork_loop E fuel w n).1.2) j
  = count_occ Nat.eq_dec (pool w) j.
Proof.
  intros Hc.
  apply (_StartWork_loop_invariant
           (fun w' _ => _is_cancelled (jobs w' j) = true
              /\ count_occ Nat.eq_dec (pool w') j = count_occ Nat.eq_dec (pool w) j)).
  - intros w1 n1 c w' n' (Hc1 & Hcount) Hstep. split.
    + destruct (body_step_static _ _ _ _ _ j Hstep) as (H & _). rewrite H. exact Hc1.
    + destruct (body_step_pool _ _ _ _ _ Hstep)
        as [[Hp _] | (_ & _ & [Hp | (j' & Hc' & Hp)])]; rewrite Hp; try exact Hcount.
      rewrite count_occ_app. simpl.
      destruct (Nat.eq_dec j' j) as [-> | Hne]; [congruence|].
      rewrite Nat.add_0_r. exact Hcount.
  - auto.
Qed.

Lemma run_op_pool_cancelled o w j :
  _is_cancelled (jobs w j) = true ->
  count_occ Nat.eq_dec (pool (run_op E o w)) j = count_occ Nat.eq_dec (pool w) j.
Proof.
  intros Hc. destruct o as [job | job | job t | job d | job ty | job v | | | fuel | fuel job];
    simpl; try reflexivity.
  - unfold Cancel, RepeatingJob_Cancel, SchedulableJob_Cancel.
    destruct (job_class (jobs w job)); reflexivity.
  - destruct t; reflexivity.
  - unfold Delay. destruct (job_class (jobs w job)); reflexivity.
  - unfold run_cancel_filter. destruct (_cancel_filter_needed w); reflexivity.
  - unfold run_sort. destruct (_sort_needed w); reflexivity.
  - apply _StartWork_loop_pool_cancelled. exact Hc.
  - rewrite Work_pool. reflexivity.
Qed.

Lemma run_ops_cancelled ops w j :
  _is_cancelled (jobs w j) = true ->
  _is_cancelled (jobs (run_ops E ops w) j) = true
  /\ count_occ Nat.eq_dec (pool (run_ops E ops w)) j = count_occ Nat.eq_dec (pool w) j.
Proof.
  revert w. induction ops as [|o ops IH]; intros w Hc; simpl.
  - auto.
  - destruct (IH (run_op E o w) (run_op_keeps_cancelled o w j Hc)) as (H1 & H2).
    split; [exact H1|]. rewrite H2. apply run_op_pool_cancelled. exact Hc.
Qed.

Lemma Cancel_sets_cancelled j w : _is_cancelled (jobs (Cancel j w) j) = true.
Proof.
  unfold Cancel, RepeatingJob_Cancel, SchedulableJob_Cancel, set_stop_repeating.
  destruct (job_class (jobs w j)) eqn:Ec; simpl; unfold store_set;
    rewrite ?Nat.eqb_refl; simpl; rewrite ?Ec; reflexivity.
Qed.

Lemma Cancel_pool j w : pool (Cancel j w) = pool w.
Proof.
  unfold Cancel, RepeatingJob_Cancel, SchedulableJob_Cancel.
  destruct (job_class (jobs w j)); reflexivity.
Qed.

(** *** The order of the pending collection *)

Lemma waiting_sorted_spec w :
  waiting_sorted w = true <-> StronglySorted (due_le (jobs w)) (_waiting w).
Proof. apply is_sorted_spec. Qed.

(** An operation that moves no due time, keeps the list and keeps the flag
    keeps the invariant. *)
Lemma sorted_unless_pending_ext w w' :
  _waiting w' = _waiting w ->
  (forall r, _next_work_time (jobs w' r) = _next_work_time (jobs w r)) ->
  _sort_needed w' = _sort_needed w ->
  sorted_unless_pending w -> sorted_unless_pending w'.
Proof.
  unfold sorted_unless_pending. intros Hw Hj Hf H Hf'.
  rewrite waiting_sorted_spec, Hw.
  apply (StronglySorted_due_le_ext (jobs w)); [intros; apply Hj|].
  apply waiting_sorted_spec. apply H. congruence.
Qed.

(** [AddJob] keeps a sorted collection sorted. *)
Lemma AddJob_keeps_sorted job w :
  waiting_sorted w = true -> waiting_sorted (AddJob job w) = true.
Proof.
  rewrite !waiting_sorted_spec. simpl. apply insort_sorted.
Qed.

(** The cancellation filter keeps a sorted collection sorted. *)
Lemma _FilterCancelled_keeps_sorted w :
  waiting_sorted w = true -> waiting_sorted (_FilterCancelled w) = true.
Proof.
  rewrite !waiting_sorted_spec. simpl. apply filter_sorted.
Qed.

(** The sort pass leaves the collection sorted. *)
Lemma _SortWaiting_sorts w : waiting_sorted (_SortWaiting w) = true.
Proof.
  rewrite waiting_sorted_spec. simpl. apply list_sort_sorted.
Qed.

(** One turn of the dispatch loop keeps the collection sorted and free of
    repeats, provided it was free of repeats. *)
Lemma body_step_sorted w n c w' n' :
  body_step E w n c w' n' ->
  NoDup (_waiting w) ->
  StronglySorted (due_le (jobs w)) (_waiting w) ->
  NoDup (_waiting w') /\ StronglySorted (due_le (jobs w')) (_waiting w').
Proof.
  intros Hstep Hnd Hs. destruct Hstep as
    [ Hw | j rest Hw Hn | j rest Hw Hn Hdue | j rest Hw Hn Hdue Hc
    | j rest Hw Hn Hdue Hc Hok | j rest w3 Hw Hn Hdue Hc Hok Hw3 ];
    try (split; assumption).
  - rewrite Hw in *. simpl. apply NoDup_cons in Hnd. inversion Hs; subst. tauto.
  - rewrite Hw in *. apply NoDup_cons in Hnd. inversion Hs; subst.
    rewrite StartWork_waiting, SlotOK_waiting. simpl. split; [tauto|].
    eapply StronglySorted_due_le_ext; [|eassumption].
    intros k _. rewrite StartWork_due_times.
    destruct (SlotOK_true _ _ Hok) as (-> & _). reflexivity.
  - rewrite Hw in *. apply NoDup_cons in Hnd. destruct Hnd as [Hnin Hnd].
    inversion Hs; subst. simpl.
    rewrite SlotOK_waiting. simpl. split.
    + rewrite insort_Permutation. apply NoDup_cons. auto.
    + apply insort_sorted. eapply StronglySorted_due_le_ext; [|eassumption].
      intros k Hk. rewrite SlotOK_other; [reflexivity|].
      intros ->. contradiction.
Qed.

Lemma _StartWork_loop_sorted fuel w n :
  NoDup (_waiting w) ->
  StronglySorted (due_le (jobs w)) (_waiting w) ->
  StronglySorted (due_le (jobs (_StartWork_loop E fuel w n).1.2))
                 (_waiting (_StartWork_loop E fuel w n).1.2).
Proof.
  intros Hnd Hs.
  apply (_StartWork_loop_invariant
           (fun w' _ => NoDup (_waiting w')
                        /\ StronglySorted (due_le (jobs w')) (_waiting w'))).
  - intros w1 n1 c w' n' (Hnd1 & Hs1) Hstep. eapply body_step_sorted; eauto.
  - auto.
Qed.

Lemma _StartWork_loop_sort_needed fuel w n :
  _sort_needed (_StartWork_loop E fuel w n).1.2 = _sort_needed w.
Proof.
  apply (_StartWork_loop_invariant (fun w' _ => _sort_needed w' = _sort_needed w)).
  - intros w1 n1 c w' n' H Hstep. rewrite <- H. eapply body_step_sort_needed. exact Hstep.
  - reflexivity.
Qed.

(** What [job.Work()] does to the scheduler: nothing, or, for a
    RepeatingJob that goes on, the job is given its next due time and added
    again. *)
Lemma Work_scheduler fuel self w :
  let w' := (Work E fuel self w).2 in
  _sort_needed w' = _sort_needed w
  /\ ((_waiting w' = _waiting w
       /\ forall r, _next_work_time (jobs w' r) = _next_work_time (jobs w r))
      \/ (_waiting w' = insort (__lt__ (jobs w')) (_waiting w) self
          /\ forall r, r <> self -> jobs w' r = jobs w r)).
Proof.
  cbv zeta.
  destruct (SchedulableJob_Work_frame fuel self w) as (Hw & _ & Hs & Ho & Hself).
  assert (Hnwt : forall r,
            _next_work_time (jobs (SchedulableJob_Work E fuel self w).2 r)
            = _next_work_time (jobs w r)).
  { intros r. destruct (Nat.eq_dec r self) as [-> | Hne].
    - destruct Hself as [-> | ->]; reflexivity.
    - rewrite Ho; auto. }
  unfold Work, SingleJob_Work, RepeatingJob_Work, bind, modify.
  destruct (job_class (jobs w self)) as [| wc | period stop] eqn:Ec.
  - split; [exact Hs|]. left. auto.
  - destruct (SchedulableJob_Work E fuel self w) as [[u | e |] w1]; simpl in *;
      (split; [exact Hs|]); left; (split; [exact Hw|]); try exact Hnwt.
    intros r. unfold store_set. destruct (Nat.eqb_spec r self) as [-> | Hne].
    + unfold set_work_complete. rewrite <- Hnwt.
      destruct (job_class (jobs w1 self)); reflexivity.
    + apply Hnwt.
  - destruct (SchedulableJob_Work E fuel self w) as [[u | e |] w1]; simpl in *;
      try (split; [exact Hs|]; left; split; [exact Hw | exact Hnwt]).
    destruct (job_class (jobs w1 self)) as [| wc | period' [|]]; simpl;
      try (split; [exact Hs|]; left; split; [exact Hw | exact Hnwt]).
    split; [exact Hs|]. right. rewrite Hw. split; [reflexivity|].
    intros r Hne. unfold store_set. destruct (Nat.eqb_spec r self); [contradiction|].
    apply Ho. exact Hne.
Qed.

(** Every operation keeps the invariant, as long as no job is pending
    twice before it and after it. *)
Lemma run_op_sorted o w :
  NoDup (_waiting w) -> NoDup (_waiting (run_op E o w)) ->
  sorted_unless_pending w -> sorted_unless_pending (run_op E o w).
Proof.
  intros Hnd Hnd' Hinv.
  destruct o as [job | job | job t | job d | job ty | job v | | | fuel | fuel job];
    simpl in *.
  - intros Hf. apply AddJob_keeps_sorted. apply Hinv. exact Hf.
  - apply (sorted_unless_pending_ext w); auto;
      unfold Cancel, RepeatingJob_Cancel, SchedulableJob_Cancel, set_stop_repeating;
      destruct (job_class (jobs w job)) eqn:Ec; simpl; try reflexivity;
      intros r; unfold store_set; rewrite ?Nat.eqb_refl; simpl; rewrite ?Ec;
      destruct (Nat.eqb_spec r job); subst; reflexivity.
  - intros Hf. destruct t; discriminate.
  - unfold Delay. destruct (job_class (jobs w job)); try exact Hinv.
    intros Hf. discriminate.
  - apply (sorted_unless_pending_ext w); auto.
    intros r. simpl. unfold store_set. destruct (Nat.eqb_spec r job); subst; reflexivity.
  - apply (sorted_unless_pending_ext w); auto.
    intros r. simpl. unfold store_set. destruct (Nat.eqb_spec r job); subst; reflexivity.
  - unfold run_cancel_filter. destruct (_cancel_filter_needed w); [|exact Hinv].
    intros Hf. apply (_FilterCancelled_keeps_sorted w). apply Hinv. exact Hf.
  - unfold run_sort. destruct (_sort_needed w) eqn:Ef; [|exact Hinv].
    intros _. apply (_SortWaiting_sorts w).
  - intros Hf. unfold _StartWork in *. rewrite _StartWork_loop_sort_needed in Hf.
    apply waiting_sorted_spec. apply _StartWork_loop_sorted; [exact Hnd|].
    apply waiting_sorted_spec. apply Hinv. exact Hf.
  - destruct (Work_scheduler fuel job w) as (Hs & [(Hw & Hj) | (Hw & Hj)]).
    + apply (sorted_unless_pending_ext w); auto.
    + intros Hf. rewrite Hs in Hf. apply waiting_sorted_spec. rewrite Hw.
      rewrite Hw, insort_Permutation in Hnd'. apply NoDup_cons in Hnd'.
      destruct Hnd' as [Hnin _].
      apply insort_sorted. apply (StronglySorted_due_le_ext (jobs w)).
      * intros k Hk. rewrite Hj; [reflexivity|]. intros ->. contradiction.
      * apply waiting_sorted_spec. apply Hinv. exact Hf.
Qed.

Lemma worlds_of_head ops w : exists l, worlds_of E ops w = w :: l.
Proof. destruct ops; simpl; eauto. Qed.

Lemma worlds_of_sorted ops w :
  Forall (fun w' => NoDup (_waiting w')) (worlds_of E ops w) ->
  sorted_unless_pending w ->
  Forall sorted_unless_pending (worlds_of E ops w).
Proof.
  revert w. induction ops as [|o ops IH]; intros w Hnd Hinv; simpl in *.
  - constructor; [exact Hinv | constructor].
  - inversion Hnd as [|w0 l Hw Hrest]; subst.
    constructor; [exact Hinv|]. apply IH; [exact Hrest|].
    apply run_op_sorted; [exact Hw | | exact Hinv].
    destruct (worlds_of_head ops (run_op E o w)) as [l Hl].
    rewrite Hl in Hrest. inversion Hrest; subst. assumption.
Qed.

(** *** Admission *)

Lemma SlotOK_refused self ty w :
  _thread_slot_type (jobs w self) = Some ty ->
  AcquireThreadSlot E (tick w) ty = false ->
  (SlotOK E self w).1 = false.
Proof.
  intros Hty Ha. unfold SlotOK. rewrite Hty, Ha. reflexivity.
Qed.

Lemma IsDue_true self w :
  (IsDue E self w).1 = true ->
  (_next_work_time (jobs w self) <= GetNowFloat E (tick w))%Q.
Proof.
  unfold IsDue, HydrusData.TimeHasPassedFloat. simpl. apply Qle_bool_iff.
Qed.

(** A turn of the dispatch loop never moves a due time back, given a clock
    that does not run backwards and a jitter that is not negative. *)
Lemma body_step_due_time_grows w n c w' n' r :
  (forall a b, a <= b -> (GetNowFloat E a <= GetNowFloat E b)%Q) ->
  (forall a, (0 <= random E a)%Q) ->
  body_step E w n c w' n' ->
  (_next_work_time (jobs w r) <= _next_work_time (jobs w' r))%Q.
Proof.
  intros Hmono Hrand Hstep. destruct Hstep as
    [ Hw | j rest Hw Hn | j rest Hw Hn Hdue | j rest Hw Hn Hdue Hc
    | j rest Hw Hn Hdue Hc Hok | j rest w3 Hw Hn Hdue Hc Hok Hw3 ];
    simpl; try lra.
  - rewrite StartWork_due_times.
    destruct (SlotOK_true _ _ Hok) as (-> & _). simpl. lra.
  - subst w3. destruct (SlotOK_false _ _ Hok) as (ty & _ & _ & -> & _).
    simpl. unfold store_set. destruct (Nat.eqb_spec r j) as [-> | Hne]; [|lra].
    simpl. apply IsDue_true in Hdue.
    pose proof (Hmono (tick w) (S (S (tick w))) ltac:(lia)).
    pose proof (Hrand (S (S (S (tick w))))). lra.
Qed.

(** The turn that pops a due job whose slot is refused. *)
Lemma _StartWork_body_reinserts j rest w n :
  _waiting w = j :: rest -> n < 10 ->
  (IsDue E j w).1 = true ->
  _is_cancelled (jobs w j) = false ->
  (SlotOK E j (set_waiting rest (tick_up w))).1 = false ->
  _StartWork_body E w n
  = (Continue,
     set_waiting
       (insort (__lt__ (jobs (SlotOK E j (set_waiting rest (tick_up w))).2))
               (_waiting (SlotOK E j (set_waiting rest (tick_up w))).2) j)
       (SlotOK E j (set_waiting rest (tick_up w))).2,
     n).
Proof.
  intros Hw Hn Hdue Hc Href.
  pose proof (_StartWork_body_step w n) as Hstep.
  destruct (_StartWork_body E w n) as [[c w'] n']. simpl in Hstep.
  inversion Hstep as
    [ Hw0 | j0 rest0 Hw0 Hn0 | j0 rest0 Hw0 Hn0 Hdue0 | j0 rest0 Hw0 Hn0 Hdue0 Hc0
    | j0 rest0 Hw0 Hn0 Hdue0 Hc0 Hok0 | j0 rest0 w3 Hw0 Hn0 Hdue0 Hc0 Hok0 Hw3 ];
    subst; try congruence; try lia;
    rewrite Hw in Hw0; inversion Hw0; subst; try congruence.
Qed.

(** Putting a refused job back keeps the collection sorted, when the job
    is not pending a second time. *)
Lemma reinsertion_keeps_sorted j rest w n :
  _waiting w = j :: rest -> j ∉ rest ->
  waiting_sorted w = true ->
  n < 10 ->
  (IsDue E j w).1 = true ->
  _is_cancelled (jobs w j) = false ->
  (SlotOK E j (set_waiting rest (tick_up w))).1 = false ->
  waiting_sorted (_StartWork_body E w n).1.2 = true.
Proof.
  intros Hw Hnin Hs Hn Hdue Hc Href.
  rewrite (_StartWork_body_reinserts j rest w n Hw Hn Hdue Hc Href).
  cbn [fst snd]. apply waiting_sorted_spec. cbn [jobs _waiting set_waiting].
  rewrite SlotOK_waiting. cbn [_waiting set_waiting].
  apply waiting_sorted_spec in Hs. rewrite Hw in Hs. inversion Hs; subst.
  apply insort_sorted. eapply StronglySorted_due_le_ext; [|eassumption].
  intros k Hk. rewrite SlotOK_other; [reflexivity|].
  intros ->. contradiction.
Qed.

(** *** The completion signal of a SingleJob *)

Lemma _StartWork_loop_class fuel w n r :
  job_class (jobs (_StartWork_loop E fuel w n).1.2 r) = job_class (jobs w r).
Proof. apply _StartWork_loop_static. Qed.

(** No operation clears [_work_complete]. *)
Lemma run_op_keeps_work_complete o w r :
  IsWorkComplete (jobs w r) = true -> IsWorkComplete (jobs (run_op E o w) r) = true.
Proof.
  intros Hc. destruct o as [job | job | job t | job d | job ty | job v | | | fuel | fuel job];
    simpl.
  - exact Hc.
  - unfold Cancel, RepeatingJob_Cancel, SchedulableJob_Cancel, set_stop_repeating.
    destruct (Nat.eqb_spec r job) as [-> | Hne].
    + unfold IsWorkComplete in *.
      destruct (job_class (jobs w job)) eqn:Ec; simpl; unfold store_set;
        rewrite ?Nat.eqb_refl; simpl; rewrite ?Ec; simpl; auto.
    + destruct (job_class (jobs w job)) eqn:Ec; simpl; unfold store_set;
        destruct (Nat.eqb_spec r job); try contradiction; auto.
  - destruct t; simpl; unfold store_set; destruct (Nat.eqb_spec r job); subst; auto.
  - unfold Delay. destruct (job_class (jobs w job)) eqn:Ec; simpl; auto.
    unfold store_set; destruct (Nat.eqb_spec r job); subst; auto.
  - unfold store_set; destruct (Nat.eqb_spec r job); subst; auto.
  - unfold store_set; destruct (Nat.eqb_spec r job); subst; auto.
  - unfold run_cancel_filter. destruct (_cancel_filter_needed w); auto.
  - unfold run_sort. destruct (_sort_needed w); auto.
  - unfold _StartWork, IsWorkComplete in *. rewrite _StartWork_loop_class. exact Hc.
  - destruct (Nat.eq_dec r job) as [-> | Hne].
    + destruct (Work_self fuel job w) as (_ & _ & _ & H & _). apply H. exact Hc.
    + rewrite Work_other; assumption.
Qed.

Lemma run_ops_keep_work_complete ops w r :
  IsWorkComplete (jobs w r) = true -> IsWorkComplete (jobs (run_ops E ops w) r) = true.
Proof.
  revert w. induction ops as [|o ops IH]; intros w Hc; simpl.
  - exact Hc.
  - apply IH. apply run_op_keeps_work_complete. exact Hc.
Qed.

(** [SingleJob.Work] sets the signal when [SchedulableJob.Work] returns, and
    only then. *)
Lemma SingleJob_Work_work_complete fuel self w wc :
  job_class (jobs w self) = SingleJobClass wc ->
  match (Work E fuel self w).1 with
  | Ok _ => IsWorkComplete (jobs (Work E fuel self w).2 self) = true
  | Raise _ => IsWorkComplete (jobs (Work E fuel self w).2 self) = wc
  | OutOfFuel => IsWorkComplete (jobs (Work E fuel self w).2 self) = wc
  end.
Proof.
  intros Ec.
  destruct (SchedulableJob_Work_frame fuel self w) as (_ & _ & _ & _ & Hs).
  unfold Work. rewrite Ec. unfold SingleJob_Work, bind, modify.
  destruct (SchedulableJob_Work E fuel self w) as [[u | e |] w1]; simpl in *.
  - unfold store_set. rewrite Nat.eqb_refl. unfold set_work_complete, IsWorkComplete.
    destruct Hs as [-> | ->]; simpl; rewrite Ec; reflexivity.
  - unfold IsWorkComplete. destruct Hs as [-> | ->]; simpl; rewrite Ec; reflexivity.
  - unfold IsWorkComplete. destruct Hs as [-> | ->]; simpl; rewrite Ec; reflexivity.
Qed.

(** [SchedulableJob.Work] when no wait after a wake from sleep is asked for:
    the callable is called, the [finally] block runs, and what the callable
    did is what [Work] does. *)
Lemma SchedulableJob_Work_no_delay fuel self w :
  _should_delay_on_wakeup (jobs w self) = false ->
  SchedulableJob_Work E fuel self w
  = (match work_callable E (tick w) self with
     | Returns => Ok tt
     | Raises e => Raise e
     end,
     update_job self (with_currently_working false)
       (release_slot self (set_invoked (invoked w ++ [self]) (tick_up w)))).
Proof.
  intros Hd.
  unfold SchedulableJob_Work, try_finally, bind, get, ret, call_work_callable,
    SchedulableJob_Work_finally.
  rewrite Hd. destruct (work_callable E (tick w) self); reflexivity.
Qed.

(** [SchedulableJob.Work] when shutdown is seen during the wait after a wake
    from sleep. *)
Lemma SchedulableJob_Work_shutdown_seen fuel self w w1 :
  _should_delay_on_wakeup (jobs w self) = true ->
  wake_delay E fuel w = (Ok ShutdownSeen, w1) ->
  SchedulableJob_Work E fuel self w
  = (Ok tt, update_job self (with_currently_working false) (release_slot self w1)).
Proof.
  intros Hd Hp.
  unfold SchedulableJob_Work, try_finally, bind, get, ret, SchedulableJob_Work_finally.
  rewrite Hd, Hp. reflexivity.
Qed.

(** *** The dispatch loop ends *)

Lemma count_if_app f l1 l2 : count_if f (l1 ++ l2) = count_if f l1 + count_if f l2.
Proof.
  induction l1 as [|j l1 IH]; simpl; [reflexivity|]. rewrite IH. lia.
Qed.

Lemma count_if_insort f lt (a : list JobRef) x :
  count_if f (insort lt a x) = (if f x then 1 else 0) + count_if f a.
Proof.
  unfold insort, list_insert_at. generalize (bisect_right lt a x). intros i.
  rewrite <- (take_drop i a) at 3.
  rewrite !count_if_app. simpl. lia.
Qed.

Lemma count_if_mono f g l :
  (forall j, j ∈ l -> f j = true -> g j = true) -> count_if f l <= count_if g l.
Proof.
  induction l as [|j l IH]; intros H; simpl; [lia|].
  assert (Hl : count_if f l <= count_if g l).
  { apply IH. intros k Hk. apply H. right. exact Hk. }
  destruct (f j) eqn:Ef.
  - rewrite (H j); [lia | left | exact Ef].
  - destruct (g j); lia.
Qed.

Lemma SlotOK_tick self w : tick w <= tick (SlotOK E self w).2.
Proof.
  unfold SlotOK. destruct (_thread_slot_type (jobs w self)); simpl; [|lia].
  destruct (AcquireThreadSlot E (tick w) _); simpl; lia.
Qed.

Lemma StartWork_tick self w : tick (StartWork self w) = tick w.
Proof. destruct (StartWork_cases self w) as [-> | [_ ->]]; reflexivity. Qed.

Lemma body_step_tick w n c w' n' : body_step E w n c w' n' -> tick w <= tick w'.
Proof.
  intros H. destruct H; simpl; try lia.
  - rewrite StartWork_tick.
    pose proof (SlotOK_tick next_job (set_waiting rest (tick_up w))). simpl in *. lia.
  - subst w3. pose proof (SlotOK_tick next_job (set_waiting rest (tick_up w))).
    simpl in *. lia.
Qed.

(** While the clock stays below [bound - 10], every turn that goes on takes
    one entry at least out of those due before [bound]. *)
Lemma body_step_pending_before bound w n w' n' :
  (forall a b, a <= b -> (GetNowFloat E a <= GetNowFloat E b)%Q) ->
  (forall a, (0 <= random E a)%Q) ->
  (GetNowFloat E (tick w) < bound)%Q ->
  (bound <= GetNowFloat E (tick w) + 10)%Q ->
  body_step E w n Continue w' n' ->
  pending_before bound w' < pending_before bound w.
Proof.
  intros Hmono Hrand Hlt Hge Hstep. unfold pending_before.
  inversion Hstep as
    [ | | | j rest Hw Hn Hdue Hc | j rest Hw Hn Hdue Hc Hok
      | j rest w3 Hw Hn Hdue Hc Hok Hw3 ]; subst.
  - rewrite Hw. simpl. apply IsDue_true in Hdue.
    assert (Hj : Qlt_bool (_next_work_time (jobs w j)) bound = true)
      by (apply Qlt_bool_true; lra).
    rewrite Hj. lia.
  - rewrite Hw, StartWork_waiting, SlotOK_waiting. simpl. apply IsDue_true in Hdue.
    assert (Hj : Qlt_bool (_next_work_time (jobs w j)) bound = true)
      by (apply Qlt_bool_true; lra).
    rewrite Hj.
    assert (Hle : count_if
                    (fun k => Qlt_bool
                       (_next_work_time
                          (jobs (StartWork j (SlotOK E j (set_waiting rest (tick_up w))).2) k))
                       bound) rest
                  <= count_if (fun k => Qlt_bool (_next_work_time (jobs w k)) bound) rest).
    { apply count_if_mono. intros k _. rewrite StartWork_due_times.
      destruct (SlotOK_true _ _ Hok) as (-> & _). simpl. auto. }
    lia.
  - destruct (SlotOK_false _ _ Hok) as (ty & _ & _ & Hjobs & Hwait & _).
    cbn [jobs _waiting set_waiting]. rewrite Hwait, Hjobs. cbn [_waiting set_waiting tick_up tick jobs].
    rewrite count_if_insort, Hw. simpl.
    apply IsDue_true in Hdue.
    assert (Hj : Qlt_bool (_next_work_time (jobs w j)) bound = true)
      by (apply Qlt_bool_true; lra).
    rewrite Hj.
    pose proof (Hmono (tick w) (S (S (tick w))) ltac:(lia)) as Hm.
    pose proof (Hrand (S (S (S (tick w))))) as Hr.
    unfold store_set at 1. rewrite Nat.eqb_refl. simpl.
    assert (Hnew : Qlt_bool
                     (GetNowFloat E (S (S (tick w))) + 10 + random E (S (S (S (tick w)))))
                     bound = false)
      by (apply Qlt_bool_false; lra).
    rewrite Hnew.
    assert (Hle : count_if
                    (fun k => Qlt_bool
                       (_next_work_time
                          (store_set (jobs w) j
                             (with_next_work_time
                                (GetNowFloat E (S (S (tick w))) + 10
                                 + random E (S (S (S (tick w)))))%Q (jobs w j)) k))
                       bound) rest
                  <= count_if (fun k => Qlt_bool (_next_work_time (jobs w k)) bound) rest).
    { apply count_if_mono. intros k _. unfold store_set.
      destruct (Nat.eqb_spec k j) as [-> | Hne]; simpl; [|auto].
      rewrite Hnew. discriminate. }
    lia.
Qed.

Lemma SlotOK_tick_le self w : tick (SlotOK E self w).2 <= tick w + 3.
Proof.
  unfold SlotOK. destruct (_thread_slot_type (jobs w self)); simpl; [|lia].
  destruct (AcquireThreadSlot E (tick w) _); simpl; lia.
Qed.

(** A turn takes four readings at most. *)
Lemma body_step_tick_le w n c w' n' : body_step E w n c w' n' -> tick w' <= tick w + 4.
Proof.
  intros H. destruct H; simpl; try lia.
  - rewrite StartWork_tick.
    pose proof (SlotOK_tick_le next_job (set_waiting rest (tick_up w))). simpl in *. lia.
  - subst w3. pose proof (SlotOK_tick_le next_job (set_waiting rest (tick_up w))).
    simpl in *. lia.
Qed.

(** Enough turns: one more than the entries due before the bound. *)
Lemma _StartWork_loop_ends t0 fuel w n :
  (forall a b, a <= b -> (GetNowFloat E a <= GetNowFloat E b)%Q) ->
  (forall a, (0 <= random E a)%Q) ->
  (forall a, t0 <= a < tick w + 4 * fuel ->
             (GetNowFloat E a < GetNowFloat E t0 + 10)%Q) ->
  t0 <= tick w ->
  pending_before (GetNowFloat E t0 + 10) w < fuel ->
  (_StartWork_loop E fuel w n).1.1 = true.
Proof.
  intros Hmono Hrand. revert w n.
  induction fuel as [|fuel IH]; intros w n Hslow Ht Hm; [lia|].
  simpl. pose proof (_StartWork_body_step w n) as Hstep.
  destruct (_StartWork_body E w n) as [[c w'] n']. simpl in Hstep.
  destruct c; [reflexivity|].
  pose proof (body_step_tick _ _ _ _ _ Hstep) as Hge.
  pose proof (body_step_tick_le _ _ _ _ _ Hstep) as Hle.
  apply IH.
  - intros a Ha. apply Hslow. lia.
  - lia.
  - assert (pending_before (GetNowFloat E t0 + 10) w'
            < pending_before (GetNowFloat E t0 + 10) w); [|lia].
    apply (body_step_pending_before _ w n w' n'); auto.
    + apply Hslow. lia.
    + pose proof (Hmono t0 (tick w) Ht). lra.
Qed.

Lemma count_if_length f l : count_if f l <= length l.
Proof. induction l as [|j l IH]; simpl; [lia|]. destruct (f j); lia. Qed.

(** Once the loop has ended, more fuel changes nothing. *)
Lemma _StartWork_loop_more_fuel fuel fuel' w n :
  (_StartWork_loop E fuel w n).1.1 = true -> fuel <= fuel' ->
  _StartWork_loop E fuel' w n = _StartWork_loop E fuel w n.
Proof.
  revert fuel' w n. induction fuel as [|fuel IH]; intros fuel' w n Hend Hle.
  - discriminate.
  - destruct fuel' as [|fuel']; [lia|]. simpl in *.
    destruct (_StartWork_body E w n) as [[[|] w'] n']; [reflexivity|].
    apply IH; [exact Hend | lia].
Qed.

End Frames.

(** *** The cap of ten starts per dispatch phase *)

(** C2. In one call of [_StartWork], whatever the pending collection holds
    and however many turns the loop takes, the counter of started jobs ends
    at 10 at most, and the pool has received what it held before followed by
    at most that many jobs: dropped cancelled jobs and reinserted jobs add
    nothing. *)
Theorem _StartWork_starts_at_most_10 (E : Env) (fuel : nat) (w : World) :
  (_StartWork E fuel w).2 <= 10
  /\ exists started,
       pool (_StartWork E fuel w).1.2 = pool w ++ started
       /\ length started <= (_StartWork E fuel w).2.
Proof.
  unfold _StartWork.
  apply (_StartWork_loop_invariant E
           (fun w' n' => n' <= 10
              /\ exists started, pool w' = pool w ++ started /\ length started <= n')).
  - intros w1 n c w' n' (Hn & started & Hp & Hl) Hstep.
    destruct (body_step_pool E _ _ _ _ _ Hstep)
      as [[Hp' ->] | (Hlt & -> & [Hp' | (j & _ & Hp')])].
    + split; [exact Hn|]. exists started. rewrite Hp'. auto.
    + split; [lia|]. exists started. rewrite Hp'. split; [exact Hp | lia].
    + split; [lia|]. exists (started ++ [j]). rewrite Hp', Hp, <- app_assoc.
      split; [reflexivity|]. rewrite length_app. simpl. lia.
  - split; [lia|]. exists []. rewrite app_nil_r. split; [reflexivity | simpl; lia].
Qed.

(** X1. [_StartWork] returns. With a clock that does not run backwards and
    advances by less than 10 seconds over the readings the phase can take
    (four a turn), and a jitter that is not negative, the loop ends within
    one turn more than there are pending entries, and allowing more turns
    changes nothing: a job put back is due 10 seconds later at least, so it
    is not popped again. *)
Theorem _StartWork_returns (E : Env) (w : World) (fuel : nat) :
  (forall a b, a <= b -> (GetNowFloat E a <= GetNowFloat E b)%Q) ->
  (forall a, (0 <= random E a)%Q) ->
  (forall a, tick w <= a < tick w + 4 * S (length (_waiting w)) ->
             (GetNowFloat E a < GetNowFloat E (tick w) + 10)%Q) ->
  S (length (_waiting w)) <= fuel ->
  (_StartWork E fuel w).1.1 = true
  /\ _StartWork E fuel w = _StartWork E (S (length (_waiting w))) w.
Proof.
  intros Hmono Hrand Hslow Hfuel. unfold _StartWork.
  assert (Hend : (_StartWork_loop E (S (length (_waiting w))) w 0).1.1 = true).
  { apply (_StartWork_loop_ends E (tick w)); auto.
    unfold pending_before. pose proof (count_if_length
      (fun j => Qlt_bool (_next_work_time (jobs w j)) (GetNowFloat E (tick w) + 10))
      (_waiting w)). lia. }
  rewrite (_StartWork_loop_more_fuel E _ fuel w 0 Hend Hfuel). auto.
Qed.

(** *** Dispatch order *)

(** X2. When the pending collection is sorted, a job that a dispatch turn hands
    to the pool is due no later than every job still pending after the
    turn. *)
Theorem dispatched_job_is_earliest (E : Env) (w : World) (n : nat) (j : JobRef) :
  waiting_sorted w = true ->
  pool (_StartWork_body E w n).1.2 = pool w ++ [j] ->
  forall k, k ∈ _waiting (_StartWork_body E w n).1.2 ->
    (_next_work_time (jobs (_StartWork_body E w n).1.2 j)
     <= _next_work_time (jobs (_StartWork_body E w n).1.2 k))%Q.
Proof.
  intros Hs Hp k Hk. apply waiting_sorted_spec in Hs.
  pose proof (_StartWork_body_step E w n) as Hstep.
  destruct (_StartWork_body E w n) as [[c w'] n']. simpl in *.
  assert (Hno : pool w <> pool w ++ [j]).
  { intros H. apply (f_equal length) in H. rewrite length_app in H. simpl in H. lia. }
  destruct Hstep as
    [ Hw | j0 rest Hw Hn | j0 rest Hw Hn Hdue | j0 rest Hw Hn Hdue Hc
    | j0 rest Hw Hn Hdue Hc Hok | j0 rest w3 Hw Hn Hdue Hc Hok Hw3 ];
    try (simpl in Hp; congruence).
  - rewrite StartWork_waiting, SlotOK_waiting in Hk. simpl in Hk.
    rewrite !StartWork_due_times.
    destruct (SlotOK_true E _ _ Hok) as (Hj & _ & Hp' & _). rewrite Hj. simpl.
    destruct (StartWork_pool j0 (SlotOK E j0 (set_waiting rest (tick_up w))).2)
      as [Hq | [_ Hq]]; rewrite Hq, Hp' in Hp; simpl in Hp; [congruence|].
    apply app_inv_head in Hp. inversion Hp; subst.
    rewrite Hw in Hs. inversion Hs as [|? ? _ Hall]; subst.
    rewrite Forall_forall in Hall. apply Hall. exact Hk.
  - subst w3. simpl in Hp. rewrite SlotOK_pool in Hp. simpl in Hp. congruence.
Qed.

(** *** Cancelled jobs are never dispatched *)

(** C1. Once [Cancel()] has been called on a job, whatever is done next
    with the scheduler and its jobs (adding, waking, delaying, filtering,
    sorting, dispatch phases, work in the pool), in any order and for any
    answers of the clock and the controller: (1) the job's [Work] is not
    handed to the worker pool again; (2) the cancellation filter removes the
    job from the pending collection; (3) a dispatch turn that pops the job
    drops it, starting nothing and reinserting nothing; (4) [StartWork] on
    the job does nothing. *)
Theorem cancelled_job_is_never_dispatched (E : Env) (j : JobRef) (w : World) (ops : list op) :
  let w1 := run_ops E ops (Cancel j w) in
  count_occ Nat.eq_dec (pool w1) j = count_occ Nat.eq_dec (pool w) j
  /\ (j ∉ _waiting (_FilterCancelled w1))
  /\ (forall rest n,
        _waiting w1 = j :: rest -> n < 10 -> (IsDue E j w1).1 = true ->
        _StartWork_body E w1 n = (Continue, set_waiting rest (tick_up w1), n))
  /\ StartWork j w1 = w1.
Proof.
  cbv zeta.
  destruct (run_ops_cancelled E ops (Cancel j w) j (Cancel_sets_cancelled j w)) as (Hc & Hp).
  split; [|split; [|split]].
  - rewrite Hp, Cancel_pool. reflexivity.
  - unfold _FilterCancelled, IsCancelled. simpl. intros Hin.
    apply list_elem_of_In in Hin. apply filter_In in Hin. destruct Hin as [_ Hn].
    rewrite Hc in Hn. discriminate.
  - intros rest n Hw Hn Hdue.
    pose proof (_StartWork_body_step E (run_ops E ops (Cancel j w)) n) as Hstep.
    destruct (_StartWork_body E (run_ops E ops (Cancel j w)) n) as [[c w'] n'].
    simpl in Hstep. inversion Hstep; subst; try congruence; lia.
  - destruct (StartWork_cases j (run_ops E ops (Cancel j w))) as [H | [H _]].
    + exact H.
    + congruence.
Qed.

(** *** A refused job is rescheduled and kept *)

(** C3. With a clock that does not run backwards and [random.random()] in
    [0, 1): (1) when the controller refuses the slot of a job with a slot
    type, [SlotOK] answers false and sets the job's due time to the clock's
    reading plus 10 plus the jitter; (2) a job with no slot type is admitted,
    and nothing changes; (3) a dispatch turn that pops such a refused job
    goes on to the next turn with the job back in the pending collection,
    nothing started, nothing handed to the pool, and the job's due time
    strictly later than it was; (4) a job whose slot is refused at every
    attempt is still pending after a dispatch phase of any length, has not
    been handed to the pool, and its due time has not moved back. *)
Theorem refused_job_is_rescheduled_and_kept (E : Env) :
  (forall a b, a <= b -> (GetNowFloat E a <= GetNowFloat E b)%Q) ->
  (forall a, (0 <= random E a < 1)%Q) ->
  (forall j ty w,
     _thread_slot_type (jobs w j) = Some ty ->
     AcquireThreadSlot E (tick w) ty = false ->
     (SlotOK E j w).1 = false
     /\ exists now jitter,
          now = GetNowFloat E (S (tick w)) /\ (0 <= jitter < 1)%Q
          /\ _next_work_time (jobs (SlotOK E j w).2 j) = (now + 10 + jitter)%Q)
  /\ (forall j w, _thread_slot_type (jobs w j) = None -> SlotOK E j w = (true, w))
  /\ (forall j rest ty w n,
        _waiting w = j :: rest -> n < 10 ->
        (IsDue E j w).1 = true ->
        _is_cancelled (jobs w j) = false ->
        _thread_slot_type (jobs w j) = Some ty ->
        AcquireThreadSlot E (S (tick w)) ty = false ->
        (_StartWork_body E w n).1.1 = Continue
        /\ (_StartWork_body E w n).2 = n
        /\ pool (_StartWork_body E w n).1.2 = pool w
        /\ j ∈ _waiting (_StartWork_body E w n).1.2
        /\ length (_waiting (_StartWork_body E w n).1.2) = length (_waiting w)
        /\ (_next_work_time (jobs w j)
            < _next_work_time (jobs (_StartWork_body E w n).1.2 j))%Q)
  /\ (forall j ty fuel w,
        j ∈ _waiting w ->
        _is_cancelled (jobs w j) = false ->
        _thread_slot_type (jobs w j) = Some ty ->
        (forall a, AcquireThreadSlot E a ty = false) ->
        j ∈ _waiting (_StartWork E fuel w).1.2
        /\ (exists started,
              pool (_StartWork E fuel w).1.2 = pool w ++ started /\ j ∉ started)
        /\ (_next_work_time (jobs w j)
            <= _next_work_time (jobs (_StartWork E fuel w).1.2 j))%Q).
Proof.
  intros Hmono Hrand. split; [|split; [|split]].
  - intros j ty w Hty Ha. split; [eapply SlotOK_refused; eauto|].
    exists (GetNowFloat E (S (tick w))), (random E (S (S (tick w)))).
    split; [reflexivity|]. split; [apply Hrand|].
    destruct (SlotOK_false E j w (SlotOK_refused E j ty w Hty Ha)) as (_ & _ & _ & -> & _).
    unfold store_set. rewrite Nat.eqb_refl. reflexivity.
  - intros j w Hty. unfold SlotOK. rewrite Hty. reflexivity.
  - intros j rest ty w n Hw Hn Hdue Hc Hty Ha.
    assert (Href : (SlotOK E j (set_waiting rest (tick_up w))).1 = false).
    { apply (SlotOK_refused E j ty); [exact Hty | exact Ha]. }
    rewrite (_StartWork_body_reinserts E j rest w n Hw Hn Hdue Hc Href).
    destruct (SlotOK_false E j _ Href) as (ty' & _ & _ & Hjobs & Hwait & Hpool & _).
    cbn [fst snd jobs _waiting pool set_waiting].
    rewrite Hjobs, Hwait, Hpool. simpl.
    split; [reflexivity|]. split; [reflexivity|]. split; [reflexivity|].
    split; [apply elem_of_insort; left; reflexivity|].
    split; [rewrite insort_length, Hw; reflexivity|].
    unfold store_set. rewrite Nat.eqb_refl. simpl.
    apply IsDue_true in Hdue.
    pose proof (Hmono (tick w) (S (S (tick w))) ltac:(lia)).
    pose proof (Hrand (S (S (S (tick w))))). lra.
  - intros j ty fuel w Hin Hc Hty Hnever. unfold _StartWork.
    cut ((j ∈ _waiting (_StartWork_loop E fuel w 0).1.2
          /\ _is_cancelled (jobs (_StartWork_loop E fuel w 0).1.2 j) = false
          /\ _thread_slot_type (jobs (_StartWork_loop E fuel w 0).1.2 j) = Some ty)
         /\ (exists started,
               pool (_StartWork_loop E fuel w 0).1.2 = pool w ++ started /\ j ∉ started)
         /\ (_next_work_time (jobs w j)
             <= _next_work_time (jobs (_StartWork_loop E fuel w 0).1.2 j))%Q);
      [tauto|].
    apply (_StartWork_loop_invariant E
             (fun w' _ =>
                (j ∈ _waiting w' /\ _is_cancelled (jobs w' j) = false
                 /\ _thread_slot_type (jobs w' j) = Some ty)
                /\ (exists started, pool w' = pool w ++ started /\ j ∉ started)
                /\ (_next_work_time (jobs w j) <= _next_work_time (jobs w' j))%Q)).
    + intros w1 n1 c w' n' ((Hin1 & Hc1 & Hty1) & Hp1 & Hle1) Hstep.
      pose proof (body_step_static E _ _ _ _ _ j Hstep) as (Hsc & Hst & _).
      pose proof (body_step_due_time_grows E _ _ _ _ _ j Hmono
                    (fun a => proj1 (Hrand a)) Hstep) as Hgrow.
      split; [split; [|split; congruence]|split; [|lra]].
      * destruct Hstep as
          [ Hw | k rest Hw Hn | k rest Hw Hn Hdue | k rest Hw Hn Hdue Hck
          | k rest Hw Hn Hdue Hck Hok | k rest w3 Hw Hn Hdue Hck Hok Hw3 ];
          try exact Hin1.
        -- simpl. rewrite Hw in Hin1. apply elem_of_cons in Hin1.
           destruct Hin1 as [-> | H]; [congruence | exact H].
        -- rewrite StartWork_waiting, SlotOK_waiting. simpl.
           rewrite Hw in Hin1. apply elem_of_cons in Hin1.
           destruct Hin1 as [-> | H]; [|exact H].
           rewrite (SlotOK_refused E k ty) in Hok; [discriminate | exact Hty1 | apply Hnever].
        -- subst w3. simpl. rewrite SlotOK_waiting. simpl. apply elem_of_insort.
           rewrite Hw in Hin1. apply elem_of_cons in Hin1. tauto.
      * assert (Hpool : pool w' = pool w1
                        \/ exists k, k <> j /\ pool w' = pool w1 ++ [k]).
        { destruct Hstep as
            [ Hw | k rest Hw Hn | k rest Hw Hn Hdue | k rest Hw Hn Hdue Hck
            | k rest Hw Hn Hdue Hck Hok | k rest w3 Hw Hn Hdue Hck Hok Hw3 ];
            try (left; reflexivity).
          - destruct (StartWork_pool k (SlotOK E k (set_waiting rest (tick_up w1))).2)
              as [Hp | [_ Hp]]; rewrite Hp, SlotOK_pool; simpl; [left; reflexivity|].
            right. exists k. split; [|reflexivity]. intros ->.
            rewrite (SlotOK_refused E j ty) in Hok;
              [discriminate | exact Hty1 | apply Hnever].
          - left. subst w3. simpl. rewrite SlotOK_pool. reflexivity. }
        destruct Hp1 as (started & Hp1 & Hnin).
        destruct Hpool as [-> | (k & Hk & ->)]; [exists started; auto|].
        exists (started ++ [k]). rewrite Hp1, <- app_assoc. split; [reflexivity|].
        intros Hin'. apply elem_of_app in Hin'. destruct Hin' as [H | H].
        -- contradiction.
        -- apply list_elem_of_singleton in H. congruence.
    + split; [auto|]. split; [|lra].
      exists []. rewrite app_nil_r. split; [reflexivity|]. apply not_elem_of_nil.
Qed.

(** *** The pending collection stays sorted *)

(** C5, as amended. As long as no job is pending twice, the pending
    collection is sorted ascending by [_next_work_time] whenever no re-sort
    is pending: (1) [AddJob] keeps a sorted collection sorted; (2) so does
    the cancellation filter; (3) the sort pass leaves it sorted; (4) so does
    the reinsertion of a refused job that is not pending a second time;
    (5) over any run of operations on the scheduler and its jobs, each
    taken whole, during which no job is pending twice, every world the run
    goes through is sorted unless the re-sort flag is set. *)
Theorem pending_collection_sorted_unless_resort_pending (E : Env) :
  (forall job w, waiting_sorted w = true -> waiting_sorted (AddJob job w) = true)
  /\ (forall w, waiting_sorted w = true -> waiting_sorted (_FilterCancelled w) = true)
  /\ (forall w, waiting_sorted (_SortWaiting w) = true)
  /\ (forall job rest w n,
        _waiting w = job :: rest -> job ∉ rest ->
        waiting_sorted w = true ->
        n < 10 ->
        (IsDue E job w).1 = true ->
        _is_cancelled (jobs w job) = false ->
        (SlotOK E job (set_waiting rest (tick_up w))).1 = false ->
        waiting_sorted (_StartWork_body E w n).1.2 = true)
  /\ (forall ops w,
        Forall (fun w' => NoDup (_waiting w')) (worlds_of E ops w) ->
        sorted_unless_pending w ->
        Forall sorted_unless_pending (worlds_of E ops w)).
Proof.
  split; [|split; [|split; [|split]]].
  - apply AddJob_keeps_sorted.
  - apply _FilterCancelled_keeps_sorted.
  - apply _SortWaiting_sorts.
  - apply reinsertion_keeps_sorted.
  - apply worlds_of_sorted.
Qed.

(** *** The completion signal of a SingleJob *)

(** C4, as amended. (1) A fresh SingleJob is not complete. (2) After
    [Work] on a SingleJob the signal is set if [Work] returned, and is what
    it was if [Work] raised or is still waiting. (3) When the work callable
    returns, [Work] returns, the callable has been called once and the
    signal is set. (4) When the work callable raises, be it the shutdown
    signal or any other exception, [Work] raises the same, the callable has
    been called once, the cleanup has run, and the signal is what it was.
    (5) No operation on the scheduler and its jobs clears the signal. *)
Theorem work_complete_set_when_Work_returns (E : Env) :
  (forall now initial_delay, IsWorkComplete (SingleJob__init__ now initial_delay) = false)
  /\ (forall fuel self w wc,
        job_class (jobs w self) = SingleJobClass wc ->
        match (Work E fuel self w).1 with
        | Ok _ => IsWorkComplete (jobs (Work E fuel self w).2 self) = true
        | Raise _ => IsWorkComplete (jobs (Work E fuel self w).2 self) = wc
        | OutOfFuel => IsWorkComplete (jobs (Work E fuel self w).2 self) = wc
        end)
  /\ (forall fuel self w wc,
        job_class (jobs w self) = SingleJobClass wc ->
        _should_delay_on_wakeup (jobs w self) = false ->
        work_callable E (tick w) self = Returns ->
        (Work E fuel self w).1 = Ok tt
        /\ invoked (Work E fuel self w).2 = invoked w ++ [self]
        /\ IsWorkComplete (jobs (Work E fuel self w).2 self) = true)
  /\ (forall fuel self w wc e,
        job_class (jobs w self) = SingleJobClass wc ->
        _should_delay_on_wakeup (jobs w self) = false ->
        work_callable E (tick w) self = Raises e ->
        (Work E fuel self w).1 = Raise e
        /\ invoked (Work E fuel self w).2 = invoked w ++ [self]
        /\ _currently_working (jobs (Work E fuel self w).2 self) = false
        /\ IsWorkComplete (jobs (Work E fuel self w).2 self) = wc)
  /\ (forall ops w self,
        IsWorkComplete (jobs w self) = true ->
        IsWorkComplete (jobs (run_ops E ops w) self) = true).
Proof.
  split_and!.
  - reflexivity.
  - apply SingleJob_Work_work_complete.
  - intros fuel self w wc Ec Hd Hcall.
    pose proof (SingleJob_Work_work_complete E fuel self w wc Ec) as Hwc.
    unfold Work in *. rewrite Ec in *. unfold SingleJob_Work, bind, modify in *.
    rewrite (SchedulableJob_Work_no_delay E fuel self w Hd), Hcall in *.
    cbn [fst snd] in *. split_and!; [reflexivity | | exact Hwc].
    simpl. unfold release_slot. simpl.
    destruct (_thread_slot_type (jobs w self)); reflexivity.
  - intros fuel self w wc e Ec Hd Hcall.
    pose proof (SingleJob_Work_work_complete E fuel self w wc Ec) as Hwc.
    unfold Work in *. rewrite Ec in *. unfold SingleJob_Work, bind, modify in *.
    rewrite (SchedulableJob_Work_no_delay E fuel self w Hd), Hcall in *.
    cbn [fst snd] in *. split_and!; [reflexivity | | | exact Hwc].
    + simpl. unfold release_slot. simpl.
      destruct (_thread_slot_type (jobs w self)); reflexivity.
    + simpl. unfold store_set. rewrite Nat.eqb_refl. reflexivity.
  - apply run_ops_keep_work_complete.
Qed.

(** *** Shutdown during the wait after a wake from sleep *)

(** C9. When a job is set to wait after a wake from sleep and the wait sees
    the thread shutting down, [SchedulableJob.Work] returns without the work
    callable having been called, the slot is released if the job has a slot
    type, and [_currently_working] is cleared; on a SingleJob, [Work]
    returns too and the completion signal is set, the callable still not
    called. *)
Theorem shutdown_in_wake_delay_skips_the_work (E : Env) (fuel : nat) (self : JobRef)
    (w w1 : World) :
  _should_delay_on_wakeup (jobs w self) = true ->
  wake_delay E fuel w = (Ok ShutdownSeen, w1) ->
  (SchedulableJob_Work E fuel self w).1 = Ok tt
  /\ invoked (SchedulableJob_Work E fuel self w).2 = invoked w
  /\ released (SchedulableJob_Work E fuel self w).2
     = released w ++ match _thread_slot_type (jobs w self) with
                     | Some ty => [ty]
                     | None => []
                     end
  /\ _currently_working (jobs (SchedulableJob_Work E fuel self w).2 self) = false
  /\ (forall wc,
        job_class (jobs w self) = SingleJobClass wc ->
        (Work E fuel self w).1 = Ok tt
        /\ invoked (Work E fuel self w).2 = invoked w
        /\ IsWorkComplete (jobs (Work E fuel self w).2 self) = true).
Proof.
  intros Hd Hp.
  destruct (wake_delay_tick E fuel w) as [k Hk]. rewrite Hp in Hk. simpl in Hk. subst w1.
  pose proof (SchedulableJob_Work_shutdown_seen E fuel self w _ Hd Hp) as Hbase.
  assert (Hinv : invoked (update_job self (with_currently_working false)
                            (release_slot self (set_tick k w))) = invoked w).
  { simpl. unfold release_slot. simpl.
    destruct (_thread_slot_type (jobs w self)); reflexivity. }
  split_and!.
  - rewrite Hbase. reflexivity.
  - rewrite Hbase. exact Hinv.
  - rewrite Hbase. simpl. unfold release_slot. simpl.
    destruct (_thread_slot_type (jobs w self)); simpl; [reflexivity|].
    rewrite app_nil_r. reflexivity.
  - rewrite Hbase. simpl. unfold store_set. rewrite Nat.eqb_refl. reflexivity.
  - intros wc Ec.
    pose proof (SingleJob_Work_work_complete E fuel self w wc Ec) as Hwc.
    unfold Work in *. rewrite Ec in *. unfold SingleJob_Work, bind, modify in *.
    rewrite Hbase in *. cbn [fst snd] in *.
    split_and!; [reflexivity | exact Hinv | exact Hwc].
Qed.

(** *** A RepeatingJob reschedules itself *)


(** *** Concrete runs *)

Lemma refusing_env_clock a b :
  a <= b -> (GetNowFloat refusing_env a <= GetNowFloat refusing_env b)%Q.
Proof. intros H. simpl. rewrite <- Zle_Qle. lia. Qed.

Lemma refusing_env_random a : (0 <= random refusing_env a < 1)%Q.
Proof. simpl. split; reflexivity || discriminate. Qed.

(** Twelve jobs are due at once: one dispatch phase starts ten of them and
    leaves two pending. *)
Example _StartWork_twelve_due_jobs :
  (_StartWork refusing_env 100
     (set_waiting (seq 1 12) (JobScheduler__init__ sample_jobs))).1.1 = true
  /\ (_StartWork refusing_env 100
        (set_waiting (seq 1 12) (JobScheduler__init__ sample_jobs))).2 = 10
  /\ _waiting (_StartWork refusing_env 100
                 (set_waiting (seq 1 12) (JobScheduler__init__ sample_jobs))).1.2
     = [11; 12]
  /\ pool (_StartWork refusing_env 100
             (set_waiting (seq 1 12) (JobScheduler__init__ sample_jobs))).1.2
     = [1; 2; 3; 4; 5; 6; 7; 8; 9; 10].
Proof. split_and!; vm_compute; reflexivity. Qed.

Lemma steady_env_clock a b :
  a <= b -> (GetNowFloat steady_env a <= GetNowFloat steady_env b)%Q.
Proof. intros H. unfold Qle. simpl. lia. Qed.

(** [_StartWork_returns] at work: two jobs pending, a clock that advances
    by a hundredth of a second per reading, twelve readings at most. *)
Lemma _StartWork_returns_witness :
  (forall a b, a <= b -> (GetNowFloat steady_env a <= GetNowFloat steady_env b)%Q)
  /\ (forall a, (0 <= random steady_env a)%Q)
  /\ (forall a, tick two_pending <= a
                < tick two_pending + 4 * S (length (_waiting two_pending)) ->
                (GetNowFloat steady_env a
                 < GetNowFloat steady_env (tick two_pending) + 10)%Q)
  /\ S (length (_waiting two_pending)) <= 7
  /\ (_StartWork steady_env 7 two_pending).1.1 = true.
Proof.
  assert (H1 : forall a, (0 <= random steady_env a)%Q)
    by (intros a; simpl; discriminate).
  assert (H2 : forall a, tick two_pending <= a
                 < tick two_pending + 4 * S (length (_waiting two_pending)) ->
                 (GetNowFloat steady_env a
                  < GetNowFloat steady_env (tick two_pending) + 10)%Q).
  { intros a Ha. simpl in *. unfold Qlt. simpl. lia. }
  assert (H3 : S (length (_waiting two_pending)) <= 7) by (simpl; lia).
  split; [exact steady_env_clock|]. split; [exact H1|]. split; [exact H2|].
  split; [exact H3|].
  exact (proj1 (_StartWork_returns steady_env two_pending 7
                  steady_env_clock H1 H2 H3)).
Defined.

(** Three jobs due at 0, 5 and 1 are added in this order and dispatched
    once all are due: the pool receives them in the order 0, 1, 5 of
    their due times. *)
Example three_jobs_dispatch_order :
  _waiting three_pending = [0; 2; 1]
  /\ pool (run_ops raising_env [OpStartWork 5] three_pending) = [0; 2; 1].
Proof. split_and!; vm_compute; reflexivity. Qed.

(** [dispatched_job_is_earliest] at work on the first turn of that run. *)
Lemma dispatched_job_witness :
  waiting_sorted three_pending = true
  /\ pool (_StartWork_body raising_env three_pending O).1.2 = pool three_pending ++ [O]
  /\ forall k,
       k ∈ _waiting (_StartWork_body raising_env three_pending O).1.2 ->
       (_next_work_time (jobs (_StartWork_body raising_env three_pending O).1.2 O)
        <= _next_work_time (jobs (_StartWork_body raising_env three_pending O).1.2 k))%Q.
Proof.
  split; [reflexivity|]. split; [reflexivity|].
  exact (dispatched_job_is_earliest raising_env three_pending 0 0 eq_refl eq_refl).
Defined.


(** The third part of C3 at work: job 0, with slot type 7, is at the head
    of the collection and due; the controller refuses; after the turn its
    due time is later than before. *)
Lemma refused_job_witness :
  (forall a b, a <= b -> (GetNowFloat refusing_env a <= GetNowFloat refusing_env b)%Q)
  /\ (forall a, (0 <= random refusing_env a < 1)%Q)
  /\ (_next_work_time (jobs two_pending O)
      < _next_work_time (jobs (_StartWork_body refusing_env two_pending O).1.2 O))%Q.
Proof.
  split; [exact refusing_env_clock|]. split; [exact refusing_env_random|].
  destruct (refused_job_is_rescheduled_and_kept refusing_env
              refusing_env_clock refusing_env_random) as (_ & _ & H3 & _).
  apply (H3 0 [1] 7 two_pending 0); solve [reflexivity | lia].
Defined.

(** The last part of C5 at work, over a run that adds two jobs, wakes one,
    sorts, dispatches, cancels and filters. *)
Lemma pending_collection_sorted_witness :
  Forall (fun w' => NoDup (_waiting w'))
    (worlds_of refusing_env
       [OpAddJob 2; OpAddJob 0; OpWake 2 (Some 3%Q); OpSortWaiting; OpStartWork 5;
        OpCancel 0; OpFilterCancelled]
       (JobScheduler__init__ sample_jobs))
  /\ sorted_unless_pending (JobScheduler__init__ sample_jobs)
  /\ Forall sorted_unless_pending
       (worlds_of refusing_env
          [OpAddJob 2; OpAddJob 0; OpWake 2 (Some 3%Q); OpSortWaiting; OpStartWork 5;
           OpCancel 0; OpFilterCancelled]
          (JobScheduler__init__ sample_jobs)).
Proof.
  assert (Hnd : Forall (fun w' => NoDup (_waiting w'))
                  (worlds_of refusing_env
                     [OpAddJob 2; OpAddJob 0; OpWake 2 (Some 3%Q); OpSortWaiting;
                      OpStartWork 5; OpCancel 0; OpFilterCancelled]
                     (JobScheduler__init__ sample_jobs))).
  { cbn [worlds_of].
    repeat (apply List.Forall_cons;
            [cbv beta; apply (bool_decide_unpack _); vm_compute; exact I|]).
    apply List.Forall_nil. }
  assert (Hinit : sorted_unless_pending (JobScheduler__init__ sample_jobs)).
  { intros _. reflexivity. }
  split; [exact Hnd|]. split; [exact Hinit|].
  exact (proj2 (proj2 (proj2 (proj2
           (pending_collection_sorted_unless_resort_pending refusing_env))))
           _ _ Hnd Hinit).
Defined.

(** C5 as stated fails when a job is pending twice. Job 0 is added twice
    and job 1 once, all due at 0; the collection is sorted and no re-sort is
    pending. The dispatch phase pops job 0, the controller refuses its slot,
    [SlotOK] moves its due time to 13.5, which moves the due time of its
    other entry too, and the job is put back: the collection is [0; 1; 0]
    with due times 13.5, 0, 13.5, and the re-sort flag is still clear. *)
Lemma pending_collection_unsorted_when_job_pending_twice :
  _waiting (run_ops refusing_env [OpAddJob 0; OpAddJob 0; OpAddJob 1]
              (JobScheduler__init__ sample_jobs)) = [0; 0; 1]
  /\ waiting_sorted (run_ops refusing_env [OpAddJob 0; OpAddJob 0; OpAddJob 1]
                       (JobScheduler__init__ sample_jobs)) = true
  /\ _sort_needed (run_ops refusing_env [OpAddJob 0; OpAddJob 0; OpAddJob 1]
                     (JobScheduler__init__ sample_jobs)) = false
  /\ _waiting (run_ops refusing_env
                 [OpAddJob 0; OpAddJob 0; OpAddJob 1; OpStartWork 5]
                 (JobScheduler__init__ sample_jobs)) = [0; 1; 0]
  /\ _sort_needed (run_ops refusing_env
                     [OpAddJob 0; OpAddJob 0; OpAddJob 1; OpStartWork 5]
                     (JobScheduler__init__ sample_jobs)) = false
  /\ map (fun j =>
            _next_work_time
              (jobs (run_ops refusing_env
                       [OpAddJob 0; OpAddJob 0; OpAddJob 1; OpStartWork 5]
                       (JobScheduler__init__ sample_jobs)) j))
         [0; 1; 0]
     = [(27 # 2)%Q; 0%Q; (27 # 2)%Q]
  /\ waiting_sorted (run_ops refusing_env
                       [OpAddJob 0; OpAddJob 0; OpAddJob 1; OpStartWork 5]
                       (JobScheduler__init__ sample_jobs)) = false.
Proof. split_and!; vm_compute; reflexivity. Qed.

(** C9 at work: two polls, the second sees the shutdown; a SingleJob ends
    complete, its callable never called, its slot released. *)
Lemma shutdown_in_wake_delay_witness :
  _should_delay_on_wakeup (jobs (JobScheduler__init__ single_jobs) 0) = true
  /\ wake_delay waking_env 2 (JobScheduler__init__ single_jobs)
     = (Ok ShutdownSeen, set_tick 4 (JobScheduler__init__ single_jobs))
  /\ (Work waking_env 2 0 (JobScheduler__init__ single_jobs)).1 = Ok tt
  /\ invoked (Work waking_env 2 0 (JobScheduler__init__ single_jobs)).2 = []
  /\ IsWorkComplete (jobs (Work waking_env 2 0 (JobScheduler__init__ single_jobs)).2 0)
     = true.
Proof.
  split; [reflexivity|]. split; [reflexivity|].
  exact (proj2 (proj2 (proj2 (proj2
           (shutdown_in_wake_delay_skips_the_work waking_env 2 0
              (JobScheduler__init__ single_jobs)
              (set_tick 4 (JobScheduler__init__ single_jobs))
              eq_refl eq_refl))))
           false eq_refl).
Defined.

(** C4 as stated fails when the work callable raises. The SingleJob has
    been dispatched and is not complete; the pool runs its [Work]; the
    callable is called, once, and raises; [SchedulableJob.Work] has no
    [except] clause, so the exception leaves [SingleJob.Work] before
    [self._work_complete.set()], and the job is still not complete. *)
Lemma work_complete_not_set_when_callable_raises :
  pool single_dispatched = [0]
  /\ IsWorkComplete (jobs single_dispatched 0) = false
  /\ (Work raising_env 1 0 single_dispatched).1 = Raise (OtherException 0)
  /\ invoked (Work raising_env 1 0 single_dispatched).2 = [0]
  /\ IsWorkComplete (jobs (Work raising_env 1 0 single_dispatched).2 0) = false.
Proof. split_and!; vm_compute; reflexivity. Qed.

(** The fourth part of C4 at work, on the same run. *)
Lemma work_complete_witness :
  job_class (jobs single_dispatched 0) = SingleJobClass false
  /\ _should_delay_on_wakeup (jobs single_dispatched 0) = false
  /\ work_callable raising_env (tick single_dispatched) 0 = Raises (OtherException 0)
  /\ (Work raising_env 1 0 single_dispatched).1 = Raise (OtherException 0)
  /\ invoked (Work raising_env 1 0 single_dispatched).2 = invoked single_dispatched ++ [0]
  /\ _currently_working (jobs (Work raising_env 1 0 single_dispatched).2 0) = false
  /\ IsWorkComplete (jobs (Work raising_env 1 0 single_dispatched).2 0) = false.
Proof.
  split; [reflexivity|]. split; [reflexivity|]. split; [reflexivity|].
  exact (proj1 (proj2 (proj2 (proj2 (work_complete_set_when_Work_returns raising_env))))
           1 0 single_dispatched false (OtherException 0) eq_refl eq_refl eq_refl).
Defined.

(** C1 at work: job 1 is cancelled while pending behind job 0; a dispatch
    phase and a filter pass later it has not reached the pool, and the
    phase alone has dropped it. *)
Lemma cancelled_job_witness :
  count_occ Nat.eq_dec
    (pool (run_ops raising_env [OpStartWork 5; OpFilterCancelled]
             (Cancel 1 two_pending))) 1 = 0
  /\ _waiting (run_ops raising_env [OpStartWork 5] (Cancel 1 two_pending)) = []
  /\ pool (run_ops raising_env [OpStartWork 5] (Cancel 1 two_pending)) = [0].
Proof.
  split; [|split; vm_compute; reflexivity].
  exact (proj1 (cancelled_job_is_never_dispatched raising_env 1 two_pending
                  [OpStartWork 5; OpFilterCancelled])).
Defined.

(** *** Where [AddJob] puts a job *)

(** Where [bisect.insort] puts an element of a sorted list: behind
    everything not above it, before everything above it. *)
Lemma insort_position h a x :
  StronglySorted (due_le h) a ->
  exists before after,
    a = before ++ after
    /\ insort (__lt__ h) a x = before ++ x :: after
    /\ Forall (fun k => due_le h k x) before
    /\ Forall (fun k => (_next_work_time (h x) < _next_work_time (h k))%Q) after.
Proof.
  intros Hs. destruct (bisect_right_spec h a x Hs) as (Hlen & Hleft & Hright).
  unfold insort, list_insert_at.
  set (i := bisect_right (__lt__ h) a x) in *.
  exists (take i a), (drop i a). split_and!.
  - symmetry. apply take_drop.
  - reflexivity.
  - rewrite Forall_forall. intros k Hk. apply elem_of_take in Hk.
    destruct Hk as (n & Hn & Hni). apply (Hleft n); assumption.
  - rewrite Forall_forall. intros k Hk. apply list_elem_of_lookup_1 in Hk.
    destruct Hk as [n Hn]. rewrite lookup_drop in Hn.
    apply lt_true. apply (Hright (i + n)); [lia | exact Hn].
Qed.

(** X13. [AddJob] on a sorted pending collection puts the job behind every
    pending job due no later than it and before every pending job due
    later, moves no other entry, changes no job and sets
    [_new_job_arrived]. So among jobs with the same due time the one added
    first is pending first, and is the first to be popped. *)
Theorem AddJob_puts_the_job_behind_those_due_no_later (job : JobRef) (w : World) :
  waiting_sorted w = true ->
  exists before after,
    _waiting w = before ++ after
    /\ _waiting (AddJob job w) = before ++ job :: after
    /\ Forall (fun k => (_next_work_time (jobs w k) <= _next_work_time (jobs w job))%Q) before
    /\ Forall (fun k => (_next_work_time (jobs w job) < _next_work_time (jobs w k))%Q) after
    /\ jobs (AddJob job w) = jobs w
    /\ _new_job_arrived (AddJob job w) = true.
Proof.
  intros Hs. apply waiting_sorted_spec in Hs.
  destruct (insort_position (jobs w) (_waiting w) job Hs) as (before & after & H1 & H2 & H3 & H4).
  exists before, after. split_and!; auto.
Qed.

(** The theorem at work: job 2, due at 1, is added behind job 0, due at 0,
    and before job 1, due at 5. *)
Lemma AddJob_witness :
  waiting_sorted (run_ops raising_env [OpAddJob 0; OpAddJob 1]
                    (JobScheduler__init__ three_jobs)) = true
  /\ exists before after,
       _waiting (run_ops raising_env [OpAddJob 0; OpAddJob 1]
                   (JobScheduler__init__ three_jobs)) = before ++ after
       /\ _waiting (AddJob 2 (run_ops raising_env [OpAddJob 0; OpAddJob 1]
                                (JobScheduler__init__ three_jobs)))
          = before ++ 2 :: after.
Proof.
  split; [reflexivity|].
  destruct (AddJob_puts_the_job_behind_those_due_no_later 2
              (run_ops raising_env [OpAddJob 0; OpAddJob 1]
                 (JobScheduler__init__ three_jobs)) eq_refl)
    as (before & after & H1 & H2 & _).
  exists before, after. split; [exact H1 | exact H2].
Defined.

(** *** What a dispatch phase does with the pending jobs *)

Section Dispatch.

Variable E : Env.

(** [job.StartWork()] in one line. *)
Lemma StartWork_spec self w :
  StartWork self w
  = if not_startable (jobs w self) then w
    else _BootWorker self (update_job self (with_currently_working true) w).
Proof.
  unfold StartWork, RepeatingJob_StartWork, SchedulableJob_StartWork, not_startable,
    IsRepeatingWorkFinished.
  destruct (job_class (jobs w self)) as [| wc | period [|]];
    destruct (_is_cancelled (jobs w self)); reflexivity.
Qed.

Lemma same_static_stopped j j' :
  same_static j j' -> IsRepeatingWorkFinished j' = IsRepeatingWorkFinished j.
Proof. intros (_ & _ & Hc & _). unfold IsRepeatingWorkFinished. rewrite Hc. reflexivity. Qed.

(** No turn of the dispatch loop clears [_currently_working]. *)
Lemma body_step_currently_working w n c w' n' r :
  body_step E w n c w' n' ->
  _currently_working (jobs w r) = true -> _currently_working (jobs w' r) = true.
Proof.
  intros Hstep Hcw. destruct Hstep as
    [ Hw | j rest Hw Hn | j rest Hw Hn Hdue | j rest Hw Hn Hdue Hc
    | j rest Hw Hn Hdue Hc Hok | j rest w3 Hw Hn Hdue Hc Hok Hw3 ]; try exact Hcw.
  - destruct (SlotOK_true E _ _ Hok) as (Hj & _).
    rewrite StartWork_spec.
    destruct (not_startable _); [rewrite Hj; exact Hcw|].
    simpl. rewrite Hj. simpl. unfold store_set.
    destruct (Nat.eqb r j); [reflexivity | exact Hcw].
  - subst w3. destruct (SlotOK_false E _ _ Hok) as (ty & _ & _ & Hj & _).
    simpl. rewrite Hj. simpl. unfold store_set.
    destruct (Nat.eqb_spec r j) as [-> | Hne]; [exact Hcw | exact Hcw].
Qed.

(** The turn that starts a job, read backwards from the pool. *)
Lemma body_step_started w n c w' n' j :
  body_step E w n c w' n' ->
  pool w' = pool w ++ [j] ->
  exists rest,
    _waiting w = j :: rest /\ n < 10 /\ n' = n + 1
    /\ (IsDue E j w).1 = true
    /\ _is_cancelled (jobs w j) = false
    /\ (SlotOK E j (set_waiting rest (tick_up w))).1 = true
    /\ w' = StartWork j (SlotOK E j (set_waiting rest (tick_up w))).2.
Proof.
  intros Hstep Hp.
  assert (Hno : pool w <> pool w ++ [j]).
  { intros H. apply (f_equal length) in H. rewrite length_app in H. simpl in H. lia. }
  destruct Hstep as
    [ Hw | j0 rest Hw Hn | j0 rest Hw Hn Hdue | j0 rest Hw Hn Hdue Hc
    | j0 rest Hw Hn Hdue Hc Hok | j0 rest w3 Hw Hn Hdue Hc Hok Hw3 ];
    try (simpl in Hp; congruence).
  - destruct (StartWork_pool j0 (SlotOK E j0 (set_waiting rest (tick_up w))).2)
      as [Hq | [_ Hq]]; rewrite Hq, SlotOK_pool in Hp; simpl in Hp; [congruence|].
    apply app_inv_head in Hp. inversion Hp; subst.
    exists rest. split_and!; auto.
  - subst w3. simpl in Hp. rewrite SlotOK_pool in Hp. simpl in Hp. congruence.
Qed.

(** [SlotOK] answers true for a job with a slot type only when the
    controller has granted the slot. *)
Lemma SlotOK_true_acquired self w ty :
  (SlotOK E self w).1 = true ->
  _thread_slot_type (jobs w self) = Some ty ->
  AcquireThreadSlot E (tick w) ty = true /\ tick (SlotOK E self w).2 = S (tick w).
Proof.
  unfold SlotOK. intros Hok Hty. rewrite Hty in *.
  destruct (AcquireThreadSlot E (tick w) ty); [auto | discriminate].
Qed.

(** What one turn does with the pending entries, the pool and the
    counter. *)
Lemma body_step_accounts w n c w' n' :
  body_step E w n c w' n' ->
  (_waiting w' = _waiting w /\ pool w' = pool w /\ n' = n)
  \/ (exists j, _waiting w ≡ₚ j :: _waiting w' /\ _is_cancelled (jobs w j) = true
                /\ pool w' = pool w /\ n' = n /\ jobs w' = jobs w)
  \/ (exists j, _waiting w ≡ₚ j :: _waiting w' /\ _is_cancelled (jobs w j) = false
                /\ n' = n + 1
                /\ pool w' = pool w ++ (if IsRepeatingWorkFinished (jobs w j) then [] else [j])
                /\ (IsRepeatingWorkFinished (jobs w j) = false ->
                    _currently_working (jobs w' j) = true))
  \/ (_waiting w ≡ₚ _waiting w' /\ pool w' = pool w /\ n' = n).
Proof.
  intros Hstep. destruct Hstep as
    [ Hw | j rest Hw Hn | j rest Hw Hn Hdue | j rest Hw Hn Hdue Hc
    | j rest Hw Hn Hdue Hc Hok | j rest w3 Hw Hn Hdue Hc Hok Hw3 ];
    try (left; auto; fail).
  - right. left. exists j. rewrite Hw. simpl. auto.
  - right. right. left. exists j.
    destruct (SlotOK_true E _ _ Hok) as (Hj & Hwt & Hp & _).
    rewrite StartWork_waiting, Hwt, Hw. simpl.
    split; [reflexivity|]. split; [exact Hc|]. split; [reflexivity|].
    rewrite StartWork_spec. unfold not_startable. rewrite Hj. simpl. rewrite Hc. simpl.
    destruct (IsRepeatingWorkFinished (jobs w j)).
    + rewrite Hp. simpl. rewrite app_nil_r. split; [reflexivity | discriminate].
    + simpl. rewrite Hp, Hj. simpl. split; [reflexivity|]. intros _.
      unfold store_set. rewrite Nat.eqb_refl. reflexivity.
  - right. right. right. subst w3. simpl. rewrite SlotOK_waiting, SlotOK_pool, Hw. simpl.
    split; [|auto]. symmetry. apply insort_Permutation.
Qed.

Lemma _StartWork_loop_accounts fuel w :
  exists dropped started,
    _waiting w ≡ₚ _waiting (_StartWork_loop E fuel w 0).1.2 ++ dropped ++ started
    /\ Forall (fun j => _is_cancelled (jobs w j) = true) dropped
    /\ Forall (fun j => _is_cancelled (jobs w j) = false) started
    /\ length started = (_StartWork_loop E fuel w 0).2
    /\ pool (_StartWork_loop E fuel w 0).1.2
       = pool w ++ List.filter (fun j => negb (IsRepeatingWorkFinished (jobs w j))) started
    /\ Forall (fun j => IsRepeatingWorkFinished (jobs w j) = false ->
                        _currently_working (jobs (_StartWork_loop E fuel w 0).1.2 j) = true)
              started.
Proof.
  cut ((forall r, same_static (jobs w r) (jobs (_StartWork_loop E fuel w 0).1.2 r))
       /\ exists dropped started,
            _waiting w ≡ₚ _waiting (_StartWork_loop E fuel w 0).1.2 ++ dropped ++ started
            /\ Forall (fun j => _is_cancelled (jobs w j) = true) dropped
            /\ Forall (fun j => _is_cancelled (jobs w j) = false) started
            /\ length started = (_StartWork_loop E fuel w 0).2
            /\ pool (_StartWork_loop E fuel w 0).1.2
               = pool w ++ List.filter (fun j => negb (IsRepeatingWorkFinished (jobs w j)))
                             started
            /\ Forall (fun j => IsRepeatingWorkFinished (jobs w j) = false ->
                         _currently_working (jobs (_StartWork_loop E fuel w 0).1.2 j) = true)
                      started); [tauto|].
  apply (_StartWork_loop_invariant E
           (fun w1 n1 =>
              (forall r, same_static (jobs w r) (jobs w1 r))
              /\ exists dropped started,
                   _waiting w ≡ₚ _waiting w1 ++ dropped ++ started
                   /\ Forall (fun j => _is_cancelled (jobs w j) = true) dropped
                   /\ Forall (fun j => _is_cancelled (jobs w j) = false) started
                   /\ length started = n1
                   /\ pool w1
                      = pool w ++ List.filter
                                    (fun j => negb (IsRepeatingWorkFinished (jobs w j)))
                                    started
                   /\ Forall (fun j => IsRepeatingWorkFinished (jobs w j) = false ->
                                       _currently_working (jobs w1 j) = true) started)).
  - intros w1 n1 c w' n' (Hst & dropped & started & Hperm & Hd & Hs & Hlen & Hpool & Hcw) Hstep.
    split.
    { intros r. eapply same_static_trans; [apply Hst|]. eapply body_step_static. exact Hstep. }
    assert (Hcw' : Forall (fun j => IsRepeatingWorkFinished (jobs w j) = false ->
                                    _currently_working (jobs w' j) = true) started).
    { eapply Forall_impl; [exact Hcw|]. simpl. intros j Hj Hf.
      eapply body_step_currently_working; [exact Hstep | auto]. }
    destruct (body_step_accounts _ _ _ _ _ Hstep)
      as [(Hw & Hp & ->) | [(j & Hw & Hc & Hp & -> & Hj) | [(j & Hw & Hc & -> & Hp & Hj)
         | (Hw & Hp & ->)]]].
    + exists dropped, started. rewrite Hw, Hp. split_and!; auto.
    + exists (j :: dropped), started. rewrite Hp. split_and!; auto.
      * rewrite Hperm, Hw. simpl. rewrite Permutation_middle. reflexivity.
      * apply List.Forall_cons; [|exact Hd].
        destruct (Hst j) as (H & _). congruence.
    + exists dropped, (started ++ [j]).
      destruct (Hst j) as (Hsc & _).
      assert (Hstop : IsRepeatingWorkFinished (jobs w1 j) = IsRepeatingWorkFinished (jobs w j))
        by (apply same_static_stopped; apply Hst).
      split_and!; auto.
      * rewrite Hperm, Hw. simpl. rewrite !app_assoc, <- Permutation_middle.
        rewrite app_nil_r. reflexivity.
      * apply Forall_app. split; [exact Hs|].
        apply List.Forall_cons; [congruence | apply List.Forall_nil].
      * rewrite length_app. simpl. lia.
      * rewrite Hp, Hpool, List.filter_app, <- app_assoc. simpl. rewrite Hstop.
        destruct (IsRepeatingWorkFinished (jobs w j)); reflexivity.
      * apply Forall_app. split; [exact Hcw'|].
        apply List.Forall_cons; [|apply List.Forall_nil].
        intros Hf. apply Hj. congruence.
    + exists dropped, started. rewrite Hp. split_and!; auto.
      rewrite Hperm, Hw. reflexivity.
  - split; [intros r; apply same_static_refl|].
    exists [], []. simpl. rewrite !app_nil_r. split_and!; auto.
Qed.

End Dispatch.

(** X14. A dispatch phase loses no job. For every call of [_StartWork],
    whatever turns its loop takes: the entries pending before the call are,
    counted with repeats, the entries pending after it, the entries it
    dropped and the entries it started; every dropped entry is a cancelled
    job and no started entry is; the counter [jobs_started] is the number
    of started entries; the pool has received, in the order of starting,
    the started jobs other than a RepeatingJob told to stop, and each of
    these is marked as working. When no job is told to stop without being
    cancelled, the pool has received exactly the started jobs. *)
Theorem _StartWork_accounts_for_every_job (E : Env) (fuel : nat) (w : World) :
  exists dropped started,
    _waiting w ≡ₚ _waiting (_StartWork E fuel w).1.2 ++ dropped ++ started
    /\ Forall (fun j => _is_cancelled (jobs w j) = true) dropped
    /\ Forall (fun j => _is_cancelled (jobs w j) = false) started
    /\ length started = (_StartWork E fuel w).2
    /\ pool (_StartWork E fuel w).1.2
       = pool w ++ List.filter (fun j => negb (IsRepeatingWorkFinished (jobs w j))) started
    /\ Forall (fun j => IsRepeatingWorkFinished (jobs w j) = false ->
                        _currently_working (jobs (_StartWork E fuel w).1.2 j) = true)
              started
    /\ (stopped_only_if_cancelled (jobs w) ->
        pool (_StartWork E fuel w).1.2 = pool w ++ started).
Proof.
  unfold _StartWork.
  destruct (_StartWork_loop_accounts E fuel w)
    as (dropped & started & Hperm & Hd & Hs & Hlen & Hpool & Hcw).
  exists dropped, started. split_and!; auto.
  intros Hinv. rewrite Hpool. f_equal.
  clear - Hs Hinv. induction Hs as [|j l Hj _ IH]; simpl; [reflexivity|].
  destruct (IsRepeatingWorkFinished (jobs w j)) eqn:Ef.
  - apply Hinv in Ef. congruence.
  - simpl. rewrite IH. reflexivity.
Qed.

(** *** What a dispatch phase starts *)

(** A time that has passed for a timestamp has passed for every earlier
    one. *)
Lemma TimeHasPassedFloat_earlier now t t' :
  (t <= t')%Q ->
  HydrusData.TimeHasPassedFloat now t' = true -> HydrusData.TimeHasPassedFloat now t = true.
Proof.
  unfold HydrusData.TimeHasPassedFloat. rewrite !Qle_bool_iff. intros. lra.
Qed.

Lemma fit_to_start_later E h first last last' j :
  last <= last' -> fit_to_start E h first last j -> fit_to_start E h first last' j.
Proof.
  intros Hle (Hc & (t & Ht & Hdue) & Hslot). split_and!.
  - exact Hc.
  - exists t. split; [lia | exact Hdue].
  - intros ty Hty. destruct (Hslot ty Hty) as (t' & Ht' & Ha).
    exists t'. split; [lia | exact Ha].
Qed.

Lemma _StartWork_loop_starts_fit E fuel w :
  (forall a b, a <= b -> (GetNowFloat E a <= GetNowFloat E b)%Q) ->
  (forall a, (0 <= random E a)%Q) ->
  exists started,
    pool (_StartWork_loop E fuel w 0).1.2 = pool w ++ started
    /\ Forall (fit_to_start E (jobs w) (tick w) (tick (_StartWork_loop E fuel w 0).1.2)) started.
Proof.
  intros Hmono Hrand.
  cut ((tick w <= tick (_StartWork_loop E fuel w 0).1.2
        /\ (forall r, same_static (jobs w r) (jobs (_StartWork_loop E fuel w 0).1.2 r))
        /\ (forall r, (_next_work_time (jobs w r)
                       <= _next_work_time (jobs (_StartWork_loop E fuel w 0).1.2 r))%Q))
       /\ exists started,
            pool (_StartWork_loop E fuel w 0).1.2 = pool w ++ started
            /\ Forall (fit_to_start E (jobs w) (tick w)
                         (tick (_StartWork_loop E fuel w 0).1.2)) started); [tauto|].
  apply (_StartWork_loop_invariant E
           (fun w1 _ =>
              (tick w <= tick w1
               /\ (forall r, same_static (jobs w r) (jobs w1 r))
               /\ (forall r, (_next_work_time (jobs w r) <= _next_work_time (jobs w1 r))%Q))
              /\ exists started,
                   pool w1 = pool w ++ started
                   /\ Forall (fit_to_start E (jobs w) (tick w) (tick w1)) started)).
  - intros w1 n1 c w' n' ((Ht & Hst & Hnwt) & started & Hpool & Hfit) Hstep.
    pose proof (body_step_tick E _ _ _ _ _ Hstep) as Ht'.
    assert (Hfit' : Forall (fit_to_start E (jobs w) (tick w) (tick w')) started).
    { eapply Forall_impl; [exact Hfit|]. intros j. apply fit_to_start_later. exact Ht'. }
    split.
    { split_and!.
      - lia.
      - intros r. eapply same_static_trans; [apply Hst|]. eapply body_step_static. exact Hstep.
      - intros r. pose proof (body_step_due_time_grows E _ _ _ _ _ r Hmono Hrand Hstep).
        specialize (Hnwt r). lra. }
    destruct (body_step_pool E _ _ _ _ _ Hstep)
      as [[Hp _] | (_ & _ & [Hp | (j & _ & Hp)])].
    + exists started. rewrite Hp. auto.
    + exists started. rewrite Hp. auto.
    + exists (started ++ [j]). rewrite Hp, Hpool, <- app_assoc. split; [reflexivity|].
      apply Forall_app. split; [exact Hfit'|].
      apply List.Forall_cons; [|apply List.Forall_nil].
      destruct (body_step_started E _ _ _ _ _ j Hstep Hp)
        as (rest & Hw & Hn & _ & Hdue & Hc & Hok & Hw').
      destruct (Hst j) as (Hsc & Hsty & _).
      assert (Htick : tick (SlotOK E j (set_waiting rest (tick_up w1))).2 <= tick w').
      { rewrite Hw', StartWork_tick. lia. }
      split_and!.
      * congruence.
      * exists (tick w1). split.
        -- pose proof (SlotOK_tick E j (set_waiting rest (tick_up w1))) as Hs.
           simpl in Hs. lia.
        -- apply (TimeHasPassedFloat_earlier _ _ (_next_work_time (jobs w1 j))); [apply Hnwt|].
           exact Hdue.
      * intros ty Hty.
        destruct (SlotOK_true_acquired E j (set_waiting rest (tick_up w1)) ty Hok)
          as (Ha & Hts); [simpl; congruence|].
        exists (S (tick w1)). simpl in Ha, Hts. split; [lia | exact Ha].
  - split; [split_and!; [lia | intros r; apply same_static_refl | intros r; lra]|].
    exists []. rewrite app_nil_r. split; [reflexivity | apply List.Forall_nil].
Qed.

(** X15. [_StartWork] hands to the pool only jobs that are fit to start.
    (1) A turn of its loop that hands a job to the pool has found the job at
    the head of the pending collection, due at the turn's reading of the
    clock and not cancelled, with fewer than 10 jobs started so far, and, if
    the job has a slot type, the controller has just granted a slot of that
    type. (2) With a clock that does not run backwards and a jitter that is
    not negative, every job that a call of [_StartWork] hands to the pool
    was not cancelled when the call began, the due time it had then had
    passed at one of the call's readings of the clock, and if it has a slot
    type a slot was granted at one of the call's readings. *)
Theorem _StartWork_starts_only_jobs_fit_to_start (E : Env) :
  (forall w n j,
     pool (_StartWork_body E w n).1.2 = pool w ++ [j] ->
     exists rest,
       _waiting w = j :: rest /\ n < 10
       /\ (IsDue E j w).1 = true
       /\ _is_cancelled (jobs w j) = false
       /\ (forall ty, _thread_slot_type (jobs w j) = Some ty ->
             AcquireThreadSlot E (S (tick w)) ty = true))
  /\ ((forall a b, a <= b -> (GetNowFloat E a <= GetNowFloat E b)%Q) ->
      (forall a, (0 <= random E a)%Q) ->
      forall fuel w,
      exists started,
        pool (_StartWork E fuel w).1.2 = pool w ++ started
        /\ Forall (fit_to_start E (jobs w) (tick w) (tick (_StartWork E fuel w).1.2)) started).
Proof.
  split.
  - intros w n j Hp.
    pose proof (_StartWork_body_step E w n) as Hstep.
    destruct (_StartWork_body E w n) as [[c w'] n']. simpl in *.
    destruct (body_step_started E _ _ _ _ _ j Hstep Hp)
      as (rest & Hw & Hn & _ & Hdue & Hc & Hok & _).
    exists rest. split_and!; auto.
    intros ty Hty.
    destruct (SlotOK_true_acquired E j (set_waiting rest (tick_up w)) ty Hok)
      as (Ha & _); [exact Hty | exact Ha].
  - intros Hmono Hrand fuel w. apply _StartWork_loop_starts_fit; assumption.
Qed.

Lemma raising_env_clock a b :
  a <= b -> (GetNowFloat raising_env a <= GetNowFloat raising_env b)%Q.
Proof. intros H. simpl. rewrite <- Zle_Qle. lia. Qed.

(** The second part at work, on the three jobs added above. *)
Lemma _StartWork_fit_witness :
  (forall a b, a <= b -> (GetNowFloat raising_env a <= GetNowFloat raising_env b)%Q)
  /\ (forall a, (0 <= random raising_env a)%Q)
  /\ exists started,
       pool (_StartWork raising_env 5 three_pending).1.2 = pool three_pending ++ started
       /\ Forall (fit_to_start raising_env (jobs three_pending) (tick three_pending)
                    (tick (_StartWork raising_env 5 three_pending).1.2)) started.
Proof.
  assert (H : forall a, (0 <= random raising_env a)%Q) by (intros a; simpl; discriminate).
  split; [exact raising_env_clock|]. split; [exact H|].
  exact (proj2 (_StartWork_starts_only_jobs_fit_to_start raising_env)
           raising_env_clock H 5 three_pending).
Defined.

(** *** The cleanup of [Work] *)

Section Cleanup.

Variable E : Env.

(** The list of slot types [Work] releases for a job. *)
Lemma release_slot_released self w :
  released (release_slot self w)
  = released w ++ match _thread_slot_type (jobs w self) with
                  | Some ty => [ty]
                  | None => []
                  end.
Proof.
  unfold release_slot. destruct (_thread_slot_type (jobs w self)); simpl;
    [reflexivity | rewrite app_nil_r; reflexivity].
Qed.

Lemma SchedulableJob_Work_cleans_up fuel self w :
  (SchedulableJob_Work E fuel self w).1 <> OutOfFuel ->
  let w' := (SchedulableJob_Work E fuel self w).2 in
  jobs w' self = with_currently_working false (jobs w self)
  /\ released w'
     = released w ++ match _thread_slot_type (jobs w self) with
                     | Some ty => [ty]
                     | None => []
                     end
  /\ (invoked w' = invoked w \/ invoked w' = invoked w ++ [self])
  /\ tick w <= tick w'.
Proof.
  intros Hne. cbv zeta.
  destruct (SchedulableJob_Work_shape E fuel self w)
    as [(k & Ho & _) | (k & w1 & _ & Hw1 & Hw')]; [contradiction|].
  assert (Hk : tick w <= k).
  { clear - Hw' Hw1.
    assert (Ht : tick (SchedulableJob_Work E fuel self w).2 = k).
    { rewrite Hw'. simpl. destruct (release_slot_frame self w1) as (_ & _ & _ & _ & _ & ->).
      destruct Hw1 as [-> | ->]; reflexivity. }
    subst k. unfold SchedulableJob_Work, try_finally, bind, get, SchedulableJob_Work_finally.
    destruct (_should_delay_on_wakeup (jobs w self)).
    - assert (Hwd : forall f w0, tick w0 <= tick (wake_delay E f w0).2).
      { induction f as [|f IH]; intros w0; simpl; [lia|].
        destruct (JustWokeFromSleep E (tick w0)); simpl; [|lia].
        destruct (IsThreadShuttingDown E (S (tick w0))); simpl; [lia|].
        specialize (IH (tick_up (tick_up w0))). simpl in IH. lia. }
      specialize (Hwd fuel w).
      destruct (wake_delay E fuel w) as [[[|] | e |] w2]; simpl in *;
        unfold call_work_callable, ret; simpl;
        try destruct (work_callable E (tick w2) self); simpl;
        rewrite ?(proj2 (proj2 (proj2 (proj2 (proj2 (release_slot_frame self _))))));
        simpl; lia.
    - unfold ret, call_work_callable. simpl.
      destruct (work_callable E (tick w) self); simpl;
        rewrite ?(proj2 (proj2 (proj2 (proj2 (proj2 (release_slot_frame self _))))));
        simpl; lia. }
  rewrite Hw'. destruct (release_slot_frame self w1) as (Hj & _ & _ & _ & Hi & Ht).
  rewrite jobs_update_job_same, Hj.
  cbn [released invoked tick update_job set_jobs]. rewrite release_slot_released, Hi, Ht.
  destruct Hw1 as [-> | ->]; simpl; split_and!; auto.
Qed.

End Cleanup.

(** X16. [Work] always cleans up. Whenever [job.Work()] has ended, by a
    return or by an exception of the work callable, for a job of any of the
    three classes: [_currently_working] is clear; [ReleaseThreadSlot] has
    been called exactly once with the job's slot type if it has one, and
    not at all if it has none; the work callable has been called once or,
    when the wait after a wake from sleep saw the thread shutting down, not
    at all; and nothing was handed to the pool. *)
Theorem Work_always_cleans_up (E : Env) (fuel : nat) (self : JobRef) (w : World) :
  (Work E fuel self w).1 <> OutOfFuel ->
  _currently_working (jobs (Work E fuel self w).2 self) = false
  /\ released (Work E fuel self w).2
     = released w ++ match _thread_slot_type (jobs w self) with
                     | Some ty => [ty]
                     | None => []
                     end
  /\ (invoked (Work E fuel self w).2 = invoked w
      \/ invoked (Work E fuel self w).2 = invoked w ++ [self])
  /\ pool (Work E fuel self w).2 = pool w.
Proof.
  intros Hne. split_and!; [| | |apply Work_pool].
  all: revert Hne; unfold Work, SingleJob_Work, RepeatingJob_Work, bind, modify;
    pose proof (SchedulableJob_Work_cleans_up E fuel self w) as Hb; cbv zeta in Hb;
    destruct (job_class (jobs w self)) as [| wc | period stop] eqn:Ec;
    destruct (SchedulableJob_Work E fuel self w) as [[[]| e |] w1]; cbn [fst snd] in *;
    intros Hne; try contradiction;
    destruct (Hb ltac:(discriminate)) as (Hj & Hr & Hi & _).
  all: try (rewrite Hj; reflexivity); try exact Hr; try exact Hi.
  - rewrite jobs_update_job_same, Hj. unfold set_work_complete. simpl.
    rewrite Ec. reflexivity.
  - rewrite Hj. simpl. rewrite Ec. destruct stop; [rewrite Hj; reflexivity|].
    simpl. unfold store_set. rewrite Nat.eqb_refl, Hj. reflexivity.
  - rewrite Hj. simpl. rewrite Ec. destruct stop; exact Hr.
  - rewrite Hj. simpl. rewrite Ec. destruct stop; exact Hi.
Qed.

(** The theorem at work on the dispatched SingleJob whose callable
    raises. *)
Lemma Work_cleanup_witness :
  (Work raising_env 1 0 single_dispatched).1 <> OutOfFuel
  /\ _currently_working (jobs (Work raising_env 1 0 single_dispatched).2 0) = false
  /\ released (Work raising_env 1 0 single_dispatched).2
     = released single_dispatched
       ++ match _thread_slot_type (jobs single_dispatched 0) with
          | Some ty => [ty]
          | None => []
          end.
Proof.
  assert (H : (Work raising_env 1 0 single_dispatched).1 <> OutOfFuel)
    by (vm_compute; discriminate).
  split; [exact H|].
  pose proof (Work_always_cleans_up raising_env 1 0 single_dispatched H) as (H1 & H2 & _).
  split; [exact H1 | exact H2].
Defined.

(** *** Looking at the head of the collection only *)

(** X17. On a sorted pending collection the look at the first entry is
    enough: [_NoWorkToStart] answers False exactly when some pending job is
    due at the reading of the clock it takes. *)
Theorem head_check_finds_due_work_on_a_sorted_collection (E : Env) (w : World) :
  waiting_sorted w = true ->
  (_NoWorkToStart E w).1 = false <-> exists j, j ∈ _waiting w /\ (IsDue E j w).1 = true.
Proof.
  intros Hs. apply waiting_sorted_spec in Hs. unfold _NoWorkToStart.
  destruct (_waiting w) as [|h rest] eqn:Hw.
  - simpl. split; [discriminate|]. intros (j & Hj & _). apply elem_of_nil in Hj. contradiction.
  - unfold IsDue. simpl. rewrite negb_false_iff. split.
    + intros Hdue. exists h. split; [left | exact Hdue].
    + intros (j & Hj & Hdue). apply elem_of_cons in Hj. destruct Hj as [-> | Hj]; [exact Hdue|].
      inversion Hs as [|? ? _ Hall]; subst. rewrite Forall_forall in Hall.
      apply (TimeHasPassedFloat_earlier _ _ (_next_work_time (jobs w j))); [|exact Hdue].
      apply Hall. exact Hj.
Qed.

(** The theorem at work on the three jobs added above, all due. *)
Lemma head_check_witness :
  waiting_sorted three_pending = true
  /\ (exists j, j ∈ _waiting three_pending /\ (IsDue raising_env j three_pending).1 = true)
  /\ (_NoWorkToStart raising_env three_pending).1 = false.
Proof.
  assert (H : exists j, j ∈ _waiting three_pending
                        /\ (IsDue raising_env j three_pending).1 = true).
  { exists 1. split; [|reflexivity].
    change (_waiting three_pending) with [0; 2; 1]. apply list_elem_of_In. simpl. auto. }
  split; [reflexivity|]. split; [exact H|].
  exact (proj2 (head_check_finds_due_work_on_a_sorted_collection raising_env three_pending
                  eq_refl) H).
Defined.

(** Without the order the look at the head misses due work: job 1, due at
    5, is pending before job 0, due at 0; at time 3 job 0 is due and
    [_NoWorkToStart] answers True. *)
Example head_check_misses_due_work_on_an_unsorted_collection :
  waiting_sorted (set_tick 2 (set_waiting [1; 0] (JobScheduler__init__ three_jobs))) = false
  /\ (IsDue raising_env 0
        (set_tick 2 (set_waiting [1; 0] (JobScheduler__init__ three_jobs)))).1 = true
  /\ (_NoWorkToStart raising_env
        (set_tick 2 (set_waiting [1; 0] (JobScheduler__init__ three_jobs)))).1 = true.
Proof. split_and!; vm_compute; reflexivity. Qed.

(** *** Jobs told to stop *)

Section Stop.

Variable E : Env.

(** The one operation that sets [_stop_repeating] on a job is its
    [Cancel]. *)
Lemma run_op_stop o w r :
  IsRepeatingWorkFinished (jobs (run_op E o w) r) = true ->
  IsRepeatingWorkFinished (jobs w r) = true \/ o = OpCancel r.
Proof.
  destruct o as [job | job | job t | job d | job ty | job v | | | fuel | fuel job];
    simpl; auto.
  - destruct (Nat.eq_dec r job) as [-> | Hne]; [auto|].
    unfold Cancel, RepeatingJob_Cancel, SchedulableJob_Cancel, set_stop_repeating.
    destruct (job_class (jobs w job)) eqn:Ec; simpl; unfold store_set;
      rewrite ?Nat.eqb_refl; simpl; rewrite ?Ec;
      destruct (Nat.eqb_spec r job); try contradiction; auto.
  - destruct t; simpl; unfold store_set; destruct (Nat.eqb_spec r job); subst; auto.
  - unfold Delay. destruct (job_class (jobs w job)) eqn:Ec; simpl; auto.
    unfold store_set; destruct (Nat.eqb_spec r job); subst; auto.
  - unfold store_set; destruct (Nat.eqb_spec r job); subst; auto.
  - unfold store_set; destruct (Nat.eqb_spec r job); subst; auto.
  - unfold run_cancel_filter. destruct (_cancel_filter_needed w); auto.
  - unfold run_sort. destruct (_sort_needed w); auto.
  - unfold _StartWork. rewrite (same_static_stopped _ _ (_StartWork_loop_static E fuel w 0 r)).
    auto.
  - destruct (Nat.eq_dec r job) as [-> | Hne].
    + destruct (Work_self E fuel job w) as (_ & _ & _ & _ & H & _). rewrite H. auto.
    + rewrite Work_other by exact Hne. auto.
Qed.

Lemma run_ops_stopped_only_if_cancelled ops w :
  stopped_only_if_cancelled (jobs w) ->
  stopped_only_if_cancelled (jobs (run_ops E ops w)).
Proof.
  revert w. induction ops as [|o ops IH]; intros w Hinv; simpl; [exact Hinv|].
  apply IH. intros r Hs. destruct (run_op_stop o w r Hs) as [H | ->].
  - apply run_op_keeps_cancelled. apply Hinv. exact H.
  - simpl. apply Cancel_sets_cancelled.
Qed.

End Stop.

(** X18. [_stop_repeating] is set only on a cancelled job. (1) A job fresh
    from any of the three constructors is neither cancelled nor told to
    stop. (2) If every job told to stop is cancelled, this is so after any
    run of operations on the scheduler and its jobs, and after
    [SetPeriod]. (3) Then [StartWork] on a job that is not cancelled marks
    it working and hands it to the pool: the test of [_stop_repeating] in
    [RepeatingJob.StartWork] never decides alone. *)
Theorem stop_repeating_is_set_only_on_a_cancelled_job (E : Env) :
  (forall now initial_delay period,
     not_startable (SchedulableJob__init__ now initial_delay) = false
     /\ not_startable (SingleJob__init__ now initial_delay) = false
     /\ not_startable (RepeatingJob__init__ now initial_delay period) = false)
  /\ (forall ops w,
        stopped_only_if_cancelled (jobs w) ->
        stopped_only_if_cancelled (jobs (run_ops E ops w)))
  /\ (forall self period w,
        stopped_only_if_cancelled (jobs w) ->
        stopped_only_if_cancelled (jobs (SetPeriod E self period w)))
  /\ (forall self w,
        stopped_only_if_cancelled (jobs w) ->
        _is_cancelled (jobs w self) = false ->
        StartWork self w = _BootWorker self (update_job self (with_currently_working true) w)).
Proof.
  split_and!.
  - intros. split_and!; reflexivity.
  - intros ops w. apply run_ops_stopped_only_if_cancelled.
  - intros self period w Hinv r. specialize (Hinv r). revert Hinv.
    unfold SetPeriod, IsRepeatingWorkFinished.
    destruct (job_class (jobs w self)) as [| wc | p stop] eqn:Ec; try exact (fun H => H).
    destruct (Qlt_bool 10 period); simpl; unfold store_set;
      destruct (Nat.eqb_spec r self) as [-> | Hne]; simpl; rewrite ?Ec; exact (fun H => H).
  - intros self w Hinv Hc. rewrite StartWork_spec. unfold not_startable. rewrite Hc. simpl.
    destruct (IsRepeatingWorkFinished (jobs w self)) eqn:Ef; [|reflexivity].
    apply Hinv in Ef. congruence.
Qed.

(** *** The scheduler's thread *)

Section SchedulerThread.

Variable E : Env.

Lemma _NoWorkToStart_world w :
  (_NoWorkToStart E w).2 = w \/ (_NoWorkToStart E w).2 = tick_up w.
Proof.
  unfold _NoWorkToStart. destruct (_waiting w); [left | right]; reflexivity.
Qed.

Lemma _GetLoopWaitTime_world w :
  (_GetLoopWaitTime E w).2 = w \/ (_GetLoopWaitTime E w).2 = tick_up w.
Proof.
  unfold _GetLoopWaitTime. destruct (_waiting w); [left | right]; reflexivity.
Qed.

(** What holds before the wait for work and is kept by a reading, by the
    two lazy passes and by the clearing of [_new_job_arrived] holds after
    the wait. *)
Lemma run_idle_invariant (P : World -> Prop) :
  (forall w, P w -> P (tick_up w)) ->
  (forall w, P w -> P (run_cancel_filter w)) ->
  (forall w, P w -> P (run_sort w)) ->
  (forall w, P w -> P (set_new_job_arrived false w)) ->
  forall fuel w, P w -> P (run_idle E fuel w).2.
Proof.
  intros Htick Hfilter Hsort Hclear.
  induction fuel as [|fuel IH]; intros w HP; simpl; [exact HP|].
  assert (HP1 : P (_NoWorkToStart E w).2)
    by (destruct (_NoWorkToStart_world w) as [-> | ->]; auto).
  destruct (_NoWorkToStart E w) as [no_work w1]. simpl in HP1.
  destruct no_work; [|exact HP1].
  destruct (IsThreadShuttingDown E (tick w1)); [simpl; auto|].
  destruct (_sort_needed (run_cancel_filter (tick_up w1))); [apply IH; auto|].
  assert (HP3 : P (_GetLoopWaitTime E (run_cancel_filter (tick_up w1))).2)
    by (destruct (_GetLoopWaitTime_world (run_cancel_filter (tick_up w1))) as [-> | ->]; auto).
  destruct (_GetLoopWaitTime E (run_cancel_filter (tick_up w1))) as [wait_time w3].
  apply IH. auto.
Qed.

(** The wait for work raises nothing. *)
Lemma run_idle_no_exception fuel w e : (run_idle E fuel w).1 <> Raise e.
Proof.
  revert w. induction fuel as [|fuel IH]; intros w; simpl; [discriminate|].
  destruct (_NoWorkToStart E w) as [[|] w1]; [|discriminate].
  destruct (IsThreadShuttingDown E (tick w1)); [discriminate|].
  destruct (_sort_needed (run_cancel_filter (tick_up w1))); [apply IH|].
  destruct (_GetLoopWaitTime E (run_cancel_filter (tick_up w1))) as [wait_time w3].
  apply IH.
Qed.

(** The [try] statement of [run]: what it answers and where it leaves the
    scheduler. *)
Lemma run_try_cases fuel w :
  (run_try E fuel w = (OutOfFuel, (run_idle E fuel w).2)
   /\ (run_idle E fuel w).1 = OutOfFuel)
  \/ (run_try E fuel w = (Ok ReturnFromRun, (run_idle E fuel w).2)
      /\ (run_idle E fuel w).1 = Ok ShutdownFound)
  \/ ((run_idle E fuel w).1 = Ok WorkIsDue
      /\ (run_try E fuel w).2 = (_StartWork E fuel (run_idle E fuel w).2).1.2
      /\ ((run_try E fuel w).1 = Ok NextTurn \/ (run_try E fuel w).1 = OutOfFuel)).
Proof.
  unfold run_try, try_except, bind, call_StartWork, ret.
  pose proof (run_idle_no_exception fuel w) as Hne.
  destruct (run_idle E fuel w) as [[[|] | e |] w1]; simpl in *.
  - right. right. split; [reflexivity|].
    destruct (_StartWork E fuel w1) as [[[|] w2] n]; simpl; auto.
  - right. left. auto.
  - exfalso. exact (Hne e eq_refl).
  - left. auto.
Qed.

(** What holds before [run] and is kept by each of its steps holds
    after. *)
Lemma run_invariant (P : World -> Prop) :
  (forall w, P w -> P (tick_up w)) ->
  (forall w, P w -> P (run_cancel_filter w)) ->
  (forall w, P w -> P (run_sort w)) ->
  (forall w, P w -> P (set_new_job_arrived false w)) ->
  (forall fuel w, P w -> P (_StartWork E fuel w).1.2) ->
  forall fuel w, P w -> P (run E fuel w).2.
Proof.
  intros Htick Hfilter Hsort Hclear Hstart.
  induction fuel as [|fuel IH]; intros w HP; [exact HP|].
  cbn [run]. unfold bind.
  pose proof (run_idle_invariant P Htick Hfilter Hsort Hclear fuel w HP) as Hidle.
  destruct (run_try_cases fuel w) as [(Ht & _) | [(Ht & _) | (_ & Hw & Hr)]].
  - rewrite Ht. exact Hidle.
  - rewrite Ht. exact Hidle.
  - assert (HP2 : P (run_try E fuel w).2) by (rewrite Hw; apply Hstart; exact Hidle).
    destruct (run_try E fuel w) as [r w2]. simpl in *.
    destruct Hr as [-> | ->]; [apply IH|]; exact HP2.
Qed.




End SchedulerThread.



(** *** What the scheduler's thread keeps *)

Section SchedulerInvariants.

Variable E : Env.

Lemma body_step_NoDup w n c w' n' :
  body_step E w n c w' n' -> NoDup (_waiting w) -> NoDup (_waiting w').
Proof.
  intros Hstep Hnd.
  destruct (body_step_accounts E _ _ _ _ _ Hstep)
    as [(Hw & _) | [(j & Hw & _) | [(j & Hw & _) | (Hw & _)]]].
  - rewrite Hw. exact Hnd.
  - rewrite Hw in Hnd. apply NoDup_cons in Hnd. tauto.
  - rewrite Hw in Hnd. apply NoDup_cons in Hnd. tauto.
  - rewrite <- Hw. exact Hnd.
Qed.

Lemma _StartWork_loop_NoDup fuel w n :
  NoDup (_waiting w) -> NoDup (_waiting (_StartWork_loop E fuel w n).1.2).
Proof.
  intros Hnd.
  apply (_StartWork_loop_invariant E (fun w' _ => NoDup (_waiting w'))); [|exact Hnd].
  intros w1 n1 c w' n' H Hstep. eapply body_step_NoDup; eauto.
Qed.

Lemma _StartWork_loop_pool_grows fuel w n :
  exists l, pool (_StartWork_loop E fuel w n).1.2 = pool w ++ l.
Proof.
  apply (_StartWork_loop_invariant E (fun w' _ => exists l, pool w' = pool w ++ l)).
  - intros w1 n1 c w' n' (l & Hl) Hstep.
    destruct (body_step_pool E _ _ _ _ _ Hstep)
      as [[Hp _] | (_ & _ & [Hp | (j & _ & Hp)])]; rewrite Hp, Hl.
    + exists l. reflexivity.
    + exists l. reflexivity.
    + exists (l ++ [j]). rewrite app_assoc. reflexivity.
  - exists []. rewrite app_nil_r. reflexivity.
Qed.

Lemma _StartWork_loop_waiting_subset fuel w n j :
  j ∈ _waiting (_StartWork_loop E fuel w n).1.2 -> j ∈ _waiting w.
Proof.
  apply (_StartWork_loop_invariant E (fun w' _ => j ∈ _waiting w' -> j ∈ _waiting w));
    [|auto].
  intros w1 n1 c w' n' H Hstep Hin. apply H.
  destruct (body_step_accounts E _ _ _ _ _ Hstep)
    as [(Hw & _) | [(k & Hw & _) | [(k & Hw & _) | (Hw & _)]]].
  - rewrite <- Hw. exact Hin.
  - rewrite Hw. right. exact Hin.
  - rewrite Hw. right. exact Hin.
  - rewrite Hw. exact Hin.
Qed.

Lemma run_cancel_filter_cases w :
  run_cancel_filter w = w
  \/ run_cancel_filter w = set_cancel_filter_needed false (_FilterCancelled w).
Proof. unfold run_cancel_filter. destruct (_cancel_filter_needed w); auto. Qed.

Lemma run_sort_cases w :
  run_sort w = w \/ run_sort w = set_sort_needed false (_SortWaiting w).
Proof. unfold run_sort. destruct (_sort_needed w); auto. Qed.

Lemma run_pool_cancelled fuel w j :
  _is_cancelled (jobs w j) = true ->
  count_occ Nat.eq_dec (pool (run E fuel w).2) j = count_occ Nat.eq_dec (pool w) j.
Proof.
  intros Hc.
  apply (run_invariant E
           (fun w' => _is_cancelled (jobs w' j) = true
                      /\ count_occ Nat.eq_dec (pool w') j = count_occ Nat.eq_dec (pool w) j));
    [| | | | |auto].
  - intros w1 H. exact H.
  - intros w1 H. destruct (run_cancel_filter_cases w1) as [-> | ->]; exact H.
  - intros w1 H. destruct (run_sort_cases w1) as [-> | ->]; exact H.
  - intros w1 H. exact H.
  - intros f w1 (H1 & H2). split.
    + apply (run_op_keeps_cancelled E (OpStartWork f)). exact H1.
    + rewrite <- H2. apply (run_op_pool_cancelled E (OpStartWork f)). exact H1.
Qed.

Lemma run_pool_grows fuel w : exists l, pool (run E fuel w).2 = pool w ++ l.
Proof.
  apply (run_invariant E (fun w' => exists l, pool w' = pool w ++ l)).
  - intros w1 H. exact H.
  - intros w1 H. destruct (run_cancel_filter_cases w1) as [-> | ->]; exact H.
  - intros w1 H. destruct (run_sort_cases w1) as [-> | ->]; exact H.
  - intros w1 H. exact H.
  - intros f w1 (l & Hl). destruct (_StartWork_loop_pool_grows f w1 0) as (l' & Hl').
    exists (l ++ l'). unfold _StartWork. rewrite Hl', Hl, app_assoc. reflexivity.
  - exists []. rewrite app_nil_r. reflexivity.
Qed.

Lemma run_waiting_subset fuel w j : j ∈ _waiting (run E fuel w).2 -> j ∈ _waiting w.
Proof.
  apply (run_invariant E (fun w' => j ∈ _waiting w' -> j ∈ _waiting w)); [| | | | |auto].
  - intros w1 H. exact H.
  - intros w1 H. destruct (run_cancel_filter_cases w1) as [-> | ->]; [exact H|].
    simpl. intros Hin. apply H. apply list_elem_of_In in Hin. apply filter_In in Hin.
    apply list_elem_of_In. tauto.
  - intros w1 H. destruct (run_sort_cases w1) as [-> | ->]; [exact H|].
    simpl. rewrite list_sort_Permutation. exact H.
  - intros w1 H. exact H.
  - intros f w1 H Hin. apply H. eapply _StartWork_loop_waiting_subset. exact Hin.
Qed.

Lemma run_sorted fuel w :
  NoDup (_waiting w) -> sorted_unless_pending w ->
  NoDup (_waiting (run E fuel w).2) /\ sorted_unless_pending (run E fuel w).2.
Proof.
  intros Hnd Hs.
  apply (run_invariant E (fun w' => NoDup (_waiting w') /\ sorted_unless_pending w'));
    [| | | | |auto].
  - intros w1 (H1 & H2). split; [exact H1|].
    apply (sorted_unless_pending_ext w1); auto.
  - intros w1 (H1 & H2).
    assert (Hnd' : NoDup (_waiting (run_cancel_filter w1))).
    { destruct (run_cancel_filter_cases w1) as [-> | ->]; [exact H1|].
      simpl. apply NoDup_ListNoDup. apply List.NoDup_filter. apply NoDup_ListNoDup. exact H1. }
    split; [exact Hnd'|]. apply (run_op_sorted E OpFilterCancelled); assumption.
  - intros w1 (H1 & H2).
    assert (Hnd' : NoDup (_waiting (run_sort w1))).
    { destruct (run_sort_cases w1) as [-> | ->]; [exact H1|].
      simpl. rewrite list_sort_Permutation. exact H1. }
    split; [exact Hnd'|]. apply (run_op_sorted E OpSortWaiting); assumption.
  - intros w1 (H1 & H2). split; [exact H1|].
    apply (sorted_unless_pending_ext w1); auto.
  - intros f w1 (H1 & H2).
    assert (Hnd' : NoDup (_waiting (_StartWork E f w1).1.2))
      by (apply _StartWork_loop_NoDup; exact H1).
    split; [exact Hnd'|]. apply (run_op_sorted E (OpStartWork f)); assumption.
Qed.

(** The turn that pops a due job and starts it. *)
Lemma _StartWork_body_starts j rest w n :
  _waiting w = j :: rest -> n < 10 ->
  (IsDue E j w).1 = true ->
  _is_cancelled (jobs w j) = false ->
  (SlotOK E j (set_waiting rest (tick_up w))).1 = true ->
  _StartWork_body E w n
  = (Continue, StartWork j (SlotOK E j (set_waiting rest (tick_up w))).2, n + 1).
Proof.
  intros Hw Hn Hdue Hc Hok.
  pose proof (_StartWork_body_step E w n) as Hstep.
  destruct (_StartWork_body E w n) as [[c w'] n']. simpl in Hstep.
  inversion Hstep as
    [ Hw0 | j0 rest0 Hw0 Hn0 | j0 rest0 Hw0 Hn0 Hdue0 | j0 rest0 Hw0 Hn0 Hdue0 Hc0
    | j0 rest0 Hw0 Hn0 Hdue0 Hc0 Hok0 | j0 rest0 w3 Hw0 Hn0 Hdue0 Hc0 Hok0 Hw3 ];
    subst; try congruence; try lia;
    rewrite Hw in Hw0; inversion Hw0; subst; try congruence.
Qed.

End SchedulerInvariants.

(** X20. What the scheduler's thread keeps, however long [run] goes on and
    whatever the clock and the controller answer: (1) a job that is
    cancelled when [run] begins is not handed to the pool; (2) the pool
    keeps what it held, in order, and only grows; (3) [run] adds no entry
    to the pending collection; (4) if no job is pending twice and the
    collection is sorted unless a re-sort is pending, both are so after
    [run]. *)
Theorem scheduler_thread_keeps_the_invariants (E : Env) (fuel : nat) (w : World) :
  (forall j, _is_cancelled (jobs w j) = true ->
     count_occ Nat.eq_dec (pool (run E fuel w).2) j = count_occ Nat.eq_dec (pool w) j)
  /\ (exists started, pool (run E fuel w).2 = pool w ++ started)
  /\ (forall j, j ∈ _waiting (run E fuel w).2 -> j ∈ _waiting w)
  /\ (NoDup (_waiting w) -> sorted_unless_pending w ->
      NoDup (_waiting (run E fuel w).2) /\ sorted_unless_pending (run E fuel w).2).
Proof.
  split_and!.
  - intros j. apply run_pool_cancelled.
  - apply run_pool_grows.
  - intros j. apply run_waiting_subset.
  - apply run_sorted.
Qed.

(** X21. A due job at the head of the pending collection is handed to the
    pool in the first turn of [run]: when the first pending job is due at
    the two readings of the clock that [_NoWorkToStart] and [_StartWork]
    take, is neither cancelled nor told to stop, and has no slot type or is
    granted its slot, the pool receives it next, whatever happens
    afterwards. *)
Theorem due_job_at_the_head_is_handed_to_the_pool (E : Env) (fuel : nat) (w : World)
    (j : JobRef) (rest : list JobRef) :
  _waiting w = j :: rest ->
  (IsDue E j w).1 = true ->
  (IsDue E j (tick_up w)).1 = true ->
  not_startable (jobs w j) = false ->
  (forall ty, _thread_slot_type (jobs w j) = Some ty ->
     AcquireThreadSlot E (S (S (tick w))) ty = true) ->
  exists l, pool (run E (S (S fuel)) w).2 = pool w ++ j :: l.
Proof.
  intros Hw Hdue Hdue' Hns Hslot.
  apply orb_false_iff in Hns. destruct Hns as (Hc & Hstop).
  assert (Hidle : run_idle E (S fuel) w = (Ok WorkIsDue, tick_up w)).
  { simpl. unfold _NoWorkToStart. rewrite Hw. unfold IsDue in *. simpl in *.
    rewrite Hdue. reflexivity. }
  assert (Hok : (SlotOK E j (set_waiting rest (tick_up (tick_up w)))).1 = true).
  { unfold SlotOK. simpl. destruct (_thread_slot_type (jobs w j)) as [ty|] eqn:Hty;
      [|reflexivity]. rewrite (Hslot ty eq_refl). reflexivity. }
  assert (Hbody : _StartWork_body E (tick_up w) 0
                  = (Continue,
                     StartWork j (SlotOK E j (set_waiting rest (tick_up (tick_up w)))).2, 1)).
  { apply (_StartWork_body_starts E j rest (tick_up w) 0); auto. lia. }
  assert (Hpool : pool (StartWork j (SlotOK E j (set_waiting rest (tick_up (tick_up w)))).2)
                  = pool w ++ [j]).
  { destruct (SlotOK_true E _ _ Hok) as (Hj & _ & Hp & _).
    rewrite StartWork_spec. unfold not_startable. rewrite Hj. simpl. rewrite Hc, Hstop.
    simpl. rewrite Hp. reflexivity. }
  assert (Hstart : exists l, pool (_StartWork E (S fuel) (tick_up w)).1.2 = pool w ++ j :: l).
  { unfold _StartWork. cbn [_StartWork_loop]. rewrite Hbody.
    destruct (_StartWork_loop_pool_grows E fuel
                (StartWork j (SlotOK E j (set_waiting rest (tick_up (tick_up w)))).2) 1)
      as (l & Hl).
    exists l. rewrite Hl, Hpool, <- app_assoc. reflexivity. }
  destruct Hstart as (l & Hl).
  change (run E (S (S fuel)) w)
    with (bind (run_try E (S fuel))
               (fun t => match t with
                         | ReturnFromRun => ret tt
                         | NextTurn => run E (S fuel)
                         end) w).
  unfold bind.
  destruct (run_try_cases E (S fuel) w) as [(_ & Hi) | [(_ & Hi) | (_ & Hw2 & Hr)]];
    try (rewrite Hidle in Hi; discriminate).
  rewrite Hidle in Hw2. cbn [snd] in Hw2.
  destruct (run_try E (S fuel) w) as [r w2]. cbn [fst snd] in *. subst w2.
  destruct Hr as [-> | ->].
  - destruct (run_pool_grows E (S fuel) (_StartWork E (S fuel) (tick_up w)).1.2) as (l' & Hl').
    exists (l ++ l'). rewrite Hl', Hl, <- app_assoc. reflexivity.
  - exists l. exact Hl.
Qed.

(** The theorem at work: of the three jobs added above, job 0 is the first
    the pool receives. *)
Lemma due_job_witness :
  _waiting three_pending = [0; 2; 1]
  /\ (IsDue raising_env 0 three_pending).1 = true
  /\ (IsDue raising_env 0 (tick_up three_pending)).1 = true
  /\ not_startable (jobs three_pending 0) = false
  /\ exists l, pool (run raising_env 2 three_pending).2 = pool three_pending ++ O :: l.
Proof.
  split; [reflexivity|]. split; [reflexivity|]. split; [reflexivity|].
  split; [reflexivity|].
  apply (due_job_at_the_head_is_handed_to_the_pool raising_env 0 three_pending 0 [2; 1]);
    try reflexivity.
Defined.

(** *** A woken job is found *)

(** X22. [Wake()] on a pending job that is not cancelled gets the
    scheduler's thread out of its wait for work. The clock does not run
    backwards and has moved on when the thread looks again; the thread is
    not found shutting down in between. Then the wait for work that starts
    after the wake ends with work to start, after two looks at the
    collection at most: at the first the head may be due already; otherwise
    the re-sort that [Wake] asked for is done, the woken job is due and the
    head of the sorted collection is due no later. *)
Theorem woken_job_ends_the_wait_for_work (E : Env) (fuel : nat) (w : World) (j : JobRef) :
  (forall a b, a <= b -> (GetNowFloat E a <= GetNowFloat E b)%Q) ->
  (GetNowFloat E (tick w) < GetNowFloat E (S (S (S (tick w)))))%Q ->
  j ∈ _waiting w ->
  _is_cancelled (jobs w j) = false ->
  IsThreadShuttingDown E (S (S (tick w))) = false ->
  (run_idle E (S (S fuel)) (Wake E j None w)).1 = Ok WorkIsDue.
Proof.
  intros Hmono Hadv Hin Hc Hshut.
  set (w1 := Wake E j None w).
  assert (Hw1 : _waiting w1 = _waiting w) by reflexivity.
  assert (Ht1 : tick w1 = S (tick w)) by reflexivity.
  assert (Hs1 : _sort_needed w1 = true) by reflexivity.
  assert (Hj1 : _next_work_time (jobs w1 j) = GetNowFloat E (tick w)).
  { subst w1. simpl. unfold store_set. rewrite Nat.eqb_refl. reflexivity. }
  assert (Hc1 : forall r, _is_cancelled (jobs w1 r) = _is_cancelled (jobs w r)).
  { intros r. subst w1. simpl. unfold store_set. destruct (Nat.eqb_spec r j); subst; reflexivity. }
  clearbody w1.
  cbn [run_idle]. unfold _NoWorkToStart. rewrite Hw1.
  destruct (_waiting w) as [|h rest] eqn:Hw; [apply elem_of_nil in Hin; contradiction|].
  unfold IsDue at 1. cbn [fst snd].
  destruct (HydrusData.TimeHasPassedFloat (GetNowFloat E (tick w1)) (_next_work_time (jobs w1 h)));
    [reflexivity|].
  cbn [negb tick tick_up]. rewrite Ht1, Hshut.
  set (w2 := run_cancel_filter (tick_up (tick_up w1))).
  assert (Hs2 : _sort_needed w2 = true).
  { subst w2. unfold run_cancel_filter. destruct (_cancel_filter_needed _); exact Hs1. }
  assert (Hj2 : jobs w2 = jobs w1).
  { subst w2. unfold run_cancel_filter. destruct (_cancel_filter_needed _); reflexivity. }
  assert (Ht2 : tick w2 = S (S (S (tick w)))).
  { subst w2. unfold run_cancel_filter. destruct (_cancel_filter_needed _); simpl; lia. }
  assert (Hin2 : j ∈ _waiting w2).
  { subst w2. unfold run_cancel_filter.
    destruct (_cancel_filter_needed _); simpl; rewrite Hw1; [|exact Hin].
    apply list_elem_of_In. apply filter_In. split; [apply list_elem_of_In; exact Hin|].
    unfold IsCancelled. simpl. rewrite Hc1, Hc. reflexivity. }
  clearbody w2. rewrite Hs2.
  unfold run_sort. rewrite Hs2.
  set (w3 := set_sort_needed false (_SortWaiting w2)).
  assert (Hsorted : StronglySorted (due_le (jobs w2)) (_waiting w3))
    by (subst w3; simpl; apply list_sort_sorted).
  assert (Hin3 : j ∈ _waiting w3)
    by (subst w3; simpl; rewrite list_sort_Permutation; exact Hin2).
  assert (Hj3 : jobs w3 = jobs w2) by reflexivity.
  assert (Ht3 : tick w3 = tick w2) by reflexivity.
  clearbody w3.
  cbn [run_idle]. unfold _NoWorkToStart.
  destruct (_waiting w3) as [|h' rest'] eqn:Hw3; [apply elem_of_nil in Hin3; contradiction|].
  unfold IsDue. cbn [fst snd].
  assert (Hdue : HydrusData.TimeHasPassedFloat (GetNowFloat E (tick w3))
                   (_next_work_time (jobs w3 h')) = true).
  { apply (TimeHasPassedFloat_earlier _ _ (_next_work_time (jobs w3 j))).
    - rewrite Hj3. apply elem_of_cons in Hin3. destruct Hin3 as [-> | Hin3]; [lra|].
      inversion Hsorted as [|? ? _ Hall]; subst. rewrite Forall_forall in Hall.
      apply Hall. exact Hin3.
    - unfold HydrusData.TimeHasPassedFloat. apply Qle_bool_iff.
      rewrite Hj3, Hj2, Hj1, Ht3, Ht2. lra. }
  rewrite Hdue. reflexivity.
Qed.

(** The theorem at work: job 1, due at 5 and pending behind job 0, due at
    100, is woken at reading 0, when the clock shows 1. *)
Lemma woken_job_witness :
  (forall a b, a <= b -> (GetNowFloat raising_env a <= GetNowFloat raising_env b)%Q)
  /\ (GetNowFloat raising_env 0 < GetNowFloat raising_env 3)%Q
  /\ 1 ∈ _waiting (set_waiting [2; 1] (JobScheduler__init__ late_jobs))
  /\ (run_idle raising_env 2
        (Wake raising_env 1 None (set_waiting [2; 1] (JobScheduler__init__ late_jobs)))).1
     = Ok WorkIsDue.
Proof.
  assert (H1 : (GetNowFloat raising_env 0 < GetNowFloat raising_env 3)%Q) by reflexivity.
  assert (H2 : 1 ∈ _waiting (set_waiting [2; 1] (JobScheduler__init__ late_jobs)))
    by (apply list_elem_of_In; simpl; auto).
  split; [exact raising_env_clock|]. split; [exact H1|]. split; [exact H2|].
  exact (woken_job_ends_the_wait_for_work raising_env 0
           (set_waiting [2; 1] (JobScheduler__init__ late_jobs)) 1
           raising_env_clock H1 H2 eq_refl eq_refl).
Defined.

(** *** The period of a RepeatingJob *)

(** The due time a RepeatingJob that goes on gives itself after a run whose
    callable returned. *)
Lemma RepeatingJob_Work_next_due E fuel self w period :
  job_class (jobs w self) = RepeatingJobClass period false ->
  _should_delay_on_wakeup (jobs w self) = false ->
  work_callable E (tick w) self = Returns ->
  _next_work_time (jobs (Work E fuel self w).2 self)
  = (GetNowFloat E (S (tick w)) + period)%Q.
Proof.
  intros Ec Hd Hcall.
  unfold Work. rewrite Ec. unfold RepeatingJob_Work, bind, modify.
  rewrite (SchedulableJob_Work_no_delay E fuel self w Hd), Hcall.
  destruct (release_slot_frame self (set_invoked (invoked w ++ [self]) (tick_up w)))
    as (Hj & _ & _ & _ & _ & Ht).
  cbn [fst snd]. rewrite jobs_update_job_same, Hj. simpl. rewrite Ec. simpl.
  unfold store_set. rewrite Nat.eqb_refl. simpl. rewrite Ht. reflexivity.
Qed.

(** X23. [RepeatingJob.SetPeriod], with [random.random()] in [0, 1): the
    period stored is the period asked for when that is 10 seconds or less,
    and otherwise the period asked for plus a jitter of less than a second,
    never less; the job's due time, the pending collection and the re-sort
    flag are left alone, so the change does not move the run that is
    already scheduled; the next run that reschedules the job uses the
    stored period. *)
Theorem SetPeriod_takes_effect_at_the_next_run (E : Env) (self : JobRef) (period : Q)
    (w : World) (old_period : Q) (stop : bool) :
  job_class (jobs w self) = RepeatingJobClass old_period stop ->
  (0 <= random E (tick w) < 1)%Q ->
  exists stored,
    job_class (jobs (SetPeriod E self period w) self) = RepeatingJobClass stored stop
    /\ (period <= stored < period + 1)%Q
    /\ ((period <= 10)%Q -> stored = period)
    /\ _next_work_time (jobs (SetPeriod E self period w) self) = _next_work_time (jobs w self)
    /\ _waiting (SetPeriod E self period w) = _waiting w
    /\ _sort_needed (SetPeriod E self period w) = _sort_needed w
    /\ (forall fuel,
          stop = false ->
          _should_delay_on_wakeup (jobs w self) = false ->
          work_callable E (tick (SetPeriod E self period w)) self = Returns ->
          _next_work_time (jobs (Work E fuel self (SetPeriod E self period w)).2 self)
          = (GetNowFloat E (S (tick (SetPeriod E self period w))) + stored)%Q).
Proof.
  intros Ec Hrand.
  assert (Hshape :
    exists stored,
      job_class (jobs (SetPeriod E self period w) self) = RepeatingJobClass stored stop
      /\ (period <= stored < period + 1)%Q
      /\ ((period <= 10)%Q -> stored = period)
      /\ _next_work_time (jobs (SetPeriod E self period w) self) = _next_work_time (jobs w self)
      /\ _waiting (SetPeriod E self period w) = _waiting w
      /\ _sort_needed (SetPeriod E self period w) = _sort_needed w
      /\ _should_delay_on_wakeup (jobs (SetPeriod E self period w) self)
         = _should_delay_on_wakeup (jobs w self)).
  { unfold SetPeriod. rewrite Ec. destruct (Qlt_bool 10 period) eqn:Ep.
    - apply Qlt_bool_true in Ep. exists (period + random E (tick w))%Q.
      rewrite jobs_update_job_same. simpl. split_and!; try reflexivity; try lra.
    - apply Qlt_bool_false in Ep. exists period.
      rewrite jobs_update_job_same. simpl. split_and!; try reflexivity; try lra. }
  destruct Hshape as (stored & H1 & H2 & H3 & H4 & H5 & H6 & H7).
  exists stored. split_and!; auto; try apply H2.
  intros fuel -> Hd Hcall. apply RepeatingJob_Work_next_due; [exact H1 | congruence | exact Hcall].
Qed.

(** The theorem at work: a period of 20 is set on a RepeatingJob of period
    3; the jitter is one half. *)
Lemma SetPeriod_witness :
  job_class (jobs (JobScheduler__init__ repeating_jobs) 0) = RepeatingJobClass 3 false
  /\ (0 <= random refusing_env (tick (JobScheduler__init__ repeating_jobs)) < 1)%Q
  /\ exists stored,
       job_class (jobs (SetPeriod refusing_env 0 20 (JobScheduler__init__ repeating_jobs)) 0)
       = RepeatingJobClass stored false
       /\ (20 <= stored < 20 + 1)%Q.
Proof.
  split; [reflexivity|]. split; [apply refusing_env_random|].
  destruct (SetPeriod_takes_effect_at_the_next_run refusing_env 0 20
              (JobScheduler__init__ repeating_jobs) 3 false eq_refl
              (refusing_env_random _)) as (stored & H1 & H2 & _).
  exists stored. split; [exact H1 | exact H2].
Defined.

(** *** A backlog of due jobs *)

Lemma _StartWork_loop_backlog E fuel w n :
  all_ready E w -> n <= 10 ->
  length (take (10 - n) (_waiting w)) < fuel ->
  (_StartWork_loop E fuel w n).1.1 = true
  /\ (_StartWork_loop E fuel w n).2 = n + length (take (10 - n) (_waiting w))
  /\ pool (_StartWork_loop E fuel w n).1.2 = pool w ++ take (10 - n) (_waiting w)
  /\ _waiting (_StartWork_loop E fuel w n).1.2 = drop (10 - n) (_waiting w).
Proof.
  remember (_waiting w) as l eqn:Hl. revert fuel w n Hl.
  induction l as [|j rest IH]; intros fuel w n Hl Hready Hn Hfuel.
  - destruct fuel as [|fuel]; [simpl in Hfuel; lia|].
    cbn [_StartWork_loop]. unfold _StartWork_body. rewrite <- Hl.
    rewrite take_nil, drop_nil, app_nil_r. simpl. rewrite Nat.add_0_r. auto.
  - destruct (Nat.eq_dec n 10) as [-> | Hne].
    + destruct fuel as [|fuel]; [simpl in Hfuel; lia|].
      cbn [_StartWork_loop]. unfold _StartWork_body. rewrite <- Hl.
      change (10 <=? 10) with true. cbn [fst snd]. rewrite <- Hl.
      simpl. rewrite app_nil_r. auto.
    + assert (Hlt : n < 10) by lia.
      assert (Hsub : 10 - n = S (10 - (n + 1))) by lia.
      rewrite Hsub in *. cbn [take drop length] in *.
      destruct fuel as [|fuel]; [lia|].
      destruct (Hready j) as (Hns & Hty & Hdue); [rewrite <- Hl; left|].
      apply orb_false_iff in Hns. destruct Hns as (Hc & Hstop).
      assert (Hok : SlotOK E j (set_waiting rest (tick_up w))
                    = (true, set_waiting rest (tick_up w))).
      { unfold SlotOK. simpl. rewrite Hty. reflexivity. }
      assert (Hbody : _StartWork_body E w n
                      = (Continue, StartWork j (set_waiting rest (tick_up w)), n + 1)).
      { rewrite (_StartWork_body_starts E j rest w n); auto.
        - rewrite Hok. reflexivity.
        - unfold IsDue. simpl. apply Hdue. lia.
        - rewrite Hok. reflexivity. }
      cbn [_StartWork_loop]. rewrite Hbody.
      assert (Hstart : StartWork j (set_waiting rest (tick_up w))
                       = _BootWorker j (update_job j (with_currently_working true)
                                          (set_waiting rest (tick_up w)))).
      { rewrite StartWork_spec. unfold not_startable. simpl. rewrite Hc, Hstop. reflexivity. }
      rewrite Hstart.
      set (w1 := _BootWorker j (update_job j (with_currently_working true)
                                  (set_waiting rest (tick_up w)))).
      destruct (IH fuel w1 (n + 1)) as (H1 & H2 & H3 & H4).
      * reflexivity.
      * intros k Hk. destruct (Hready k) as (Hns' & Hty' & Hdue');
          [rewrite <- Hl; right; exact Hk|].
        subst w1. simpl. unfold store_set.
        destruct (Nat.eqb_spec k j) as [-> | Hkj].
        -- simpl. split_and!; [exact Hns' | exact Hty'|]. intros t Ht. apply Hdue'. lia.
        -- split_and!; [exact Hns' | exact Hty'|]. intros t Ht. apply Hdue'. lia.
      * lia.
      * subst w1. simpl. lia.
      * rewrite H1, H2, H3, H4. subst w1. simpl.
        split_and!; [reflexivity | lia | rewrite <- app_assoc; reflexivity | reflexivity].
Qed.

(** X27. A backlog is dispatched ten at a time, in the order of the
    pending collection. When every pending job is due from now on, is
    neither cancelled nor told to stop and has no slot type, one call of
    [_StartWork] returns after starting the first ten pending jobs, or all
    of them if there are fewer: it hands exactly these to the pool, in
    their order, and leaves the others pending, in their order. *)
Theorem _StartWork_starts_the_first_ten_due_jobs_in_order (E : Env) (fuel : nat)
    (w : World) :
  all_ready E w ->
  length (take 10 (_waiting w)) < fuel ->
  (_StartWork E fuel w).1.1 = true
  /\ (_StartWork E fuel w).2 = length (take 10 (_waiting w))
  /\ pool (_StartWork E fuel w).1.2 = pool w ++ take 10 (_waiting w)
  /\ _waiting (_StartWork E fuel w).1.2 = drop 10 (_waiting w).
Proof.
  intros Hready Hfuel. unfold _StartWork.
  destruct (_StartWork_loop_backlog E fuel w 0 Hready ltac:(lia) Hfuel) as (H1 & H2 & H3 & H4).
  auto.
Qed.

(** The theorem at work on twelve due jobs: ten are started, two stay. *)
Lemma backlog_witness :
  all_ready refusing_env twelve_pending
  /\ length (take 10 (_waiting twelve_pending)) < 11
  /\ pool (_StartWork refusing_env 11 twelve_pending).1.2
     = pool twelve_pending ++ take 10 (_waiting twelve_pending)
  /\ _waiting (_StartWork refusing_env 11 twelve_pending).1.2
     = drop 10 (_waiting twelve_pending).
Proof.
  assert (H1 : all_ready refusing_env twelve_pending).
  { intros j Hj.
    assert (Hj' : 1 <= j).
    { apply list_elem_of_In in Hj. apply in_seq in Hj. lia. }
    destruct j as [|j]; [lia|]. split_and!; reflexivity. }
  assert (H2 : length (take 10 (_waiting twelve_pending)) < 11) by (simpl; lia).
  split; [exact H1|]. split; [exact H2|].
  exact (proj2 (proj2 (_StartWork_starts_the_first_ten_due_jobs_in_order refusing_env 11
                         twelve_pending H1 H2))).
Defined.

(** *** The lazy passes of the idle thread *)

(** X28. The idle scheduler thread does the maintenance that was asked
    for. When the wait for work of [run] finds no work to start and the
    thread not shutting down, then, however long the wait goes on: both
    [_cancel_filter_needed] and [_sort_needed] are clear; if a filter pass
    had been asked for, no cancelled job is pending any more; every pending
    job that is not cancelled is still pending; if the collection was
    sorted unless a re-sort was pending, it is sorted; and no job and
    nothing in the pool has been touched. *)
Theorem idle_thread_does_the_lazy_maintenance (E : Env) (fuel : nat) (w : World) :
  (_NoWorkToStart E w).1 = true ->
  IsThreadShuttingDown E (tick (_NoWorkToStart E w).2) = false ->
  _cancel_filter_needed (run_idle E (S fuel) w).2 = false
  /\ _sort_needed (run_idle E (S fuel) w).2 = false
  /\ (_cancel_filter_needed w = true ->
      forall j, j ∈ _waiting (run_idle E (S fuel) w).2 -> _is_cancelled (jobs w j) = false)
  /\ (forall j, j ∈ _waiting w -> _is_cancelled (jobs w j) = false ->
        j ∈ _waiting (run_idle E (S fuel) w).2)
  /\ (sorted_unless_pending w -> waiting_sorted (run_idle E (S fuel) w).2 = true)
  /\ jobs (run_idle E (S fuel) w).2 = jobs w
  /\ pool (run_idle E (S fuel) w).2 = pool w.
Proof.
  intros Hno Hshut.
  set (Q := fun w0 : World =>
              _cancel_filter_needed w0 = false
              /\ _sort_needed w0 = false
              /\ (_cancel_filter_needed w = true ->
                  forall j, j ∈ _waiting w0 -> _is_cancelled (jobs w j) = false)
              /\ (forall j, j ∈ _waiting w -> _is_cancelled (jobs w j) = false ->
                    j ∈ _waiting w0)
              /\ (sorted_unless_pending w -> waiting_sorted w0 = true)
              /\ jobs w0 = jobs w
              /\ pool w0 = pool w).
  assert (Hkeep : forall f w0, Q w0 -> Q (run_idle E f w0).2).
  { intros f w0 HQ. apply (run_idle_invariant E Q); [| | | |exact HQ].
    - intros w1 H. exact H.
    - intros w1 H. pose proof H as (Hc & _). unfold run_cancel_filter. rewrite Hc. exact H.
    - intros w1 H. pose proof H as (_ & Hs & _). unfold run_sort. rewrite Hs. exact H.
    - intros w1 H. exact H. }
  change (Q (run_idle E (S fuel) w).2).
  cbn [run_idle].
  destruct (_NoWorkToStart_world E w) as [Hw1 | Hw1];
    destruct (_NoWorkToStart E w) as [no_work w1]; cbn [fst snd] in *; subst no_work w1;
    rewrite Hshut.
  all: match goal with
       | |- context [run_cancel_filter (tick_up ?x)] => set (wa := run_cancel_filter (tick_up x))
       end.
  all: assert (Ha : _cancel_filter_needed wa = false
                    /\ _sort_needed wa = _sort_needed w
                    /\ jobs wa = jobs w /\ pool wa = pool w
                    /\ (_waiting wa = _waiting w /\ _cancel_filter_needed w = false
                        \/ _waiting wa
                           = List.filter (fun j => negb (_is_cancelled (jobs w j))) (_waiting w)))
         by (subst wa; unfold run_cancel_filter; simpl;
             destruct (_cancel_filter_needed w) eqn:Ef; simpl; rewrite ?Ef; auto 10).
  all: clearbody wa; destruct Ha as (Ha1 & Ha2 & Ha3 & Ha4 & Ha5).
  all: assert (Hsub : forall j, j ∈ _waiting wa ->
                        j ∈ _waiting w
                        /\ (_cancel_filter_needed w = true -> _is_cancelled (jobs w j) = false))
         by (intros j Hj; destruct Ha5 as [(Hw & Hf) | Hw]; rewrite Hw in Hj;
             [split; [exact Hj | congruence]
             | apply list_elem_of_In in Hj; apply filter_In in Hj; destruct Hj as (Hj & Hc);
               apply negb_true_iff in Hc; split; [apply list_elem_of_In; exact Hj | auto]]).
  all: assert (Hsup : forall j, j ∈ _waiting w -> _is_cancelled (jobs w j) = false ->
                        j ∈ _waiting wa)
         by (intros j Hj Hc; destruct Ha5 as [(Hw & _) | Hw]; rewrite Hw; [exact Hj|];
             apply list_elem_of_In; apply filter_In; split;
             [apply list_elem_of_In; exact Hj | rewrite Hc; reflexivity]).
  all: assert (Hsorted : sorted_unless_pending w -> _sort_needed w = false ->
                         StronglySorted (due_le (jobs w)) (_waiting wa))
         by (intros Hinv Hf; specialize (Hinv Hf); apply waiting_sorted_spec in Hinv;
             destruct Ha5 as [(Hw & _) | Hw]; rewrite Hw; [exact Hinv|];
             apply filter_sorted; exact Hinv).
  all: destruct (_sort_needed wa) eqn:Es.
  all: try (apply Hkeep; unfold run_sort; rewrite Es; subst Q; cbv beta; simpl;
            split_and!; auto;
            [ intros Hf j Hj; rewrite list_sort_Permutation in Hj; apply Hsub; assumption
            | intros j Hj Hc; rewrite list_sort_Permutation; apply Hsup; assumption
            | intros _; apply waiting_sorted_spec; simpl; apply list_sort_sorted ]).
  all: destruct (_GetLoopWaitTime_world E wa) as [Hw3 | Hw3];
    destruct (_GetLoopWaitTime E wa) as [wait_time w3]; cbn [fst snd] in *; subst w3;
    apply Hkeep; subst Q; cbv beta; simpl; split_and!; auto;
    try (intros Hf j Hj; apply Hsub; assumption);
    try (intros Hinv; apply waiting_sorted_spec; simpl; rewrite Ha3; apply Hsorted;
         [exact Hinv | congruence]).
Qed.

(** The theorem at work: job 1 is cancelled while nothing is due; the idle
    thread takes it out of the collection. *)
Lemma idle_thread_witness :
  (_NoWorkToStart raising_env
     (Cancel 1 (set_waiting [2; 1] (JobScheduler__init__ late_jobs)))).1 = true
  /\ _cancel_filter_needed
       (run_idle raising_env 3
          (Cancel 1 (set_waiting [2; 1] (JobScheduler__init__ late_jobs)))).2 = false
  /\ _waiting (run_idle raising_env 3
                 (Cancel 1 (set_waiting [2; 1] (JobScheduler__init__ late_jobs)))).2 = [2].
Proof.
  split; [reflexivity|].
  split; [|vm_compute; reflexivity].
  exact (proj1 (idle_thread_does_the_lazy_maintenance raising_env 2
                  (Cancel 1 (set_waiting [2; 1] (JobScheduler__init__ late_jobs)))
                  eq_refl eq_refl)).
Defined.

End SchedulingProofs.

(** ** The periodic worker *)

Module DAEMONWorkerProofs.

Import DAEMONWorker.

Local Open Scope py_scope.

Section Run.

Variable E : Env.
Variable cfg : Config.

Lemma raises_shutdown_only_bind {A B : Type} (c : M State A) (k : A -> M State B) :
  raises_shutdown_only c -> (forall a, raises_shutdown_only (k a)) ->
  raises_shutdown_only (bind c k).
Proof.
  intros Hc Hk s. unfold bind. specialize (Hc s).
  destruct (c s) as [[a | e |] s1]; simpl in *.
  - apply Hk.
  - exact Hc.
  - exact I.
Qed.

Lemma raises_shutdown_only_ret {A : Type} (a : A) : raises_shutdown_only (@ret State A a).
Proof. intros s. exact I. Qed.

Lemma raises_shutdown_only_emit ev : raises_shutdown_only (emit ev).
Proof. intros s. exact I. Qed.

Lemma CheckIfThreadShuttingDown_shutdown_only :
  raises_shutdown_only (CheckIfThreadShuttingDown E).
Proof.
  intros s. unfold CheckIfThreadShuttingDown.
  destruct (IsThreadShuttingDown E (tick s)); simpl; [|exact I].
  split; [reflexivity|]. exists (log s). left. reflexivity.
Qed.

Lemma _DoAWait_loop_shutdown_only fuel time_to_start event_can_wake :
  raises_shutdown_only (_DoAWait_loop E fuel time_to_start event_can_wake).
Proof.
  induction fuel as [|fuel IH]; intros s; simpl.
  - exact I.
  - destruct (HydrusData.TimeHasPassed (GetNow E (tick s)) time_to_start); simpl; [exact I|].
    destruct event_can_wake.
    + destruct (event_wait E (S (tick s))); simpl; [exact I|].
      apply (raises_shutdown_only_bind (CheckIfThreadShuttingDown E)
               (fun _ => _DoAWait_loop E fuel time_to_start true)).
      * apply CheckIfThreadShuttingDown_shutdown_only.
      * intros _. exact IH.
    + apply (raises_shutdown_only_bind (CheckIfThreadShuttingDown E)
               (fun _ => _DoAWait_loop E fuel time_to_start false)).
      * apply CheckIfThreadShuttingDown_shutdown_only.
      * intros _. exact IH.
Qed.

Lemma _DoAWait_shutdown_only fuel wait_time event_can_wake :
  raises_shutdown_only (_DoAWait E fuel wait_time event_can_wake).
Proof.
  intros s. unfold _DoAWait. apply _DoAWait_loop_shutdown_only.
Qed.

Lemma _WaitUntilCanStart_shutdown_only fuel :
  raises_shutdown_only (_WaitUntilCanStart E fuel).
Proof.
  induction fuel as [|fuel IH]; simpl.
  - intros s. exact I.
  - apply raises_shutdown_only_bind.
    + intros s. exact I.
    + intros [|].
      * apply raises_shutdown_only_ret.
      * apply raises_shutdown_only_bind.
        -- apply CheckIfThreadShuttingDown_shutdown_only.
        -- intros _. exact IH.
Qed.

Lemma _DoPreCall_shutdown_only : raises_shutdown_only (_DoPreCall cfg).
Proof.
  unfold _DoPreCall. destruct (daemon_report_mode cfg).
  - apply raises_shutdown_only_emit.
  - apply raises_shutdown_only_ret.
Qed.

Lemma before_call_shutdown_only fuel : raises_shutdown_only (before_call E cfg fuel).
Proof.
  unfold before_call.
  repeat (apply raises_shutdown_only_bind;
          [first [ apply CheckIfThreadShuttingDown_shutdown_only
                 | apply _DoAWait_shutdown_only
                 | apply _WaitUntilCanStart_shutdown_only ]
          | intros _]).
  apply _DoPreCall_shutdown_only.
Qed.

(** What the inner [try] statement does, by what the callable does. *)
Lemma call_and_handle_spec s :
  call_and_handle E s
  = match callable E (tick s) with
    | Returns =>
        (Ok Next, {| tick := S (tick s); log := log s ++ [Called Returns] |})
    | Raises ShutdownException =>
        (Ok Return,
         {| tick := S (tick s); log := log s ++ [Called (Raises ShutdownException)] |})
    | Raises (OtherException tag) =>
        (Ok Next,
         {| tick := S (tick s);
            log := ((log s ++ [Called (Raises (OtherException tag))])
                    ++ [ShowText_encountered_an_exception])
                   ++ [ShowException (OtherException tag)] |})
    end.
Proof.
  unfold call_and_handle, try_except, bind, call_callable, ret, emit.
  destruct (callable E (tick s)) as [|[|tag]]; reflexivity.
Qed.

(** The inner [try] statement lets no exception out. *)
Lemma call_and_handle_Ok s :
  call_and_handle E s
  = (Ok (match callable E (tick s) with
         | Raises ShutdownException => Return
         | _ => Next
         end),
     (call_and_handle E s).2).
Proof.
  rewrite call_and_handle_spec. destruct (callable E (tick s)) as [|[|tag]]; reflexivity.
Qed.

Lemma returns_on_shutdown_only_bind {A : Type} (c : M State A) (k : A -> M State unit) :
  raises_shutdown_only c -> (forall a, returns_on_shutdown_only (k a)) ->
  returns_on_shutdown_only (bind c k).
Proof.
  intros Hc Hk s. unfold bind. specialize (Hc s).
  destruct (c s) as [[a | e |] s1]; simpl in *.
  - apply Hk.
  - exact Hc.
  - exact I.
Qed.

Lemma run_loop_returns_on_shutdown_only fuel :
  returns_on_shutdown_only (run_loop E cfg fuel).
Proof.
  induction fuel as [|fuel IH].
  - intros s. exact I.
  - cbn [run_loop]. apply returns_on_shutdown_only_bind.
    + apply before_call_shutdown_only.
    + intros _ s1.
      rewrite (bind_Ok _ _ _ _ _ (call_and_handle_Ok s1)).
      destruct (callable E (tick s1)) as [|[|tag]] eqn:Hc.
      * apply returns_on_shutdown_only_bind; [apply _DoAWait_shutdown_only|].
        intros _. exact IH.
      * simpl. rewrite call_and_handle_spec, Hc. simpl.
        exists (log s1). right. reflexivity.
      * apply returns_on_shutdown_only_bind; [apply _DoAWait_shutdown_only|].
        intros _. exact IH.
Qed.

Lemma run_returns_on_shutdown_only fuel s :
  match (run E cfg fuel s).1 with
  | Raise _ => False
  | Ok _ => ended_by_shutdown (run E cfg fuel s).2
  | OutOfFuel => True
  end.
Proof.
  assert (H : returns_on_shutdown_only
                (_DoAWait E fuel (_init_wait cfg) true ;;; run_loop E cfg fuel)).
  { apply returns_on_shutdown_only_bind; [apply _DoAWait_shutdown_only|].
    intros _. apply run_loop_returns_on_shutdown_only. }
  specialize (H s). unfold run, try_except.
  destruct ((_DoAWait E fuel (_init_wait cfg) true ;;; run_loop E cfg fuel) s)
    as [[u | e |] s1]; simpl in *; auto.
  destruct H as [-> He]. simpl. exact He.
Qed.

End Run.

(** C6. For every DAEMONWorker, whatever its waits, its controller and its
    work callable do: (1) when the callable raises an exception that is not
    the shutdown signal, the inner [try] logs it ([ShowText], then
    [ShowException]) and falls through; (2) the loop then goes on with the
    period wait and the next cycle; (3) [run] never ends by an exception;
    (4) when [run] returns, a shutdown signal is the last thing that
    happened, found at a checkpoint or raised by the callable. *)
Theorem work_exception_does_not_end_the_worker (E : Env) (cfg : Config) :
  (forall s tag,
     callable E (tick s) = Raises (OtherException tag) ->
     call_and_handle E s
     = (Ok Next,
        {| tick := S (tick s);
           log := ((log s ++ [Called (Raises (OtherException tag))])
                   ++ [ShowText_encountered_an_exception])
                  ++ [ShowException (OtherException tag)] |}))
  /\ (forall fuel s s1 tag,
        before_call E cfg fuel s = (Ok tt, s1) ->
        callable E (tick s1) = Raises (OtherException tag) ->
        run_loop E cfg (S fuel) s
        = (_DoAWait E fuel (_period cfg) true ;;; run_loop E cfg fuel)
            {| tick := S (tick s1);
               log := ((log s1 ++ [Called (Raises (OtherException tag))])
                       ++ [ShowText_encountered_an_exception])
                      ++ [ShowException (OtherException tag)] |})
  /\ (forall fuel s e, (run E cfg fuel s).1 <> Raise e)
  /\ (forall fuel s, (run E cfg fuel s).1 = Ok tt -> ended_by_shutdown (run E cfg fuel s).2).
Proof.
  split_and!.
  - intros s tag Hc. rewrite call_and_handle_spec, Hc. reflexivity.
  - intros fuel s s1 tag Hb Hc. cbn [run_loop]. rewrite (bind_Ok _ _ _ _ _ Hb).
    etransitivity;
      [eapply bind_Ok; rewrite call_and_handle_spec, Hc; reflexivity | reflexivity].
  - intros fuel s e He. pose proof (run_returns_on_shutdown_only E cfg fuel s) as H.
    rewrite He in H. exact H.
  - intros fuel s He. pose proof (run_returns_on_shutdown_only E cfg fuel s) as H.
    rewrite He in H. exact H.
Qed.

(** *** A concrete run *)

(** The worker calls, logs the exception, waits its period, calls again,
    logs again, and returns when a checkpoint finds it shutting down. *)
Example run_retries_after_exception :
  run failing_env short_period 20 {| tick := 0; log := [] |}
  = (Ok tt,
     {| tick := 32;
        log := [Called (Raises (OtherException 1));
                ShowText_encountered_an_exception;
                ShowException (OtherException 1);
                Called (Raises (OtherException 1));
                ShowText_encountered_an_exception;
                ShowException (OtherException 1);
                ShutdownChecked] |}).
Proof. vm_compute. reflexivity. Qed.

(** The second part of C6 at work, on the first cycle of that run. *)
Lemma work_exception_witness :
  before_call failing_env short_period 5 {| tick := 2; log := [] |}
  = (Ok tt, {| tick := 8; log := [] |})
  /\ callable failing_env 8 = Raises (OtherException 1)
  /\ run_loop failing_env short_period 6 {| tick := 2; log := [] |}
     = (_DoAWait failing_env 5 (_period short_period) true ;;;
        run_loop failing_env short_period 5)
         {| tick := 9;
            log := (([] ++ [Called (Raises (OtherException 1))])
                    ++ [ShowText_encountered_an_exception])
                   ++ [ShowException (OtherException 1)] |}.
Proof.
  split; [vm_compute; reflexivity|]. split; [reflexivity|].
  exact (proj1 (proj2 (work_exception_does_not_end_the_worker failing_env short_period))
           5 {| tick := 2; log := [] |} {| tick := 8; log := [] |} 1
           eq_refl eq_refl).
Defined.

(** *** What comes before a call *)

Section Gate.

Variable E : Env.
Variable cfg : Config.

Lemma CheckIfThreadShuttingDown_Ok s s1 :
  CheckIfThreadShuttingDown E s = (Ok tt, s1) ->
  IsThreadShuttingDown E (tick s) = false /\ s1 = tick_up s.
Proof.
  unfold CheckIfThreadShuttingDown.
  destruct (IsThreadShuttingDown E (tick s)); [discriminate|].
  intros H. inversion H. auto.
Qed.

Lemma CheckIfThreadShuttingDown_calls s :
  calls (CheckIfThreadShuttingDown E s).2 = calls s.
Proof.
  unfold CheckIfThreadShuttingDown, calls.
  destruct (IsThreadShuttingDown E (tick s)); simpl; [|reflexivity].
  rewrite List.filter_app. simpl. rewrite app_nil_r. reflexivity.
Qed.

(** A wait that returns has seen the start time pass, or, if the event can
    wake it, the event set; it has logged nothing. *)
Lemma _DoAWait_loop_Ok fuel time_to_start event_can_wake s s1 :
  _DoAWait_loop E fuel time_to_start event_can_wake s = (Ok tt, s1) ->
  log s1 = log s
  /\ exists t,
       tick s <= t /\ tick s1 = S t
       /\ (HydrusData.TimeHasPassed (GetNow E t) time_to_start = true
           \/ (event_can_wake = true /\ event_wait E t = true)).
Proof.
  revert s. induction fuel as [|fuel IH]; intros s; simpl; [discriminate|].
  destruct (HydrusData.TimeHasPassed (GetNow E (tick s)) time_to_start) eqn:Ep.
  - intros H. inversion H; subst. split; [reflexivity|].
    exists (tick s). auto.
  - destruct event_can_wake.
    + destruct (event_wait E (S (tick s))) eqn:Ee.
      * intros H. inversion H; subst. split; [reflexivity|].
        exists (S (tick s)). simpl. split; [lia|]. auto.
      * unfold bind.
        destruct (CheckIfThreadShuttingDown E (tick_up (tick_up s))) as [[[]| e |] s2] eqn:Ec;
          try discriminate.
        apply CheckIfThreadShuttingDown_Ok in Ec. destruct Ec as (_ & ->).
        intros H. apply IH in H. destruct H as (Hl & t & Ht & Hs1 & Hor).
        split; [exact Hl|]. exists t. simpl in Ht. split; [lia | auto].
    + unfold bind.
      destruct (CheckIfThreadShuttingDown E (tick_up s)) as [[[]| e |] s2] eqn:Ec;
        try discriminate.
      apply CheckIfThreadShuttingDown_Ok in Ec. destruct Ec as (_ & ->).
      intros H. apply IH in H. destruct H as (Hl & t & Ht & Hs1 & Hor).
      split; [exact Hl|]. exists t. simpl in Ht. split; [lia | auto].
Qed.

Lemma _DoAWait_loop_calls fuel time_to_start event_can_wake s :
  calls (_DoAWait_loop E fuel time_to_start event_can_wake s).2 = calls s.
Proof.
  revert s. induction fuel as [|fuel IH]; intros s; simpl; [reflexivity|].
  destruct (HydrusData.TimeHasPassed (GetNow E (tick s)) time_to_start); [reflexivity|].
  destruct event_can_wake.
  - destruct (event_wait E (S (tick s))); [reflexivity|].
    unfold bind.
    pose proof (CheckIfThreadShuttingDown_calls (tick_up (tick_up s))) as Hc.
    destruct (CheckIfThreadShuttingDown E (tick_up (tick_up s))) as [[[]| e |] s2];
      simpl in *; try exact Hc.
    rewrite IH. exact Hc.
  - unfold bind.
    pose proof (CheckIfThreadShuttingDown_calls (tick_up s)) as Hc.
    destruct (CheckIfThreadShuttingDown E (tick_up s)) as [[[]| e |] s2];
      simpl in *; try exact Hc.
    rewrite IH. exact Hc.
Qed.

Lemma _DoAWait_calls fuel wait_time event_can_wake s :
  calls (_DoAWait E fuel wait_time event_can_wake s).2 = calls s.
Proof. unfold _DoAWait. rewrite _DoAWait_loop_calls. reflexivity. Qed.

(** The poll of the controller returns after an answer that it is OK. *)
Lemma _WaitUntilCanStart_Ok fuel s s1 :
  _WaitUntilCanStart E fuel s = (Ok tt, s1) ->
  log s1 = log s
  /\ exists t, tick s <= t /\ tick s1 = S t /\ _ControllerIsOKWithIt E t = true.
Proof.
  revert s. induction fuel as [|fuel IH]; intros s; simpl; [discriminate|].
  unfold bind, _CanStart.
  destruct (_ControllerIsOKWithIt E (tick s)) eqn:Eok.
  - intros H. inversion H; subst. split; [reflexivity|]. exists (tick s). auto.
  - destruct (CheckIfThreadShuttingDown E (tick_up s)) as [[[]| e |] s2] eqn:Ec;
      try discriminate.
    apply CheckIfThreadShuttingDown_Ok in Ec. destruct Ec as (_ & ->).
    intros H. apply IH in H. destruct H as (Hl & t & Ht & Hs1 & Hok).
    split; [exact Hl|]. exists t. simpl in Ht. split; [lia | auto].
Qed.

Lemma _WaitUntilCanStart_calls fuel s :
  calls (_WaitUntilCanStart E fuel s).2 = calls s.
Proof.
  revert s. induction fuel as [|fuel IH]; intros s; simpl; [reflexivity|].
  unfold bind, _CanStart.
  destruct (_ControllerIsOKWithIt E (tick s)); [reflexivity|].
  pose proof (CheckIfThreadShuttingDown_calls (tick_up s)) as Hc.
  destruct (CheckIfThreadShuttingDown E (tick_up s)) as [[[]| e |] s2];
    simpl in *; try exact Hc.
  rewrite IH. exact Hc.
Qed.

(** While the controller never agrees, the poll does not return. *)
Lemma _WaitUntilCanStart_never_Ok fuel s :
  (forall n, _ControllerIsOKWithIt E n = false) ->
  (_WaitUntilCanStart E fuel s).1 <> Ok tt.
Proof.
  intros Hno H.
  destruct (_WaitUntilCanStart E fuel s) as [r s1] eqn:Ew. simpl in H. subst r.
  apply _WaitUntilCanStart_Ok in Ew. destruct Ew as (_ & t & _ & _ & Hok).
  rewrite Hno in Hok. discriminate.
Qed.

Lemma _DoPreCall_calls s : calls (_DoPreCall cfg s).2 = calls s.
Proof.
  unfold _DoPreCall, calls, emit, ret. destruct (daemon_report_mode cfg); simpl; [|reflexivity].
  rewrite List.filter_app. simpl. rewrite app_nil_r. reflexivity.
Qed.

Lemma before_call_calls fuel s : calls (before_call E cfg fuel s).2 = calls s.
Proof.
  unfold before_call, bind.
  pose proof (CheckIfThreadShuttingDown_calls s) as H1.
  destruct (CheckIfThreadShuttingDown E s) as [[[]| e |] s1]; simpl in *; try exact H1.
  pose proof (_DoAWait_calls fuel (_pre_call_wait cfg) false s1) as H2.
  destruct (_DoAWait E fuel (_pre_call_wait cfg) false s1) as [[[]| e |] s2];
    simpl in *; try congruence.
  pose proof (CheckIfThreadShuttingDown_calls s2) as H3.
  destruct (CheckIfThreadShuttingDown E s2) as [[[]| e |] s3]; simpl in *; try congruence.
  pose proof (_WaitUntilCanStart_calls fuel s3) as H4.
  destruct (_WaitUntilCanStart E fuel s3) as [[[]| e |] s4]; simpl in *; try congruence.
  pose proof (CheckIfThreadShuttingDown_calls s4) as H5.
  destruct (CheckIfThreadShuttingDown E s4) as [[[]| e |] s5]; simpl in *; try congruence.
  rewrite _DoPreCall_calls. congruence.
Qed.

(** What has happened when the statements before the call have all
    returned. *)
Lemma before_call_Ok fuel s s1 :
  before_call E cfg fuel s = (Ok tt, s1) ->
  exists t,
    tick s < t /\ tick s1 = S (S t)
    /\ IsThreadShuttingDown E (tick s) = false
    /\ _ControllerIsOKWithIt E t = true
    /\ IsThreadShuttingDown E (S t) = false
    /\ calls s1 = calls s.
Proof.
  intros H. pose proof (before_call_calls fuel s) as Hcalls. rewrite H in Hcalls.
  simpl in Hcalls. revert H. unfold before_call, bind.
  destruct (CheckIfThreadShuttingDown E s) as [[[]| e |] a1] eqn:E1; try discriminate.
  apply CheckIfThreadShuttingDown_Ok in E1. destruct E1 as (Hs0 & ->).
  destruct (_DoAWait E fuel (_pre_call_wait cfg) false (tick_up s)) as [[[]| e |] a2] eqn:E2;
    try discriminate.
  unfold _DoAWait in E2. apply _DoAWait_loop_Ok in E2.
  destruct E2 as (_ & t2 & Ht2 & Ha2 & _). simpl in Ht2.
  destruct (CheckIfThreadShuttingDown E a2) as [[[]| e |] a3] eqn:E3; try discriminate.
  apply CheckIfThreadShuttingDown_Ok in E3. destruct E3 as (_ & ->).
  destruct (_WaitUntilCanStart E fuel (tick_up a2)) as [[[]| e |] a4] eqn:E4; try discriminate.
  apply _WaitUntilCanStart_Ok in E4. destruct E4 as (_ & t & Ht & Ha4 & Hok). simpl in Ht.
  destruct (CheckIfThreadShuttingDown E a4) as [[[]| e |] a5] eqn:E5; try discriminate.
  apply CheckIfThreadShuttingDown_Ok in E5. destruct E5 as (Hs5 & ->).
  intros H. exists t. rewrite Ha4 in Hs5.
  assert (Htick : tick s1 = S (S t)).
  { unfold _DoPreCall, emit, ret in H. destruct (daemon_report_mode cfg);
      inversion H; subst; simpl; rewrite Ha4; reflexivity. }
  split_and!; auto. lia.
Qed.

Lemma call_and_handle_calls s : calls (call_and_handle E s).2 = S (calls s).
Proof.
  rewrite call_and_handle_spec. unfold calls.
  destruct (callable E (tick s)) as [|[|tag]]; simpl;
    rewrite !List.filter_app; simpl; rewrite ?app_nil_r, length_app; simpl; lia.
Qed.

(** While the controller never agrees, the loop calls nothing. *)
Lemma run_loop_never_calls fuel s :
  (forall n, _ControllerIsOKWithIt E n = false) ->
  calls (run_loop E cfg fuel s).2 = calls s.
Proof.
  intros Hno. destruct fuel as [|fuel]; [reflexivity|].
  cbn [run_loop]. unfold bind at 1.
  pose proof (before_call_calls fuel s) as Hc.
  destruct (before_call E cfg fuel s) as [[[]| e |] s1] eqn:Eb; simpl in *; try exact Hc.
  apply before_call_Ok in Eb. destruct Eb as (t & _ & _ & _ & Hok & _).
  rewrite Hno in Hok. discriminate.
Qed.

End Gate.

(** X7. The work callable of a DAEMONWorker is called only after the
    controller has agreed. (1) When the statements of the loop that come
    before the call have all returned, the last two readings were an answer
    of [_ControllerIsOKWithIt] that it is OK and a checkpoint that found the
    thread not shutting down, and the checkpoint at the head of the cycle
    found the same; no call was made meanwhile. (2) While the controller
    never agrees (a DAEMONBackgroundWorker at a time that is never good),
    [run] never calls the work callable, however long it runs. *)
Theorem callable_is_called_only_after_controller_agrees (E : Env) (cfg : Config) :
  (forall fuel s s1,
     before_call E cfg fuel s = (Ok tt, s1) ->
     exists t,
       tick s < t /\ tick s1 = S (S t)
       /\ IsThreadShuttingDown E (tick s) = false
       /\ _ControllerIsOKWithIt E t = true
       /\ IsThreadShuttingDown E (S t) = false
       /\ calls s1 = calls s)
  /\ ((forall n, _ControllerIsOKWithIt E n = false) ->
      forall fuel s, calls (run E cfg fuel s).2 = calls s).
Proof.
  split.
  - apply before_call_Ok.
  - intros Hno fuel s. unfold run, try_except, bind.
    pose proof (_DoAWait_calls E fuel (_init_wait cfg) true s) as H1.
    destruct (_DoAWait E fuel (_init_wait cfg) true s) as [[[]| e |] s1]; simpl in *.
    + pose proof (run_loop_never_calls E cfg fuel s1 Hno) as H2.
      destruct (run_loop E cfg fuel s1) as [[[]| [|tag] |] s2]; simpl in *; congruence.
    + destruct e; simpl; exact H1.
    + exact H1.
Qed.

(** The first part at work, on the first cycle of the run above: the
    controller agreed at reading 6, the checkpoint at reading 7 passed. *)
Lemma callable_gate_witness :
  before_call failing_env short_period 5 {| tick := 2; log := [] |}
  = (Ok tt, {| tick := 8; log := [] |})
  /\ exists t,
       2 < t /\ 8 = S (S t)
       /\ IsThreadShuttingDown failing_env 2 = false
       /\ _ControllerIsOKWithIt failing_env t = true
       /\ IsThreadShuttingDown failing_env (S t) = false
       /\ calls {| tick := 8; log := [] |} = calls {| tick := 2; log := [] |}.
Proof.
  split; [vm_compute; reflexivity|].
  exact (proj1 (callable_is_called_only_after_controller_agrees failing_env short_period)
           5 {| tick := 2; log := [] |} {| tick := 8; log := [] |} eq_refl).
Defined.

(** *** Shutdown before the first call *)

Lemma _DoAWait_first_turn (E : Env) fuel wait_time s :
  (forall n, tick s <= n -> IsThreadShuttingDown E n = true) ->
  exists s1,
    tick s <= tick s1
    /\ (_DoAWait E (S fuel) wait_time true s = (Ok tt, s1)
        \/ _DoAWait E (S fuel) wait_time true s = (Raise ShutdownException, s1)).
Proof.
  intros Hshut. unfold _DoAWait. cbn [_DoAWait_loop].
  destruct (HydrusData.TimeHasPassed _ _).
  - eexists. split; [|left; reflexivity]. simpl. lia.
  - destruct (event_wait E _).
    + eexists. split; [|left; reflexivity]. simpl. lia.
    + unfold bind, CheckIfThreadShuttingDown. rewrite Hshut by (simpl; lia).
      eexists. split; [|right; reflexivity]. simpl. lia.
Qed.

(** X8. A DAEMONWorker that is found shutting down from its first reading
    on never calls its work callable: [run] returns, at the first checkpoint
    at the latest, whatever the initial wait, the controller and the
    callable would do. *)
Theorem worker_shutting_down_from_the_start_never_calls (E : Env) (cfg : Config)
    (fuel : nat) (s : State) :
  (forall n, tick s <= n -> IsThreadShuttingDown E n = true) ->
  (run E cfg (S fuel) s).1 = Ok tt
  /\ calls (run E cfg (S fuel) s).2 = calls s.
Proof.
  intros Hshut.
  pose proof (_DoAWait_calls E (S fuel) (_init_wait cfg) true s) as Hc.
  destruct (_DoAWait_first_turn E fuel (_init_wait cfg) s Hshut) as (s1 & Ht & [Hw | Hw]);
    unfold run, try_except, bind; rewrite Hw in *; simpl in *.
  - cbn [run_loop]. unfold before_call, bind, CheckIfThreadShuttingDown.
    rewrite Hshut by exact Ht. simpl. split; [reflexivity|].
    unfold calls in *. simpl. rewrite List.filter_app. simpl. rewrite app_nil_r. exact Hc.
  - auto.
Qed.

(** The theorem at work: the sample worker, found shutting down from
    reading 30 on, is started at reading 30. *)
Lemma worker_shutting_down_witness :
  (forall n, 30 <= n -> IsThreadShuttingDown failing_env n = true)
  /\ (run failing_env short_period 1 {| tick := 30; log := [] |}).1 = Ok tt
  /\ calls (run failing_env short_period 1 {| tick := 30; log := [] |}).2 = 0.
Proof.
  assert (H : forall n, 30 <= n -> IsThreadShuttingDown failing_env n = true)
    by (intros n Hn; exact (proj2 (Nat.leb_le 30 n) Hn)).
  split; [exact H|].
  exact (worker_shutting_down_from_the_start_never_calls failing_env short_period 0
           {| tick := 30; log := [] |} H).
Defined.

(** *** The waits *)

(** X9. [_DoAWait]. (1) With [event_can_wake = False] (the wait before a
    call) the wait returns only once [HydrusData.TimeHasPassed] has answered
    true for the start time, the clock's first reading plus the wait time:
    a wake does not cut it short. (2) Such a wait never looks at the event:
    what it does is the same whatever the event's state. (3) With
    [event_can_wake = True], a wait that finds its start time not passed and
    the event set returns at once, before any shutdown checkpoint. (4) A
    wait that returns has logged nothing. *)
Theorem pre_call_wait_is_not_cut_short (E : Env) (fuel : nat) (wait_time : Z) (s : State) :
  (forall s1,
     _DoAWait E fuel wait_time false s = (Ok tt, s1) ->
     exists t,
       tick s < t /\ tick s1 = S t
       /\ HydrusData.TimeHasPassed (GetNow E t) (GetNow E (tick s) + wait_time) = true)
  /\ (forall event_wait',
        _DoAWait {| GetNow := GetNow E; event_wait := event_wait';
                    IsThreadShuttingDown := IsThreadShuttingDown E;
                    _ControllerIsOKWithIt := _ControllerIsOKWithIt E;
                    callable := callable E |} fuel wait_time false s
        = _DoAWait E fuel wait_time false s)
  /\ (HydrusData.TimeHasPassed (GetNow E (S (tick s))) (GetNow E (tick s) + wait_time) = false ->
      event_wait E (S (S (tick s))) = true ->
      _DoAWait E (S fuel) wait_time true s
      = (Ok tt, {| tick := S (S (S (tick s))); log := log s |}))
  /\ (forall event_can_wake s1,
        _DoAWait E fuel wait_time event_can_wake s = (Ok tt, s1) -> log s1 = log s).
Proof.
  split_and!.
  - intros s1 H. unfold _DoAWait in H. apply _DoAWait_loop_Ok in H.
    destruct H as (_ & t & Ht & Hs1 & [Hp | (Hf & _)]); [|discriminate].
    exists t. simpl in Ht. split; [lia | auto].
  - intros event_wait'. unfold _DoAWait. simpl.
    generalize (GetNow E (tick s) + wait_time)%Z. intros time_to_start.
    generalize (tick_up s). clear s. induction fuel as [|fuel IH]; intros s; simpl.
    + reflexivity.
    + destruct (HydrusData.TimeHasPassed (GetNow E (tick s)) time_to_start); [reflexivity|].
      unfold bind, CheckIfThreadShuttingDown. simpl.
      destruct (IsThreadShuttingDown E (S (tick s))); [reflexivity|]. apply IH.
  - intros Hp He. unfold _DoAWait. cbn [_DoAWait_loop]. simpl. rewrite Hp, He. reflexivity.
  - intros event_can_wake s1 H. unfold _DoAWait in H. apply _DoAWait_loop_Ok in H.
    destruct H as (Hl & _). exact Hl.
Qed.

End DAEMONWorkerProofs.

(** ** The queue worker *)

Module THREADCallToThreadProofs.

Import THREADCallToThread.

Lemma called_app_Called (l : list event) item o :
  map (fun ev => match ev with Called i _ => i | _ => 0 end)
      (List.filter (fun ev => match ev with Called _ _ => true | _ => false end)
                   (l ++ [Called item o]))
  = map (fun ev => match ev with Called i _ => i | _ => 0 end)
        (List.filter (fun ev => match ev with Called _ _ => true | _ => false end) l)
    ++ [item].
Proof. rewrite List.filter_app, map_app. reflexivity. Qed.

Lemma called_app_other (l : list event) ev :
  match ev with Called _ _ => False | _ => True end ->
  map (fun ev => match ev with Called i _ => i | _ => 0 end)
      (List.filter (fun ev => match ev with Called _ _ => true | _ => false end)
                   (l ++ [ev]))
  = map (fun ev => match ev with Called i _ => i | _ => 0 end)
        (List.filter (fun ev => match ev with Called _ _ => true | _ => false end) l).
Proof.
  intros H. rewrite List.filter_app, map_app.
  destruct ev; simpl; try contradiction; apply app_nil_r.
Qed.

Section Run.

Variable E : Env.

(** The [try] statement on a queue that holds an item: the item is taken,
    its callable is called once, and whatever the callable does (return,
    raise the shutdown signal, raise anything else) the [finally] block
    clears the busy flag. No exception leaves the statement. *)
Lemma dequeue_and_call_Got s item rest :
  _queue s = item :: rest ->
  exists r s',
    dequeue_and_call E s = (Ok r, s')
    /\ (r = FallThrough \/ r = ReturnFromRun)
    /\ _queue s' = rest
    /\ _currently_working s' = false
    /\ thread s' = thread s
    /\ called s' = called s ++ [item].
Proof.
  intros Hq.
  unfold dequeue_and_call, dequeue_and_call_with, source_get, Queue_get. rewrite Hq.
  unfold try_finally, try_except, bind, modify, ret, _DoPreCall, call_item, emit, called.
  destruct (daemon_report_mode E); simpl;
    destruct (call E (tick s) item) as [|[|tag]]; simpl;
    eexists; eexists; (split; [reflexivity|]); simpl;
    (split; [auto|]); (split; [reflexivity|]); (split; [reflexivity|]);
    (split; [reflexivity|]);
    repeat first
      [ rewrite called_app_Called
      | rewrite called_app_other by exact I ];
    reflexivity.
Qed.

(** One turn of the thread: it leaves the queue, the busy flag and the
    record of calls alone, or it takes the first item of the queue, calls
    its callable and ends with the busy flag cleared. *)
Lemma run_turn_effect s :
  (_queue (run_turn E s) = _queue s
   /\ _currently_working (run_turn E s) = _currently_working s
   /\ called (run_turn E s) = called s)
  \/ (exists item rest,
        _queue s = item :: rest
        /\ _queue (run_turn E s) = rest
        /\ _currently_working (run_turn E s) = false
        /\ called (run_turn E s) = called s ++ [item]).
Proof.
  unfold run_turn. destruct (thread s) eqn:Et; auto.
  - destruct (_queue s) as [|item rest] eqn:Hq.
    + left. unfold CheckIfThreadShuttingDown.
      destruct (IsThreadShuttingDown E (tick s)); simpl; rewrite Hq; auto.
    + unfold bind, CheckIfThreadShuttingDown.
      destruct (IsThreadShuttingDown E (tick s)); simpl.
      * left. rewrite Hq. auto.
      * right. exists item, rest. split; [reflexivity|].
        destruct (dequeue_and_call_Got (tick_up s) item rest Hq)
          as (r & s' & -> & Hr & Hq' & Hf & _ & Hc).
        destruct Hr as [-> | ->]; simpl; auto.
  - destruct (_queue s) as [|item rest] eqn:Hq.
    + left. rewrite Hq. auto.
    + right. exists item, rest. split; [reflexivity|].
      destruct (dequeue_and_call_Got (set_thread Alive s) item rest Hq)
        as (r & s' & -> & Hr & Hq' & Hf & _ & Hc).
      destruct Hr as [-> | ->]; simpl; auto.
Qed.

Lemma run_op_effect o s :
  (CurrentlyWorking s = true -> CurrentlyWorking (run_op E o s) = true)
  /\ (exists extra, called (run_op E o s) = called s ++ extra)
  \/ (o = OpTurn
      /\ exists item rest,
           _queue s = item :: rest
           /\ _queue (run_op E o s) = rest
           /\ CurrentlyWorking (run_op E o s) = false
           /\ called (run_op E o s) = called s ++ [item]).
Proof.
  destruct o as [|item]; simpl.
  - destruct (run_turn_effect s) as [(_ & Hf & Hc) | H].
    + left. unfold CurrentlyWorking. rewrite Hf, Hc. split; [auto|].
      exists []. rewrite app_nil_r. reflexivity.
    + right. split; [reflexivity | exact H].
  - left. split; [reflexivity|]. exists []. rewrite app_nil_r. reflexivity.
Qed.

(** A worker that is not busy has called a callable. *)
Lemma run_ops_idle_has_called ops s :
  CurrentlyWorking s = true \/ called s <> [] ->
  CurrentlyWorking (run_ops E ops s) = true \/ called (run_ops E ops s) <> [].
Proof.
  revert s. induction ops as [|o ops IH]; intros s Hinv; simpl.
  - exact Hinv.
  - apply IH.
    destruct (run_op_effect o s) as [(Hf & extra & Hc) | (_ & item & rest & _ & _ & _ & Hc)].
    + destruct Hinv as [H | H]; [left; auto|].
      right. rewrite Hc. destruct (called s); [contradiction | discriminate].
    + right. rewrite Hc. destruct (called s); discriminate.
Qed.

(** With nothing submitted, a new worker's turns change neither its queue
    nor its busy flag. *)
Lemma run_turns_on_empty_queue n s :
  _queue s = [] ->
  _queue (run_ops E (repeat OpTurn n) s) = []
  /\ CurrentlyWorking (run_ops E (repeat OpTurn n) s) = CurrentlyWorking s.
Proof.
  revert s. induction n as [|n IH]; intros s Hq; simpl.
  - auto.
  - destruct (run_turn_effect s) as [(Hq' & Hf & _) | (item & rest & Hq' & _)].
    + rewrite Hq in Hq'. destruct (IH (run_turn E s) Hq') as (H1 & H2).
      split; [exact H1|]. rewrite H2. exact Hf.
    + congruence.
Qed.

End Run.

(** C10. (1) A freshly constructed THREADCallToThread reports
    [CurrentlyWorking() = True]. (2) Whenever one step (a turn of the
    thread, or a [put]) takes the busy flag from true to false, the step is
    a turn of the thread that took the first item of the queue and called
    its callable. (3) So a worker that was new and is found not busy has
    called a callable. (4) With nothing submitted, a new worker stays busy
    however many turns its thread takes. (5) The flag is cleared whatever
    the callable does: a turn of a live thread, not shutting down, on a
    queue that holds an item ends with the flag false. *)
Theorem new_worker_is_busy_until_it_has_run_an_item (E : Env) :
  CurrentlyWorking THREADCallToThread__init__ = true
  /\ (forall o s,
        CurrentlyWorking s = true ->
        CurrentlyWorking (run_op E o s) = false ->
        o = OpTurn
        /\ exists item rest,
             _queue s = item :: rest
             /\ _queue (run_op E o s) = rest
             /\ called (run_op E o s) = called s ++ [item])
  /\ (forall ops,
        CurrentlyWorking (run_ops E ops THREADCallToThread__init__) = false ->
        called (run_ops E ops THREADCallToThread__init__) <> [])
  /\ (forall n,
        CurrentlyWorking (run_ops E (repeat OpTurn n) THREADCallToThread__init__) = true)
  /\ (forall s item rest,
        thread s = Alive ->
        _queue s = item :: rest ->
        IsThreadShuttingDown E (tick s) = false ->
        CurrentlyWorking (run_turn E s) = false
        /\ called (run_turn E s) = called s ++ [item]).
Proof.
  split_and!.
  - reflexivity.
  - intros o s Ht Hf.
    destruct (run_op_effect E o s) as [(Hk & _) | (Ho & item & rest & Hq & Hq' & _ & Hc)].
    + rewrite (Hk Ht) in Hf. discriminate.
    + split; [exact Ho|]. exists item, rest. auto.
  - intros ops Hf.
    destruct (run_ops_idle_has_called E ops THREADCallToThread__init__) as [H | H].
    + left. reflexivity.
    + congruence.
    + exact H.
  - intros n. destruct (run_turns_on_empty_queue E n THREADCallToThread__init__) as (_ & H).
    + reflexivity.
    + rewrite H. reflexivity.
  - intros s item rest Ht Hq Hs.
    unfold run_turn. rewrite Ht, Hq.
    unfold bind, CheckIfThreadShuttingDown. rewrite Hs.
    destruct (dequeue_and_call_Got E (tick_up s) item rest Hq)
      as (r & s' & -> & Hr & _ & Hf & _ & Hc).
    destruct Hr as [-> | ->]; simpl; auto.
Qed.

(** C7: the dequeue of the source has no timeout. [self._queue.get( 1.0 )]
    passes 1.0 as [block]; on an empty queue the call waits for an item and
    never raises [queue.Empty], so the thread sits in [get]. With the
    timeout passed as [timeout], the empty queue raises [queue.Empty] after
    a second and the handler, as written, leaves through [finally] and
    continues the loop, the thread alive. *)
Theorem dequeue_has_no_timeout :
  source_get [] = WaitsForItem
  /\ (forall q, source_get q <> RaisesEmpty)
  /\ timeout_get [] = RaisesEmpty
  /\ (forall E s,
        _queue s = [] -> thread s = Alive ->
        thread (after_try (dequeue_and_call E s)) = Waiting_in_get
        /\ thread (after_try (dequeue_and_call_with E timeout_get s)) = Alive
        /\ dequeue_and_call_with E timeout_get s
           = (Ok ContinueLoop, set_currently_working false s)).
Proof.
  split_and!.
  - reflexivity.
  - intros [|item q]; discriminate.
  - reflexivity.
  - intros E s Hq Ht.
    unfold dequeue_and_call, dequeue_and_call_with, source_get, timeout_get, Queue_get.
    rewrite Hq. simpl. auto.
Qed.

(** *** A concrete run *)

(** A new worker idles, is handed item 5, and runs it: busy until the item
    is done, not busy after, though the callable raised. *)
Example new_worker_run :
  map (fun ops => CurrentlyWorking (run_ops raising_calls ops THREADCallToThread__init__))
      [[]; [OpTurn]; [OpTurn; OpPut 5]; [OpTurn; OpPut 5; OpTurn]]
  = [true; true; true; false]
  /\ called (run_ops raising_calls [OpTurn; OpPut 5; OpTurn] THREADCallToThread__init__)
     = [5]
  /\ thread (run_ops raising_calls [OpTurn; OpPut 5; OpTurn] THREADCallToThread__init__)
     = Alive.
Proof. split_and!; vm_compute; reflexivity. Qed.

(** The second part of C10 at work, on the last step of that run. *)
Lemma new_worker_witness :
  CurrentlyWorking (run_ops raising_calls [OpTurn; OpPut 5] THREADCallToThread__init__)
  = true
  /\ CurrentlyWorking
       (run_op raising_calls OpTurn
          (run_ops raising_calls [OpTurn; OpPut 5] THREADCallToThread__init__)) = false
  /\ (OpTurn = OpTurn
      /\ exists item rest,
           _queue (run_ops raising_calls [OpTurn; OpPut 5] THREADCallToThread__init__)
           = item :: rest
           /\ _queue (run_op raising_calls OpTurn
                        (run_ops raising_calls [OpTurn; OpPut 5]
                           THREADCallToThread__init__)) = rest
           /\ called (run_op raising_calls OpTurn
                        (run_ops raising_calls [OpTurn; OpPut 5]
                           THREADCallToThread__init__))
              = called (run_ops raising_calls [OpTurn; OpPut 5]
                          THREADCallToThread__init__) ++ [item]).
Proof.
  split; [reflexivity|]. split; [reflexivity|].
  exact (proj1 (proj2 (new_worker_is_busy_until_it_has_run_an_item raising_calls))
           OpTurn
           (run_ops raising_calls [OpTurn; OpPut 5] THREADCallToThread__init__)
           eq_refl eq_refl).
Defined.

(** *** Submission order *)

Lemma run_op_queue E o s :
  called (run_op E o s) ++ _queue (run_op E o s)
  = (called s ++ _queue s) ++ submitted [o].
Proof.
  destruct o as [|item]; simpl.
  - rewrite app_nil_r.
    destruct (run_turn_effect E s) as [(Hq & _ & Hc) | (item & rest & Hq & Hq' & _ & Hc)].
    + rewrite Hq, Hc. reflexivity.
    + rewrite Hq', Hc, Hq, <- app_assoc. reflexivity.
  - unfold called. simpl. rewrite app_assoc. reflexivity.
Qed.

(** X4. Whatever the thread's turns and the producers' [put]s, in any
    order: the items whose callable the thread has called, followed by the
    items still queued, are the items that were there followed by the items
    submitted, in the order of submission. So every item is called at most
    once, none is skipped, none is called before an item submitted earlier,
    and for a new worker the calls made are a prefix of the submissions. *)
Theorem items_are_called_once_in_submission_order (E : Env) (ops : list op) :
  (forall s,
     called (run_ops E ops s) ++ _queue (run_ops E ops s)
     = (called s ++ _queue s) ++ submitted ops)
  /\ called (run_ops E ops THREADCallToThread__init__)
       ++ _queue (run_ops E ops THREADCallToThread__init__)
     = submitted ops.
Proof.
  assert (H : forall s,
            called (run_ops E ops s) ++ _queue (run_ops E ops s)
            = (called s ++ _queue s) ++ submitted ops).
  { induction ops as [|o ops IH]; intros s.
    - simpl. rewrite app_nil_r. reflexivity.
    - change (run_ops E (o :: ops) s) with (run_ops E ops (run_op E o s)).
      rewrite IH, run_op_queue, <- app_assoc. f_equal.
      unfold submitted. simpl. rewrite app_nil_r. reflexivity. }
  split; [exact H|]. rewrite H. reflexivity.
Qed.

(** *** How the thread ends *)

Lemma run_turn_alive_or_shut_down E s :
  alive_or_shut_down E s -> alive_or_shut_down E (run_turn E s).
Proof.
  intros (Hth & Hlog). destruct Hth as [Ht | (Ht & Hsig)].
  2:{ unfold run_turn. rewrite Ht. split; [right; auto | exact Hlog]. }
  unfold alive_or_shut_down, shutdown_signalled, run_turn. rewrite Ht.
  destruct (_queue s) as [|item rest] eqn:Hq.
  - unfold CheckIfThreadShuttingDown.
    destruct (IsThreadShuttingDown E (tick s)) eqn:Hs; simpl.
    + split; [|exact Hlog]. right. split; [reflexivity|]. left. exists (tick s). auto.
    + split; [left; exact Ht | exact Hlog].
  - unfold bind, CheckIfThreadShuttingDown.
    destruct (IsThreadShuttingDown E (tick s)) eqn:Hs; simpl.
    + split; [|exact Hlog]. right. split; [reflexivity|]. left. exists (tick s). auto.
    + unfold dequeue_and_call, dequeue_and_call_with, source_get, Queue_get. simpl.
      rewrite Hq.
      unfold try_finally, try_except, bind, modify, ret, _DoPreCall, call_item, emit.
      destruct (daemon_report_mode E); simpl;
        destruct (call E _ item) as [|[|tag]] eqn:Hcall; simpl;
        (split;
         [ first [ left; exact Ht
                 | right; split; [reflexivity|]; right; exists item;
                   rewrite !in_app_iff; simpl; auto ]
         | intros item' o; rewrite !in_app_iff; simpl;
           intros Hin; decompose [or] Hin; clear Hin;
           try discriminate; try contradiction; try (eapply Hlog; eassumption);
           match goal with
           | H : Called _ _ = Called _ _ |- _ => inversion H; subst; eexists; symmetry; eassumption
           end ]).
Qed.

Lemma run_ops_alive_or_shut_down E ops s :
  alive_or_shut_down E s -> alive_or_shut_down E (run_ops E ops s).
Proof.
  revert s. induction ops as [|o ops IH]; intros s H; simpl; [exact H|].
  apply IH. destruct o as [|item]; simpl.
  - apply run_turn_alive_or_shut_down. exact H.
  - exact H.
Qed.

Lemma run_ops_after_exit E ops s :
  thread s = Exited ->
  thread (run_ops E ops s) = Exited /\ called (run_ops E ops s) = called s.
Proof.
  revert s. induction ops as [|o ops IH]; intros s Ht; simpl; [auto|].
  destruct o as [|item]; simpl.
  - unfold run_turn. rewrite Ht. apply IH. exact Ht.
  - destruct (IH (put item s) Ht) as (H1 & H2). auto.
Qed.

(** X5. A THREADCallToThread never dies of an exception. Over any run of
    turns and [put]s of a new worker: (1) the thread is alive or has returned
    from [run]; (2) if it has returned, a shutdown signal reached it: a
    reading of [IsThreadShuttingDown] answered true, or a callable raised
    the signal; (3) so when no reading answers true and no callable raises
    the signal, the thread is alive, whatever else the callables raise;
    (4) once it has returned it calls nothing more, whatever is submitted. *)
Theorem worker_thread_ends_only_by_shutdown (E : Env) (ops : list op) :
  (thread (run_ops E ops THREADCallToThread__init__) = Alive
   \/ thread (run_ops E ops THREADCallToThread__init__) = Exited)
  /\ (thread (run_ops E ops THREADCallToThread__init__) = Exited ->
      shutdown_signalled E (run_ops E ops THREADCallToThread__init__))
  /\ ((forall n, IsThreadShuttingDown E n = false) ->
      (forall n item, call E n item <> Raises ShutdownException) ->
      thread (run_ops E ops THREADCallToThread__init__) = Alive)
  /\ (forall more,
        thread (run_ops E ops THREADCallToThread__init__) = Exited ->
        thread (run_ops E more (run_ops E ops THREADCallToThread__init__)) = Exited
        /\ called (run_ops E more (run_ops E ops THREADCallToThread__init__))
           = called (run_ops E ops THREADCallToThread__init__)).
Proof.
  assert (Hinv : alive_or_shut_down E (run_ops E ops THREADCallToThread__init__)).
  { apply run_ops_alive_or_shut_down. split; [left; reflexivity|].
    intros item o []. }
  destruct Hinv as (Hth & Hlog).
  split_and!.
  - destruct Hth as [H | (H & _)]; auto.
  - intros Hex. destruct Hth as [H | (_ & H)]; [congruence | exact H].
  - intros Hno Hcalls. destruct Hth as [H | (_ & [(n & _ & Hn) | (item & Hin)])].
    + exact H.
    + rewrite Hno in Hn. discriminate.
    + destruct (Hlog _ _ Hin) as (n & Hn). symmetry in Hn.
      exfalso. exact (Hcalls n item Hn).
  - intros more. apply run_ops_after_exit.
Qed.

(** A worker idles once, is handed item 5 and finds itself shutting down at
    its next checkpoint: it returns from [run] with the item still queued,
    and item 6, submitted later, is never called. *)
Example worker_returns_on_shutdown :
  thread (run_ops stopping_calls [OpTurn; OpPut 5; OpTurn; OpPut 6; OpTurn]
            THREADCallToThread__init__) = Exited
  /\ called (run_ops stopping_calls [OpTurn; OpPut 5; OpTurn; OpPut 6; OpTurn]
               THREADCallToThread__init__) = []
  /\ _queue (run_ops stopping_calls [OpTurn; OpPut 5; OpTurn; OpPut 6; OpTurn]
               THREADCallToThread__init__) = [5; 6].
Proof. split_and!; vm_compute; reflexivity. Qed.

(** X6. The busy flag says nothing about the queue: a turn of a live
    thread, not shutting down, on a queue that holds two items or more calls
    the first and ends with [CurrentlyWorking() = False] while the others
    are still queued, whatever the callable did. *)
Theorem busy_flag_is_cleared_with_items_still_queued (E : Env) (s : State)
    (item next : Item) (rest : list Item) :
  thread s = Alive ->
  _queue s = item :: next :: rest ->
  IsThreadShuttingDown E (tick s) = false ->
  CurrentlyWorking (run_turn E s) = false
  /\ _queue (run_turn E s) = next :: rest
  /\ called (run_turn E s) = called s ++ [item].
Proof.
  intros Ht Hq Hs.
  unfold run_turn. rewrite Ht, Hq.
  unfold bind, CheckIfThreadShuttingDown. rewrite Hs.
  destruct (dequeue_and_call_Got E (tick_up s) item (next :: rest) Hq)
    as (r & s' & -> & Hr & Hq' & Hf & _ & Hc).
  destruct Hr as [-> | ->]; simpl; auto.
Qed.

(** Two items are submitted to a new worker; after the turn that runs the
    first, the worker reports not busy with the second still queued. *)
Lemma busy_flag_witness :
  thread (run_ops raising_calls [OpPut 5; OpPut 6] THREADCallToThread__init__) = Alive
  /\ _queue (run_ops raising_calls [OpPut 5; OpPut 6] THREADCallToThread__init__) = [5; 6]
  /\ CurrentlyWorking
       (run_turn raising_calls
          (run_ops raising_calls [OpPut 5; OpPut 6] THREADCallToThread__init__)) = false
  /\ _queue (run_turn raising_calls
               (run_ops raising_calls [OpPut 5; OpPut 6] THREADCallToThread__init__))
     = [6].
Proof.
  split; [reflexivity|]. split; [reflexivity|].
  pose proof (busy_flag_is_cleared_with_items_still_queued raising_calls
                (run_ops raising_calls [OpPut 5; OpPut 6] THREADCallToThread__init__)
                5 6 [] eq_refl eq_refl eq_refl) as (H1 & H2 & _).
  split; [exact H1 | exact H2].
Defined.

(** *** Every queued item is run *)

(** The turn of a live thread, not shutting down, on a queue that holds an
    item whose callable does not raise the shutdown signal. *)
Lemma run_turn_runs_item E s item rest :
  thread s = Alive ->
  _queue s = item :: rest ->
  IsThreadShuttingDown E (tick s) = false ->
  call E (S (tick s)) item <> Raises ShutdownException ->
  thread (run_turn E s) = Alive
  /\ _queue (run_turn E s) = rest
  /\ called (run_turn E s) = called s ++ [item]
  /\ CurrentlyWorking (run_turn E s) = false
  /\ tick (run_turn E s) = S (S (tick s)).
Proof.
  intros Ht Hq Hs Hcall. unfold run_turn. rewrite Ht, Hq.
  unfold bind, CheckIfThreadShuttingDown. rewrite Hs.
  unfold dequeue_and_call, dequeue_and_call_with, source_get, Queue_get. simpl.
  rewrite Hq.
  unfold try_finally, try_except, bind, modify, ret, _DoPreCall, call_item, emit, called,
    CurrentlyWorking.
  destruct (daemon_report_mode E); simpl;
    destruct (call E (S (tick s)) item) as [|[|tag]]; simpl;
    try (exfalso; apply Hcall; reflexivity);
    (split; [exact Ht|]); (split; [reflexivity|]);
    (split; [|split; reflexivity]);
    repeat first
      [ rewrite called_app_Called
      | rewrite called_app_other by exact I ];
    reflexivity.
Qed.

(** X26. Every queued item is run. A live THREADCallToThread that is not
    found shutting down, and whose callables do not raise the shutdown
    signal, empties its queue in as many turns as the queue holds items:
    the callables of all the queued items have been called, in the order of
    the queue, the thread is still alive, and the queue is empty. *)
Theorem queued_items_are_all_called (E : Env) (s : State) :
  thread s = Alive ->
  (forall n, tick s <= n -> IsThreadShuttingDown E n = false) ->
  (forall n item, call E n item <> Raises ShutdownException) ->
  thread (run_ops E (repeat OpTurn (length (_queue s))) s) = Alive
  /\ _queue (run_ops E (repeat OpTurn (length (_queue s))) s) = []
  /\ called (run_ops E (repeat OpTurn (length (_queue s))) s) = called s ++ _queue s.
Proof.
  intros Ht Hshut Hcall.
  remember (_queue s) as q eqn:Hq. revert s Ht Hshut Hq.
  induction q as [|item rest IH]; intros s Ht Hshut Hq; simpl.
  - rewrite app_nil_r. auto.
  - destruct (run_turn_runs_item E s item rest Ht (eq_sym Hq))
      as (Ht' & Hq' & Hc' & _ & Htick); [apply Hshut; lia | apply Hcall|].
    destruct (IH (run_turn E s)) as (H1 & H2 & H3).
    + exact Ht'.
    + intros n Hn. apply Hshut. lia.
    + symmetry. exact Hq'.
    + split; [exact H1|]. split; [exact H2|].
      rewrite H3, Hc', <- app_assoc. reflexivity.
Qed.

(** The theorem at work: two items are queued; their callables raise an
    exception that is not the shutdown signal; both are called. *)
Lemma queued_items_witness :
  thread (run_ops raising_calls [OpPut 5; OpPut 6] THREADCallToThread__init__) = Alive
  /\ (forall n item, call raising_calls n item <> Raises ShutdownException)
  /\ called (run_ops raising_calls
               (repeat OpTurn
                  (length (_queue (run_ops raising_calls [OpPut 5; OpPut 6]
                                     THREADCallToThread__init__))))
               (run_ops raising_calls [OpPut 5; OpPut 6] THREADCallToThread__init__))
     = [5; 6].
Proof.
  assert (H : forall n item, call raising_calls n item <> Raises ShutdownException)
    by (intros n item; discriminate).
  split; [reflexivity|]. split; [exact H|].
  exact (proj2 (proj2 (queued_items_are_all_called raising_calls
                         (run_ops raising_calls [OpPut 5; OpPut 6] THREADCallToThread__init__)
                         eq_refl (fun _ _ => eq_refl) H))).
Defined.

End THREADCallToThreadProofs.

(** ** Waiting for a subprocess *)

Module SubprocessCommunicateProofs.

Import SubprocessCommunicate.

Section Run.

Variable E : Env.

(** [do_test] in one line: what [process.kill()] does makes no
    difference. *)
Lemma do_test_spec s :
  do_test E s
  = if model_shutdown E (tick s)
    then (Raise ShutdownException,
          {| tick := S (S (tick s)); log := log s ++ [KillCalled] |})
    else (Ok tt, tick_up s).
Proof.
  unfold do_test. destruct (model_shutdown E (tick s)); [|reflexivity].
  unfold bind, try_except, call_kill, raise, ret. simpl.
  destruct (kill E (S (tick s))); reflexivity.
Qed.

(** The loop from its [n]-th turn on, while [communicate] times out and the
    application is not found shutting down. *)
Lemma communicate_loop_timeouts k fuel s :
  (forall i, i < k -> communicate E (tick s + 2 * i) = TimeoutExpired) ->
  (forall i, i < k -> model_shutdown E (tick s + 2 * i + 1) = false) ->
  communicate_loop E (k + fuel) s
  = communicate_loop E fuel
      {| tick := tick s + 2 * k; log := log s ++ repeat CommunicateCalled k |}.
Proof.
  revert s. induction k as [|k IH]; intros s Hc Hm.
  - simpl. rewrite Nat.add_0_r, app_nil_r. destruct s; reflexivity.
  - change (S k + fuel) with (S (k + fuel)). cbn [communicate_loop].
    pose proof (Hc 0 ltac:(lia)) as Hc0. rewrite Nat.mul_0_r, Nat.add_0_r in Hc0.
    rewrite Hc0. unfold bind. rewrite do_test_spec. cbn [tick].
    pose proof (Hm 0 ltac:(lia)) as Hm0. rewrite Nat.mul_0_r, Nat.add_0_r, Nat.add_1_r in Hm0.
    rewrite Hm0. unfold tick_up. cbn [tick log]. rewrite IH.
    + cbn [tick log]. f_equal. f_equal; [lia|].
      rewrite <- app_assoc. reflexivity.
    + intros i Hi. cbn [tick]. replace (S (S (tick s)) + 2 * i) with (tick s + 2 * S i) by lia.
      apply Hc. lia.
    + intros i Hi. cbn [tick].
      replace (S (S (tick s)) + 2 * i + 1) with (tick s + 2 * S i + 1) by lia.
      apply Hm. lia.
Qed.

(** What the log of a run looks like. *)
Lemma communicate_loop_log fuel s :
  exists k,
    (log (communicate_loop E fuel s).2 = log s ++ repeat CommunicateCalled k
     /\ forall o, (communicate_loop E fuel s).1 = Ok o -> 0 < k)
    \/ (log (communicate_loop E fuel s).2
        = log s ++ repeat CommunicateCalled k ++ [KillCalled]
        /\ (communicate_loop E fuel s).1 = Raise ShutdownException).
Proof.
  revert s. induction fuel as [|fuel IH]; intros s.
  - exists 0. left. simpl. rewrite app_nil_r. split; [reflexivity | discriminate].
  - cbn [communicate_loop]. destruct (communicate E (tick s)) as [o | | e].
    + exists 1. left. simpl. split; [reflexivity | intros; lia].
    + unfold bind. rewrite do_test_spec. cbn [tick].
      destruct (model_shutdown E (S (tick s))).
      * exists 1. right. simpl. rewrite <- app_assoc. auto.
      * destruct (IH (tick_up {| tick := S (tick s); log := log s ++ [CommunicateCalled] |}))
          as (k & [(Hl & Hk) | (Hl & Hr)]).
        -- exists (S k). left. rewrite Hl. simpl. rewrite <- app_assoc.
           split; [reflexivity | intros; lia].
        -- exists (S k). right. rewrite Hl. simpl. rewrite <- app_assoc. auto.
    + exists 1. left. simpl. split; [reflexivity | discriminate].
Qed.

End Run.

(** X24. [SubprocessCommunicate] kills the process only on shutdown, and
    then raises. For every run: the calls made on the process are calls of
    [communicate], followed by one [kill] at most, which is then the last
    thing done; when the process was killed, the function raises
    [ShutdownException], whatever [kill] did; when the function returns an
    output, the process was not killed and [communicate] was called once at
    least; and when [HG.model_shutdown] is set at the start, the process is
    killed and [communicate] is not called at all. *)
Theorem SubprocessCommunicate_kills_only_on_shutdown (E : Env) (fuel : nat) (s : State) :
  (exists k,
     (log (SubprocessCommunicate E fuel s).2 = log s ++ repeat CommunicateCalled k
      /\ forall o, (SubprocessCommunicate E fuel s).1 = Ok o -> 0 < k)
     \/ (log (SubprocessCommunicate E fuel s).2
         = log s ++ repeat CommunicateCalled k ++ [KillCalled]
         /\ (SubprocessCommunicate E fuel s).1 = Raise ShutdownException))
  /\ (model_shutdown E (tick s) = true ->
      SubprocessCommunicate E fuel s
      = (Raise ShutdownException,
         {| tick := S (S (tick s)); log := log s ++ [KillCalled] |})).
Proof.
  unfold SubprocessCommunicate, bind. rewrite do_test_spec.
  destruct (model_shutdown E (tick s)) eqn:Hm.
  - split; [|reflexivity]. exists 0. right. simpl. auto.
  - split; [|discriminate].
    destruct (communicate_loop_log E fuel (tick_up s)) as (k & H). exists k. exact H.
Qed.

(** X25. [SubprocessCommunicate] answers with the first thing that
    happens. The readings alternate between [HG.model_shutdown] and
    [process.communicate]. (1) If the first [k] calls of [communicate] time
    out, the application is not found shutting down at the [k + 1] tests
    made meanwhile, and the next call answers with an output, the function
    returns that output after [k + 1] calls of [communicate] and no
    [kill]. (2) If the first [k] calls time out and the test after the last
    of them is the first to find the application shutting down, the
    function kills the process and raises [ShutdownException], after [k]
    calls of [communicate]: a shutdown is noticed within one timeout. *)
Theorem SubprocessCommunicate_answers_with_the_first_event (E : Env) (fuel k : nat)
    (s : State) :
  (forall i, i < k -> communicate E (tick s + 2 * i + 1) = TimeoutExpired) ->
  (forall i, i < k -> model_shutdown E (tick s + 2 * i) = false) ->
  (forall o,
     model_shutdown E (tick s + 2 * k) = false ->
     communicate E (tick s + 2 * k + 1) = Output o ->
     SubprocessCommunicate E (k + S fuel) s
     = (Ok o, {| tick := tick s + 2 * k + 2;
                 log := log s ++ repeat CommunicateCalled (S k) |}))
  /\ (model_shutdown E (tick s + 2 * k) = true ->
      SubprocessCommunicate E (k + fuel) s
      = (Raise ShutdownException,
         {| tick := tick s + 2 * k + 2;
            log := log s ++ repeat CommunicateCalled k ++ [KillCalled] |})).
Proof.
  intros Hc Hm. destruct k as [|k].
  - rewrite Nat.mul_0_r, Nat.add_0_r. unfold SubprocessCommunicate, bind.
    rewrite do_test_spec. split.
    + intros o Hm0 Hc0. rewrite Hm0. simpl. rewrite Nat.add_1_r in Hc0. rewrite Hc0.
      f_equal. f_equal. lia.
    + intros Hm0. rewrite Hm0. simpl. f_equal. f_equal. lia.
  - unfold SubprocessCommunicate, bind. rewrite do_test_spec.
    pose proof (Hm 0 ltac:(lia)) as Hm0. rewrite Nat.mul_0_r, Nat.add_0_r in Hm0.
    rewrite Hm0.
    assert (Hloop : forall fuel',
              communicate_loop E (k + S fuel') (tick_up s)
              = communicate_loop E (S fuel')
                  {| tick := tick s + 2 * k + 1; log := log s ++ repeat CommunicateCalled k |}).
    { intros fuel'. rewrite communicate_loop_timeouts.
      - cbn [tick tick_up log]. f_equal. f_equal. lia.
      - intros i Hi. cbn [tick tick_up].
        replace (S (tick s) + 2 * i) with (tick s + 2 * i + 1) by lia.
        apply Hc. lia.
      - intros i Hi. cbn [tick tick_up].
        replace (S (tick s) + 2 * i + 1) with (tick s + 2 * S i) by lia.
        apply Hm. lia. }
    pose proof (Hc k ltac:(lia)) as Hck.
    split.
    + intros o Hmk Hok.
      replace (S k + S fuel) with (k + S (S fuel)) by lia. rewrite Hloop.
      cbn [communicate_loop tick log]. rewrite Hck. unfold bind. rewrite do_test_spec.
      cbn [tick log]. replace (S (tick s + 2 * k + 1)) with (tick s + 2 * S k) by lia.
      rewrite Hmk. unfold tick_up. cbn [communicate_loop tick log].
      replace (S (tick s + 2 * S k)) with (tick s + 2 * S k + 1) by lia. rewrite Hok.
      f_equal. f_equal; [lia|].
      rewrite <- !app_assoc. f_equal.
      change (repeat CommunicateCalled (S (S k)))
        with (CommunicateCalled :: repeat CommunicateCalled (S k)).
      rewrite (repeat_cons (S k)). change (repeat CommunicateCalled (S k))
        with (CommunicateCalled :: repeat CommunicateCalled k) at 1.
      rewrite (repeat_cons k). rewrite <- !app_assoc. reflexivity.
    + intros Hmk.
      replace (S k + fuel) with (k + S fuel) by lia. rewrite Hloop.
      cbn [communicate_loop tick log]. rewrite Hck. unfold bind. rewrite do_test_spec.
      cbn [tick log]. replace (S (tick s + 2 * k + 1)) with (tick s + 2 * S k) by lia.
      rewrite Hmk. f_equal. f_equal; [lia|].
      rewrite <- !app_assoc. f_equal.
      change (repeat CommunicateCalled (S k))
        with (CommunicateCalled :: repeat CommunicateCalled k).
      rewrite (repeat_cons k). rewrite <- !app_assoc. reflexivity.
Qed.

(** The first part at work: the sample process times out twice and then
    answers 7. *)
Lemma SubprocessCommunicate_witness :
  (forall i, i < 2 -> communicate slow_process (0 + 2 * i + 1) = TimeoutExpired)
  /\ (forall i, i < 2 -> model_shutdown slow_process (0 + 2 * i) = false)
  /\ SubprocessCommunicate slow_process 3 {| tick := 0; log := [] |}
     = (Ok 7, {| tick := 6;
                 log := [CommunicateCalled; CommunicateCalled; CommunicateCalled] |}).
Proof.
  assert (H1 : forall i, i < 2 -> communicate slow_process (0 + 2 * i + 1) = TimeoutExpired)
    by (intros [|[|i]] Hi; [reflexivity | reflexivity | lia]).
  assert (H2 : forall i, i < 2 -> model_shutdown slow_process (0 + 2 * i) = false)
    by (intros [|[|i]] Hi; [reflexivity | reflexivity | lia]).
  split; [exact H1|]. split; [exact H2|].
  exact (proj1 (SubprocessCommunicate_answers_with_the_first_event slow_process 0 2
                  {| tick := 0; log := [] |} H1 H2) 7 eq_refl eq_refl).
Defined.

(** The same process, waited for once the application is shutting down:
    the process is killed and [communicate] is not called; [kill] fails,
    and the shutdown signal is raised all the same. *)
Example SubprocessCommunicate_shutdown_run :
  SubprocessCommunicate slow_process 5 {| tick := 6; log := [] |}
  = (Raise ShutdownException, {| tick := 8; log := [KillCalled] |}).
Proof. vm_compute. reflexivity. Qed.

End SubprocessCommunicateProofs.
